(** * The Mirror Kernel of the gordian consensus engine

    A shallow embedding of [tm/tmconsensus] (RoundView, VersionedRoundView)
    and of [tm/tmengine/internal/tmmirror/internal/tmi/kernel.go]
    (the kernel's ingest operations and view shifts, its read-only
    requests, its outputs and its start-up), with the properties the
    specification states about them and further properties of the code.

    Conventions.
    - [uint32] and [uint64] values are [Z]; every [++] and [+ 1] of the
      source is written with its wrap-around ([u32], [u64]).
    - A Go [map[string]V] is [option (gmap string V)]: [None] is the nil
      map, which reads as empty and panics when written.
    - A Go function that may panic returns [Res]; the kernel's effects on
      its collaborators (stores, logger, channels, cancel functions) are
      recorded, in order, in the [trace] of the [World]. *)

From stdpp Require Import gmap strings list fin_maps.
From Stdlib Require Import ZArith Lia.

Local Open Scope Z_scope.

(** ** Machine integers *)

Definition u32 (z : Z) : Z := z mod 2 ^ 32.
Definition u64 (z : Z) : Z := z mod 2 ^ 64.

#[global] Instance byte_eq_dec : EqDecision Byte.byte := Byte.byte_eq_dec.

(** ** Go maps *)

Abbreviation GoMap V := (option (gmap string V)).

Module gomap.

(** [m[k]] with the comma-ok result folded into the option. *)
Definition get {V} (m : GoMap V) (k : string) : option V :=
  match m with
  | Some g => g !! k
  | None => None
  end.

(** [m[k] = v]; [None] is the run-time panic of a write to a nil map. *)
Definition set {V} (m : GoMap V) (k : string) (v : V) : option (GoMap V) :=
  match m with
  | Some g => Some (Some (<[k := v]> g))
  | None => None
  end.

(** [clear(m)]: a nil map stays nil. *)
Definition clear {V} (m : GoMap V) : GoMap V :=
  match m with
  | Some _ => Some ∅
  | None => None
  end.

(** [len(m)]. *)
Definition len {V} (m : GoMap V) : nat :=
  match m with
  | Some g => size g
  | None => 0%nat
  end.

(** [maps.Clone(m)]: nil is preserved. *)
Definition clone {V} (m : GoMap V) : GoMap V := m.

(** The entries of [m], as the underlying finite map. *)
Definition entries {V} (m : GoMap V) : gmap string V :=
  match m with
  | Some g => g
  | None => ∅
  end.

(** The order in which a [range] loop visits a map is chosen by the
    run time.  [range order m] visits first the keys of [m] that occur
    in [order], in that order, then the remaining ones; every visiting
    order of [m] is [range order m] for some [order]. *)
Definition range {V} (order : list string) (m : GoMap V) : list (string * V) :=
  let g := entries m in
  omap (λ k, (λ v, (k, v)) <$> g !! k) (remove_dups order)
  ++ filter (λ kv, kv.1 ∉ order) (map_to_list g).

(** [delete(m, k)]: a no-op on a nil map. *)
Definition del {V} (m : GoMap V) (k : string) : GoMap V :=
  match m with
  | Some g => Some (delete k g)
  | None => None
  end.

End gomap.

(** ** Package tmconsensus *)

Module tmconsensus.

Abbreviation PubKey := string (only parsing).
Abbreviation Bytes := (list Byte.byte) (only parsing).

Record Validator := {
  ValPubKey : PubKey;
  Power : Z;
}.

Record SparseSignature := {
  KeyID : Bytes;
  Sig : Bytes;
}.

(** [CommitProof]: the previous height's precommits carried by a block. *)
Record CommitProof := {
  CPRound : Z;
  CPPubKeyHash : string;
  Proofs : GoMap (list SparseSignature);
}.

Record Block := {
  Hash : string;
  PrevBlockHash : string;
  BHeight : Z;
  PrevCommitProof : CommitProof;
  Validators : list Validator;
  NextValidators : list Validator;
  DataID : Bytes;
}.

Record ProposedBlock := {
  PBBlock : Block;
  PBRound : Z;
  ProposerPubKey : PubKey;
  Signature : Bytes;
}.

Record VoteSummary := {
  AvailablePower : Z;
  TotalPrevotePower : Z;
  TotalPrecommitPower : Z;
  PrevoteBlockPower : GoMap Z;
  PrecommitBlockPower : GoMap Z;
  MostVotedPrevoteHash : string;
  MostVotedPrecommitHash : string;
}.

Record VoteTarget := {
  VTHeight : Z;
  VTRound : Z;
  VTBlockHash : string;
}.

Record CommittedBlock := {
  CBBlock : Block;
  CBProof : CommitProof;
}.

(** [gcrypto.SparseSignatureProof]. *)
Record SparseSignatureProof := {
  SSPPubKeyHash : string;
  SSPSignatures : list SparseSignature;
}.

(** The methods of [gcrypto.CommonMessageSignatureProof] and of
    [VoteSummary] that the kernel and the round views call.  Their code
    is not part of this development: they are taken as parameters.
    A proof is a value here; the source never keeps two references to
    one proof object across a mutation, so [MergeSparse] and
    [AddSignature] return the updated proof. *)
Class Collaborators (Proof : Type) := {
  ProofClone : Proof → Proof;
  MergeSparse : Proof → SparseSignatureProof → Proof * bool;
  AddSignature : Proof → Bytes → PubKey → option Proof;
  NewVoteSummary : VoteSummary;
  SetAvailablePower : VoteSummary → list Validator → VoteSummary;
  SetPrevotePowers : VoteSummary → list Validator → GoMap Proof → VoteSummary;
  SetPrecommitPowers : VoteSummary → list Validator → GoMap Proof → VoteSummary;
  VoteSummaryClone : VoteSummary → VoteSummary;
  VoteSummaryReset : VoteSummary → VoteSummary;
  VoteSummaryResetForSameHeight : VoteSummary → VoteSummary;
}.

Section RoundViews.
Context {Proof : Type} {collab : Collaborators Proof}.

(** [RoundView]: the engine's observed view of the state of a round. *)
Record RoundView := {
  Height : Z;
  Round : Z;
  RVValidators : list Validator;
  ValidatorPubKeyHash : string;
  ValidatorVotePowerHash : string;
  ProposedBlocks : list ProposedBlock;
  PrevoteProofs : GoMap Proof;
  PrecommitProofs : GoMap Proof;
  VoteSummaryOf : VoteSummary;
}.

(** The proof maps of a clone: nil when the source map has no entry. *)
Definition cloneProofs (m : GoMap Proof) : GoMap Proof :=
  if (0 <? gomap.len m)%nat
  then Some (ProofClone <$> gomap.entries m)
  else None.

(** [RoundView.Clone]. *)
Definition RoundView_Clone (v : RoundView) : RoundView :=
  {| Height := Height v;
     Round := Round v;
     RVValidators := RVValidators v;
     ValidatorPubKeyHash := ValidatorPubKeyHash v;
     ValidatorVotePowerHash := ValidatorVotePowerHash v;
     ProposedBlocks := ProposedBlocks v;
     PrevoteProofs := cloneProofs (PrevoteProofs v);
     PrecommitProofs := cloneProofs (PrecommitProofs v);
     VoteSummaryOf := VoteSummaryClone (VoteSummaryOf v) |}.

(** [RoundView.ResetForSameHeight]: clears the round, the proposed blocks
    and the vote information; height, validators and validator hashes
    stay. *)
Definition RoundView_ResetForSameHeight (v : RoundView) : RoundView :=
  {| Height := Height v;
     Round := 0;
     RVValidators := RVValidators v;
     ValidatorPubKeyHash := ValidatorPubKeyHash v;
     ValidatorVotePowerHash := ValidatorVotePowerHash v;
     ProposedBlocks := [];
     PrevoteProofs := gomap.clear (PrevoteProofs v);
     PrecommitProofs := gomap.clear (PrecommitProofs v);
     VoteSummaryOf := VoteSummaryResetForSameHeight (VoteSummaryOf v) |}.

(** [RoundView.Reset]: zeroes the height, the validators and their hashes,
    then calls ResetForSameHeight and resets the vote summary. *)
Definition RoundView_Reset (v : RoundView) : RoundView :=
  let v1 :=
    {| Height := 0;
       Round := Round v;
       RVValidators := [];
       ValidatorPubKeyHash := "";
       ValidatorVotePowerHash := "";
       ProposedBlocks := ProposedBlocks v;
       PrevoteProofs := PrevoteProofs v;
       PrecommitProofs := PrecommitProofs v;
       VoteSummaryOf := VoteSummaryOf v |} in
  let v2 := RoundView_ResetForSameHeight v1 in
  {| Height := Height v2;
     Round := Round v2;
     RVValidators := RVValidators v2;
     ValidatorPubKeyHash := ValidatorPubKeyHash v2;
     ValidatorVotePowerHash := ValidatorVotePowerHash v2;
     ProposedBlocks := ProposedBlocks v2;
     PrevoteProofs := PrevoteProofs v2;
     PrecommitProofs := PrecommitProofs v2;
     VoteSummaryOf := VoteSummaryReset (VoteSummaryOf v2) |}.

(** [VersionedRoundView]: a RoundView (embedded in the source, the field
    [RV] here) with version information. *)
Record VersionedRoundView := {
  RV : RoundView;
  Version : Z;
  PrevoteVersion : Z;
  PrecommitVersion : Z;
  PrevoteBlockVersions : GoMap Z;
  PrecommitBlockVersions : GoMap Z;
}.

Definition VersionedRoundView_Clone (v : VersionedRoundView) : VersionedRoundView :=
  {| RV := RoundView_Clone (RV v);
     Version := Version v;
     PrevoteVersion := PrevoteVersion v;
     PrecommitVersion := PrecommitVersion v;
     PrevoteBlockVersions := gomap.clone (PrevoteBlockVersions v);
     PrecommitBlockVersions := gomap.clone (PrecommitBlockVersions v) |}.

(** [VersionedRoundView.resetVersions]. *)
Definition resetVersions (v : VersionedRoundView) : VersionedRoundView :=
  {| RV := RV v;
     Version := 0;
     PrevoteVersion := 0;
     PrecommitVersion := 0;
     PrevoteBlockVersions := gomap.clear (PrevoteBlockVersions v);
     PrecommitBlockVersions := gomap.clear (PrecommitBlockVersions v) |}.

(** [v.RoundView = rv]. *)
Definition withRV (v : VersionedRoundView) (rv : RoundView) : VersionedRoundView :=
  {| RV := rv;
     Version := Version v;
     PrevoteVersion := PrevoteVersion v;
     PrecommitVersion := PrecommitVersion v;
     PrevoteBlockVersions := PrevoteBlockVersions v;
     PrecommitBlockVersions := PrecommitBlockVersions v |}.

Definition VersionedRoundView_Reset (v : VersionedRoundView) : VersionedRoundView :=
  resetVersions (withRV v (RoundView_Reset (RV v))).

(** Assignments to single fields. *)
Definition setHeight (rv : RoundView) (h : Z) : RoundView :=
  {| Height := h; Round := Round rv; RVValidators := RVValidators rv;
     ValidatorPubKeyHash := ValidatorPubKeyHash rv;
     ValidatorVotePowerHash := ValidatorVotePowerHash rv;
     ProposedBlocks := ProposedBlocks rv; PrevoteProofs := PrevoteProofs rv;
     PrecommitProofs := PrecommitProofs rv; VoteSummaryOf := VoteSummaryOf rv |}.

Definition setRound (rv : RoundView) (r : Z) : RoundView :=
  {| Height := Height rv; Round := r; RVValidators := RVValidators rv;
     ValidatorPubKeyHash := ValidatorPubKeyHash rv;
     ValidatorVotePowerHash := ValidatorVotePowerHash rv;
     ProposedBlocks := ProposedBlocks rv; PrevoteProofs := PrevoteProofs rv;
     PrecommitProofs := PrecommitProofs rv; VoteSummaryOf := VoteSummaryOf rv |}.

Definition setValidators (rv : RoundView) (vals : list Validator)
    (pubKeyHash powerHash : string) : RoundView :=
  {| Height := Height rv; Round := Round rv; RVValidators := vals;
     ValidatorPubKeyHash := pubKeyHash;
     ValidatorVotePowerHash := powerHash;
     ProposedBlocks := ProposedBlocks rv; PrevoteProofs := PrevoteProofs rv;
     PrecommitProofs := PrecommitProofs rv; VoteSummaryOf := VoteSummaryOf rv |}.

Definition setProposedBlocks (rv : RoundView) (pbs : list ProposedBlock) : RoundView :=
  {| Height := Height rv; Round := Round rv; RVValidators := RVValidators rv;
     ValidatorPubKeyHash := ValidatorPubKeyHash rv;
     ValidatorVotePowerHash := ValidatorVotePowerHash rv;
     ProposedBlocks := pbs; PrevoteProofs := PrevoteProofs rv;
     PrecommitProofs := PrecommitProofs rv; VoteSummaryOf := VoteSummaryOf rv |}.

Definition setPrevoteProofs (rv : RoundView) (m : GoMap Proof) : RoundView :=
  {| Height := Height rv; Round := Round rv; RVValidators := RVValidators rv;
     ValidatorPubKeyHash := ValidatorPubKeyHash rv;
     ValidatorVotePowerHash := ValidatorVotePowerHash rv;
     ProposedBlocks := ProposedBlocks rv; PrevoteProofs := m;
     PrecommitProofs := PrecommitProofs rv; VoteSummaryOf := VoteSummaryOf rv |}.

Definition setPrecommitProofs (rv : RoundView) (m : GoMap Proof) : RoundView :=
  {| Height := Height rv; Round := Round rv; RVValidators := RVValidators rv;
     ValidatorPubKeyHash := ValidatorPubKeyHash rv;
     ValidatorVotePowerHash := ValidatorVotePowerHash rv;
     ProposedBlocks := ProposedBlocks rv; PrevoteProofs := PrevoteProofs rv;
     PrecommitProofs := m; VoteSummaryOf := VoteSummaryOf rv |}.

Definition setVoteSummary (rv : RoundView) (vs : VoteSummary) : RoundView :=
  {| Height := Height rv; Round := Round rv; RVValidators := RVValidators rv;
     ValidatorPubKeyHash := ValidatorPubKeyHash rv;
     ValidatorVotePowerHash := ValidatorVotePowerHash rv;
     ProposedBlocks := ProposedBlocks rv; PrevoteProofs := PrevoteProofs rv;
     PrecommitProofs := PrecommitProofs rv; VoteSummaryOf := vs |}.

Definition setVersion (v : VersionedRoundView) (n : Z) : VersionedRoundView :=
  {| RV := RV v; Version := n; PrevoteVersion := PrevoteVersion v;
     PrecommitVersion := PrecommitVersion v;
     PrevoteBlockVersions := PrevoteBlockVersions v;
     PrecommitBlockVersions := PrecommitBlockVersions v |}.

Definition setVoteVersions (v : VersionedRoundView) (pv pc : Z) : VersionedRoundView :=
  {| RV := RV v; Version := Version v; PrevoteVersion := pv;
     PrecommitVersion := pc;
     PrevoteBlockVersions := PrevoteBlockVersions v;
     PrecommitBlockVersions := PrecommitBlockVersions v |}.

Definition setPrevoteBlockVersions (v : VersionedRoundView) (m : GoMap Z)
  : VersionedRoundView :=
  {| RV := RV v; Version := Version v; PrevoteVersion := PrevoteVersion v;
     PrecommitVersion := PrecommitVersion v;
     PrevoteBlockVersions := m;
     PrecommitBlockVersions := PrecommitBlockVersions v |}.

Definition setPrecommitBlockVersions (v : VersionedRoundView) (m : GoMap Z)
  : VersionedRoundView :=
  {| RV := RV v; Version := Version v; PrevoteVersion := PrevoteVersion v;
     PrecommitVersion := PrecommitVersion v;
     PrevoteBlockVersions := PrevoteBlockVersions v;
     PrecommitBlockVersions := m |}.

(** Go zero values. *)
Definition zeroVoteSummary : VoteSummary :=
  {| AvailablePower := 0; TotalPrevotePower := 0; TotalPrecommitPower := 0;
     PrevoteBlockPower := None; PrecommitBlockPower := None;
     MostVotedPrevoteHash := ""; MostVotedPrecommitHash := "" |}.

Definition zeroRoundView : RoundView :=
  {| Height := 0; Round := 0; RVValidators := [];
     ValidatorPubKeyHash := ""; ValidatorVotePowerHash := "";
     ProposedBlocks := []; PrevoteProofs := None; PrecommitProofs := None;
     VoteSummaryOf := zeroVoteSummary |}.

Definition zeroVersionedRoundView : VersionedRoundView :=
  {| RV := zeroRoundView; Version := 0; PrevoteVersion := 0;
     PrecommitVersion := 0; PrevoteBlockVersions := None;
     PrecommitBlockVersions := None |}.

Definition VersionedRoundView_ResetForSameHeight (v : VersionedRoundView)
  : VersionedRoundView :=
  resetVersions (withRV v (RoundView_ResetForSameHeight (RV v))).

End RoundViews.

Arguments RoundView : clear implicits.
Arguments VersionedRoundView : clear implicits.

Definition setAvailablePower (vs : VoteSummary) (p : Z) : VoteSummary :=
  {| AvailablePower := p; TotalPrevotePower := TotalPrevotePower vs;
     TotalPrecommitPower := TotalPrecommitPower vs;
     PrevoteBlockPower := PrevoteBlockPower vs;
     PrecommitBlockPower := PrecommitBlockPower vs;
     MostVotedPrevoteHash := MostVotedPrevoteHash vs;
     MostVotedPrecommitHash := MostVotedPrecommitHash vs |}.

(** Modelled from the spec: [ByzantineMajority] and [ByzantineMinority]
    are not in the sources at hand; the glossary gives
    [maj = floor(2·P/3)+1] and [min = floor(P/3)+1]. *)
Definition ByzantineMajority (p : Z) : Z := 2 * p / 3 + 1.
Definition ByzantineMinority (p : Z) : Z := p / 3 + 1.

Definition ValidatorsToPubKeys (vals : list Validator) : list PubKey :=
  ValPubKey <$> vals.

End tmconsensus.

(** ** Package tmi: the kernel *)

Module tmi.
Import tmconsensus.

(** The identifiers of the views the kernel tracks.  The declaration is
    not in the sources at hand; kernel.go names three values, and
    [ViewIDOther] stands for every other value of the type. *)
Inductive ViewID :=
| ViewIDOther
| ViewIDVoting
| ViewIDCommitting
| ViewIDNextRound.

(** The outcomes of a view lookup.  The declaration is not in the
    sources at hand; the five values are those kernel.go and the
    specification name. *)
Inductive ViewLookupStatus :=
| ViewFound
| ViewBeforeCommitting
| ViewOrphaned
| ViewWrongCommit
| ViewFutureNotYetTracked.

Inductive AddVoteResult :=
| AddVoteAccepted
| AddVoteConflict
| AddVoteOutOfDate.

#[global] Instance ViewID_eq_dec : EqDecision ViewID.
Proof. solve_decision. Defined.
#[global] Instance ViewLookupStatus_eq_dec : EqDecision ViewLookupStatus.
Proof. solve_decision. Defined.
#[global] Instance AddVoteResult_eq_dec : EqDecision AddVoteResult.
Proof. solve_decision. Defined.

(** A [*View] pointing into the kernel state: the three views of
    [kState] are the only [View] values the kernel holds. *)
Inductive ViewRef :=
| AtCommitting
| AtVoting
| AtNextRound.

(** A response channel, by name. *)
Abbreviation Chan := nat (only parsing).

(** The cancel function of the context of one fetch request. *)
Record CancelFunc := {
  cfHeight : Z;
  cfHash : string;
}.

(** [tmconsensus.ScopedSignature]: a signature of the local state machine. *)
Record ScopedSignature := {
  TargetHash : string;
  SignContent : Bytes;
  SSig : Bytes;
}.

(** [tmeil.StateMachineRoundAction]. *)
Record StateMachineRoundAction := {
  ActPB : ProposedBlock;
  ActPrevote : ScopedSignature;
  ActPrecommit : ScopedSignature;
}.

(** [voteDistribution], the result of [newVoteDistribution]. *)
Record voteDistribution := {
  AvailableVotePower : Z;
  BlockVotePower : GoMap Z;
}.

(** Log levels; a log record keeps its message and the attributes the
    properties below need. *)
Inductive Level :=
| Info
| Warn
| Error.

Inductive Res (A : Type) :=
| Ok (a : A)
| Panic (msg : string).
Arguments Ok {A} a.
Arguments Panic {A} msg.

Section Kernel.
Context {Proof : Type} {collab : Collaborators Proof}.

Record VoteUpdate := {
  UProof : Proof;
  PrevVersion : Z;
}.

Record AddPrevoteRequest := {
  PvH : Z;
  PvR : Z;
  PrevoteUpdates : GoMap VoteUpdate;
  PvResponse : option Chan;
}.

Record AddPrecommitRequest := {
  PcH : Z;
  PcR : Z;
  PrecommitUpdates : GoMap VoteUpdate;
  PcResponse : option Chan;
}.

Record OutgoingView := {
  OutVRV : VersionedRoundView Proof;
  sent : bool;
}.

Record View := {
  VRV : VersionedRoundView Proof;
  Outgoing : OutgoingView;
}.

(** Modelled from the spec: [View.UpdateOutgoing], [HasBeenSent] and
    [MarkSent] are not in the sources at hand.  Section 3:
    "updateOutgoing() clones the current state and clears sent;
    markSent() sets sent". *)
Definition UpdateOutgoing (v : View) : View :=
  {| VRV := VRV v;
     Outgoing := {| OutVRV := VersionedRoundView_Clone (VRV v); sent := false |} |}.

Definition HasBeenSent (o : OutgoingView) : bool := sent o.

Definition MarkSent (o : OutgoingView) : OutgoingView :=
  {| OutVRV := OutVRV o; sent := true |}.

(** Modelled from the spec: the state-machine view channel is not in
    the sources at hand.  Section 4.7: [H()], [R()], [PubKey()] are
    accessors for the current bindings, and "ForceSend(vrv) injects a
    specific VRV into the pending slot". *)
Record stateMachineView := {
  smH : Z;
  smR : Z;
  smPubKey : PubKey;
  smPending : option (VersionedRoundView Proof);
}.

Definition ForceSend (v : stateMachineView) (vrv : VersionedRoundView Proof)
  : stateMachineView :=
  {| smH := smH v; smR := smR v; smPubKey := smPubKey v; smPending := Some vrv |}.

Record kState := {
  Committing : View;
  Voting : View;
  NextRound : View;
  CommittingBlock : Block;
  NilVotedRound : option (VersionedRoundView Proof);
  (* Made non-nil by NewKernel and never reassigned. *)
  InFlightFetchPBs : gmap string CancelFunc;
  StateMachineView : stateMachineView;
}.

(** What [kState.FindView] returns: the view pointer (nil is [None]),
    the view ID and the lookup status. *)
Record FindViewResult := {
  fvView : option ViewRef;
  fvID : ViewID;
  fvStatus : ViewLookupStatus;
}.

(** Modelled from the spec: [kState.FindView] is not in the sources at
    hand.  Section 3 has NextRound at the voting height and at the
    voting round plus one; section 8 has a vote for a height below
    Committing answered out of date (status BeforeCommitting); the
    kernel's own test has a vote for an earlier round of the voting
    height Orphaned; a round of the committing height other than the
    committing round is WrongCommit; anything else is not yet tracked.
    The kernel functions below do not use this definition: they take
    the lookup as a parameter. *)
Definition FindViewSpec (s : kState) (h r : Z) (reason : string) : FindViewResult :=
  let committing := RV (VRV (Committing s)) in
  let voting := RV (VRV (Voting s)) in
  if h <? Height committing then
    {| fvView := None; fvID := ViewIDOther; fvStatus := ViewBeforeCommitting |}
  else if h =? Height voting then
    if r =? Round voting then
      {| fvView := Some AtVoting; fvID := ViewIDVoting; fvStatus := ViewFound |}
    else if r =? u32 (Round voting + 1) then
      {| fvView := Some AtNextRound; fvID := ViewIDNextRound; fvStatus := ViewFound |}
    else if r <? Round voting then
      {| fvView := None; fvID := ViewIDOther; fvStatus := ViewOrphaned |}
    else
      {| fvView := None; fvID := ViewIDOther; fvStatus := ViewFutureNotYetTracked |}
  else if h =? Height committing then
    if r =? Round committing then
      {| fvView := Some AtCommitting; fvID := ViewIDCommitting; fvStatus := ViewFound |}
    else
      {| fvView := None; fvID := ViewIDOther; fvStatus := ViewWrongCommit |}
  else
    {| fvView := None; fvID := ViewIDOther; fvStatus := ViewFutureNotYetTracked |}.

(** The calls the kernel makes on its collaborators, and what it
    sends on channels, in program order. *)
Inductive Event :=
| Log (lvl : Level) (msg : string) (attrs : list (string * string))
| CallCancel (c : CancelFunc)
| SaveProposedBlock (pb : ProposedBlock)
| OverwritePrevoteProofs (h r : Z) (proofs : GoMap Proof)
| OverwritePrecommitProofs (h r : Z) (proofs : GoMap Proof)
| SaveBlock (cb : CommittedBlock)
| Respond (ch : Chan) (res : AddVoteResult)
| SendFetchRequest (c : CancelFunc) (height : Z) (hash : string).

Definition LogInfo (msg : string) : Event := Log Info msg [].
Definition LogWarn (msg : string) : Event := Log Warn msg [].
Definition LogError (msg : string) : Event := Log Error msg [].

(** The kernel state, the trace of its effects so far, and the free
    slots left in the buffer of the fetch-requests channel. *)
Record World := {
  state : kState;
  trace : list Event;
  fetchRoom : nat;
}.

(** The [Kernel] struct: its configuration and the behaviour of the
    collaborators behind its interface-typed fields.  A store is
    represented by whether each of its calls fails; the schemes by
    their results ([None] is an error).  [ctxDone], [selectDone] and
    [rangeOrder] are the choices of the run time: whether the
    kernel's context is cancelled, whether a [select] with both the
    cancellation and the send ready takes the cancellation, and the
    order in which maps are visited. *)
Record Kernel := {
  initialHeight : Z;
  SaveProposedBlockFails : ProposedBlock → bool;
  OverwritePrevoteProofsFails : Z → Z → GoMap Proof → bool;
  OverwritePrecommitProofsFails : Z → Z → GoMap Proof → bool;
  SaveBlockFails : CommittedBlock → bool;
  PrevoteSignBytes : VoteTarget → option Bytes;
  PrecommitSignBytes : VoteTarget → option Bytes;
  HashPubKeys : list PubKey → option string;
  cmspNew : Bytes → list PubKey → string → option Proof;
  ctxDone : bool;
  selectDone : string → bool;
  rangeOrder : list string;
}.

(** *** The kernel monad: state, trace and panics *)

Definition K (A : Type) : Type := World → Res (A * World).

Definition ret {A} (a : A) : K A := λ w, Ok (a, w).

Definition bind {A B} (m : K A) (f : A → K B) : K B :=
  λ w, match m w with
       | Ok (a, w') => f a w'
       | Panic msg => Panic msg
       end.

Definition panic {A} (msg : string) : K A := λ _, Panic msg.

Definition getS : K kState := λ w, Ok (state w, w).

Definition putS (s : kState) : K unit :=
  λ w, Ok (tt, {| state := s; trace := trace w; fetchRoom := fetchRoom w |}).

Definition emit (e : Event) : K unit :=
  λ w, Ok (tt, {| state := state w; trace := trace w ++ [e]; fetchRoom := fetchRoom w |}).

Definition getRoom : K nat := λ w, Ok (fetchRoom w, w).

Definition putRoom (n : nat) : K unit :=
  λ w, Ok (tt, {| state := state w; trace := trace w; fetchRoom := n |}).

Definition when (b : bool) (m : K unit) : K unit := if b then m else ret tt.

#[local] Instance K_ret : MRet K := @ret.
#[local] Instance K_bind : MBind K := λ A B f m, bind m f.

(** [kState.FindView] and [newVoteDistribution] are called by the
    kernel, but their code is not in the sources at hand: they are
    parameters of everything below. *)
Variable FindView : kState → Z → Z → string → FindViewResult.
Variable newVoteDistribution : GoMap Proof → list Validator → voteDistribution.

Variable k : Kernel.

(** *** Access to the views of the state *)

Definition viewAt (s : kState) (r : ViewRef) : View :=
  match r with
  | AtCommitting => Committing s
  | AtVoting => Voting s
  | AtNextRound => NextRound s
  end.

Definition setCommitting (s : kState) (v : View) : kState :=
  {| Committing := v; Voting := Voting s; NextRound := NextRound s;
     CommittingBlock := CommittingBlock s; NilVotedRound := NilVotedRound s;
     InFlightFetchPBs := InFlightFetchPBs s;
     StateMachineView := StateMachineView s |}.

Definition setVoting (s : kState) (v : View) : kState :=
  {| Committing := Committing s; Voting := v; NextRound := NextRound s;
     CommittingBlock := CommittingBlock s; NilVotedRound := NilVotedRound s;
     InFlightFetchPBs := InFlightFetchPBs s;
     StateMachineView := StateMachineView s |}.

Definition setNextRound (s : kState) (v : View) : kState :=
  {| Committing := Committing s; Voting := Voting s; NextRound := v;
     CommittingBlock := CommittingBlock s; NilVotedRound := NilVotedRound s;
     InFlightFetchPBs := InFlightFetchPBs s;
     StateMachineView := StateMachineView s |}.

Definition setViewAt (s : kState) (r : ViewRef) (v : View) : kState :=
  match r with
  | AtCommitting => setCommitting s v
  | AtVoting => setVoting s v
  | AtNextRound => setNextRound s v
  end.

Definition setInFlightFetchPBs (s : kState) (m : gmap string CancelFunc) : kState :=
  {| Committing := Committing s; Voting := Voting s; NextRound := NextRound s;
     CommittingBlock := CommittingBlock s; NilVotedRound := NilVotedRound s;
     InFlightFetchPBs := m;
     StateMachineView := StateMachineView s |}.

(** [view.VRV = vrv], keeping the outgoing copy. *)
Definition withVRV (v : View) (vrv : VersionedRoundView Proof) : View :=
  {| VRV := vrv; Outgoing := Outgoing v |}.

(** Modelled from the spec: the type of the outgoing copy is not in the
    sources at hand, and [sent] stands for what [HasBeenSent] answers.
    The zero value counts as sent: the kernel test (kernel.go, line
    1856) starts a kernel on fresh stores, whose committing view is the
    zero value, and the main loop calls gossipStrategyOutput, which
    calls a method of the nil proof of every view that was not sent. *)
Definition zeroOutgoingView : OutgoingView :=
  {| OutVRV := zeroVersionedRoundView; sent := true |}.

(** The run-time panics of Go that the kernel can reach. *)
Definition nilMapWrite : string := "assignment to entry in nil map".
Definition nilDeref : string := "invalid memory address or nil pointer dereference".
Definition makesliceCap : string := "makeslice: cap out of range".

(** *** getInitialNilProofs (kernel.go, line 1168) *)

Definition getInitialNilProofs (h r : Z) (vals : list Validator)
  : (Proof * Proof) + string :=
  let nilVT := {| VTHeight := h; VTRound := r; VTBlockHash := "" |} in
  match PrevoteSignBytes k nilVT with
  | None => inr "failed to get initial nil prevote sign bytes"
  | Some nilPrevoteContent =>
    let pubKeys := ValidatorsToPubKeys vals in
    match HashPubKeys k pubKeys with
    | None => inr "failed to build public key hash"
    | Some pubKeyHash =>
      match cmspNew k nilPrevoteContent pubKeys pubKeyHash with
      | None => inr "failed to get initial nil prevote proof"
      | Some prevoteNilProof =>
        match PrecommitSignBytes k nilVT with
        | None => inr "failed to get initial nil precommit sign bytes"
        | Some nilPrecommitContent =>
          match cmspNew k nilPrecommitContent pubKeys pubKeyHash with
          | None => inr "failed to get initial nil precommit proof"
          | Some precommitNilProof => inl (prevoteNilProof, precommitNilProof)
          end
        end
      end
    end
  end.

(** *** advanceVotingRound (kernel.go, line 994) *)

Definition advanceVotingRound : K (option string) :=
  s ← getS;
  let voting := VRV (Voting s) in
  let smv :=
    if bool_decide (smH (StateMachineView s) = Height (RV voting))
       && bool_decide (smR (StateMachineView s) = Round (RV voting))
    then ForceSend (StateMachineView s) (VersionedRoundView_Clone voting)
    else StateMachineView s in
  let vClone := VersionedRoundView_Clone voting in
  (* s.Voting.VRV, s.NextRound.VRV = s.NextRound.VRV, s.Voting.VRV *)
  let newVoting := UpdateOutgoing (withVRV (Voting s) (setVersion (VRV (NextRound s)) 0)) in
  let reset := VersionedRoundView_ResetForSameHeight voting in
  let nrrv := withRV reset (setRound (RV reset) (u32 (Round (RV (VRV newVoting)) + 1))) in
  let s1 :=
    {| Committing := Committing s;
       Voting := newVoting;
       NextRound := withVRV (NextRound s) nrrv;
       CommittingBlock := CommittingBlock s;
       NilVotedRound := Some vClone;
       InFlightFetchPBs := InFlightFetchPBs s;
       StateMachineView := smv |} in
  putS s1;;
  match getInitialNilProofs (Height (RV nrrv)) (Round (RV nrrv)) (RVValidators (RV nrrv)) with
  | inr _ =>
    mret (Some "failed to get initial nil proofs when advancing voting round")
  | inl (nilPrevote, nilPrecommit) =>
    match gomap.set (PrevoteProofs (RV nrrv)) "" nilPrevote with
    | None => panic nilMapWrite
    | Some prevotes =>
      match gomap.set (PrecommitProofs (RV nrrv)) "" nilPrecommit with
      | None => panic nilMapWrite
      | Some precommits =>
        let nrrv' :=
          withRV nrrv (setPrecommitProofs (setPrevoteProofs (RV nrrv) prevotes) precommits) in
        putS (setNextRound s1 (UpdateOutgoing (withVRV (NextRound s1) nrrv')));;
        mret None
      end
    end
  end.

(** *** checkMissingPBs (kernel.go, line 897) *)

Definition inFlight (s : kState) (h : string) : bool :=
  bool_decide (is_Some (InFlightFetchPBs s !! h)).

(** The first two loops: the hashes, other than nil, that have a
    proof but no proposed block in the voting view, in visiting
    order. *)
Definition missingPBsOf (s : kState) (proofs : GoMap Proof) : list string :=
  let havePBHashes : list string :=
    (λ pb, Hash (PBBlock pb)) <$> ProposedBlocks (RV (VRV (Voting s))) in
  filter (λ blockHash, blockHash ≠ "" ∧ blockHash ∉ havePBHashes)
         ((gomap.range (rangeOrder k) proofs).*1).

(** The third loop and the bulk delete: hashes with a fetch in flight
    are overwritten with the empty string, then removed. *)
Definition dropInFlight (s : kState) (missingPBs : list string) : list string :=
  let marked := (λ h, if inFlight s h then "" else h) <$> missingPBs in
  let skippedAny := existsb (inFlight s) missingPBs in
  if skippedAny then filter (λ h, h ≠ "") marked else marked.

Definition blockedMsg : string :=
  "Blocked sending fetch request; kernel may deadlock if this block reaches consensus".

(** The last loop, with its three-way [select]. *)
Fixpoint fetchLoop (dist : voteDistribution) (min : Z) (missingPBs : list string)
  : K unit :=
  match missingPBs with
  | [] => mret tt
  | missingHash :: rest =>
    if default 0 (gomap.get (BlockVotePower dist) missingHash) <? min
    then fetchLoop dist min rest
    else
      s ← getS;
      room ← getRoom;
      let cancel := {| cfHeight := Height (RV (VRV (Voting s))); cfHash := missingHash |} in
      if ctxDone k && ((room =? 0)%nat || selectDone k missingHash)
      then mret tt
      else if (0 <? room)%nat
      then
        emit (SendFetchRequest cancel (Height (RV (VRV (Voting s)))) missingHash);;
        putRoom (room - 1)%nat;;
        putS (setInFlightFetchPBs s (<[missingHash := cancel]> (InFlightFetchPBs s)));;
        fetchLoop dist min rest
      else
        emit (Log Warn blockedMsg [("missing_hash", missingHash)]);;
        fetchLoop dist min rest
  end.

Definition checkMissingPBs (proofs : GoMap Proof) : K unit :=
  s ← getS;
  (* make([]string, 0, len(proofs)-1) *)
  if bool_decide (gomap.len proofs = 0%nat) then panic makesliceCap
  else
    let missingPBs := missingPBsOf s proofs in
    if bool_decide (missingPBs = []) then mret tt
    else
      let missingPBs := dropInFlight s missingPBs in
      if bool_decide (missingPBs = []) then mret tt
      else
        let dist := newVoteDistribution proofs (RVValidators (RV (VRV (Voting s)))) in
        let min := ByzantineMinority (AvailableVotePower dist) in
        fetchLoop dist min missingPBs.

(** *** checkVotingPrecommitViewShift (kernel.go, line 629) *)

Definition hasHash (h : string) (pb : ProposedBlock) : bool :=
  bool_decide (Hash (PBBlock pb) = h).

Definition stuckMsg : string :=
  "Ready to commit block, but block is not yet available; stuck in this voting round until the block is fetched".

Definition checkVotingPrecommitViewShift : K (option string) :=
  s ← getS;
  let vrv := VRV (Voting s) in
  let vs := VoteSummaryOf (RV vrv) in
  let maj := ByzantineMajority (AvailablePower vs) in
  let committingHash := MostVotedPrecommitHash vs in
  let highestPow := default 0 (gomap.get (PrecommitBlockPower vs) committingHash) in
  if highestPow <? maj then
    if bool_decide (TotalPrecommitPower vs = AvailablePower vs) then
      err ← advanceVotingRound;
      match err with
      | Some e => mret (Some e)
      | None =>
        emit (LogInfo "Shifted voting round due to 100% of votes received without consensus");;
        mret None
      end
    else mret None
  else if bool_decide (committingHash = "") then
    err ← advanceVotingRound;
    match err with
    | Some e => mret (Some e)
    | None =>
      emit (LogInfo "Shifted voting round due to nil precommit");;
      mret None
    end
  else if negb (existsb (hasHash committingHash) (ProposedBlocks (RV vrv))) then
    emit (Log Warn stuckMsg
            [("block_hash", committingHash);
             ("fetch_in_progress", if inFlight s committingHash then "true" else "false")]);;
    mret None
  else
    let committedBlock := CommittingBlock s in
    let committing := UpdateOutgoing (Voting s) in
    match find (hasHash committingHash) (ProposedBlocks (RV (VRV committing))) with
    | None => panic "BUG: missed update; need to fetch missing proposed block"
    | Some pb =>
      let committingBlock := PBBlock pb in
      let newHeight := u64 (Height (RV (VRV committing)) + 1) in
      let votingVals := NextValidators committingBlock in
      let votingRV :=
        {| Height := newHeight;
           Round := 0;
           RVValidators := votingVals;
           ValidatorPubKeyHash := ValidatorPubKeyHash (RV (VRV committing));
           ValidatorVotePowerHash := ValidatorVotePowerHash (RV (VRV committing));
           ProposedBlocks := [];
           PrevoteProofs := None;
           PrecommitProofs := None;
           VoteSummaryOf := SetAvailablePower NewVoteSummary votingVals |} in
      let votingVRV :=
        {| RV := votingRV; Version := 0; PrevoteVersion := 1; PrecommitVersion := 1;
           PrevoteBlockVersions := None; PrecommitBlockVersions := None |} in
      let s1 :=
        {| Committing := committing;
           Voting := {| VRV := votingVRV; Outgoing := zeroOutgoingView |};
           NextRound := NextRound s;
           CommittingBlock := committingBlock;
           NilVotedRound := NilVotedRound s;
           InFlightFetchPBs := InFlightFetchPBs s;
           StateMachineView := StateMachineView s |} in
      putS s1;;
      match getInitialNilProofs newHeight 0 votingVals with
      | inr _ => mret (Some "failed to load nil proofs on new voting round")
      | inl (nilPrevote, nilPrecommit) =>
        (* Both maps of the fresh view are nil: they are made, and the
           nil proofs stored since no entry exists yet. *)
        let votingRV' :=
          setPrecommitProofs
            (setPrevoteProofs votingRV (Some {[ "" := nilPrevote ]}))
            (Some {[ "" := nilPrecommit ]}) in
        let s2 := setVoting s1 (UpdateOutgoing (withVRV (Voting s1) (withRV votingVRV votingRV'))) in
        let nr0 := VersionedRoundView_Reset (VRV (NextRound s2)) in
        let nrRV :=
          setVoteSummary
            (setValidators (setRound (setHeight (RV nr0) newHeight) 1) votingVals
               (ValidatorPubKeyHash votingRV') (ValidatorVotePowerHash votingRV'))
            (setAvailablePower (VoteSummaryOf (RV nr0))
               (AvailablePower (VoteSummaryOf votingRV'))) in
        let nr1 := setVoteVersions (withRV nr0 nrRV) 1 1 in
        let s3 := setNextRound s2 (withVRV (NextRound s2) nr1) in
        putS s3;;
        match getInitialNilProofs newHeight 1 votingVals with
        | inr _ => mret (Some "failed to load nil proofs on new next round")
        | inl (nilPrevote1, nilPrecommit1) =>
          match gomap.set (PrevoteProofs nrRV) "" nilPrevote1 with
          | None => panic nilMapWrite
          | Some prevotes =>
            match gomap.set (PrecommitProofs nrRV) "" nilPrecommit1 with
            | None => panic nilMapWrite
            | Some precommits =>
              let nr2 :=
                withRV nr1 (setPrecommitProofs (setPrevoteProofs nrRV prevotes) precommits) in
              let s4 := setNextRound s3 (UpdateOutgoing (withVRV (NextRound s3) nr2)) in
              putS s4;;
              if Height (RV (VRV (Voting s4))) <=? u64 (initialHeight k + 1)
              then mret None
              else
                let cb :=
                  {| CBBlock := committedBlock;
                     CBProof := PrevCommitProof (CommittingBlock s4) |} in
                emit (SaveBlock cb);;
                if SaveBlockFails k cb
                then mret (Some "failed to save newly committed block")
                else
                  emit (LogInfo "Committed block");;
                  mret None
            end
          end
        end
      end
    end.

(** *** checkNextRoundPrecommitViewShift and checkPrevoteViewShift
    (kernel.go, lines 812 and 854) *)

Definition checkNextRoundPrecommitViewShift : K (option string) :=
  s ← getS;
  let vrv := VRV (NextRound s) in
  let vs := VoteSummaryOf (RV vrv) in
  let min := ByzantineMinority (AvailablePower vs) in
  if TotalPrecommitPower vs <? min then mret None
  else
    err ← advanceVotingRound;
    match err with
    | Some e => mret (Some e)
    | None =>
      emit (LogInfo "Shifting voting round due to minority precommit");;
      let maj := ByzantineMajority (AvailablePower vs) in
      let maxPow :=
        default 0 (gomap.get (PrecommitBlockPower vs) (MostVotedPrecommitHash vs)) in
      if maj <=? maxPow then panic "TODO: handle a majority precommit for NextRound"
      else
        (if min <=? maxPow
         then s' ← getS; checkMissingPBs (PrecommitProofs (RV (VRV (Voting s'))))
         else mret tt);;
        mret None
    end.

Definition checkPrevoteViewShift (vID : ViewID) : K (option string) :=
  match vID with
  | ViewIDNextRound =>
    s ← getS;
    let vrv := VRV (NextRound s) in
    let vs := VoteSummaryOf (RV vrv) in
    let min := ByzantineMinority (AvailablePower vs) in
    if TotalPrevotePower vs <? min then mret None
    else
      err ← advanceVotingRound;
      match err with
      | Some e => mret (Some e)
      | None =>
        emit (LogInfo "Shifted voting round due to minority prevote");;
        (if min <=? default 0 (gomap.get (PrevoteBlockPower vs) (MostVotedPrevoteHash vs))
         then s' ← getS; checkMissingPBs (PrevoteProofs (RV (VRV (Voting s'))))
         else mret tt);;
        mret None
      end
  | _ => panic "BUG: unhandled view ID in checkPrecommitViewShift"
  end.

(** *** addPB (kernel.go, line 300) *)

Definition dropMsg : string :=
  "Dropping proposed block that did not match a view (may have been received immediately before a view shift)".

(** One iteration of the backfill loop, on the committing view's
    precommit proofs: [None] is the panic on an unknown block. *)
Definition backfillStep (pubKeyHash : string)
    (acc : gmap string Proof * bool) (e : string * list SparseSignature)
  : option (gmap string Proof * bool) :=
  match acc.1 !! e.1 with
  | None => None
  | Some target =>
    let laterSparseCommit := {| SSPPubKeyHash := pubKeyHash; SSPSignatures := e.2 |} in
    let mergeRes := MergeSparse target laterSparseCommit in
    Some (<[e.1 := mergeRes.1]> acc.1, acc.2 || mergeRes.2)
  end.

Fixpoint backfillLoop (pubKeyHash : string) (acc : gmap string Proof * bool)
    (es : list (string * list SparseSignature)) : option (gmap string Proof * bool) :=
  match es with
  | [] => Some acc
  | e :: rest =>
    match backfillStep pubKeyHash acc e with
    | None => None
    | Some acc' => backfillLoop pubKeyHash acc' rest
    end
  end.

Definition backfill (pb : ProposedBlock) : K unit :=
  s ← getS;
  let backfillVRV := VRV (Committing s) in
  let prevCommit := PrevCommitProof (PBBlock pb) in
  let commitProofs := gomap.range (rangeOrder k) (Proofs prevCommit) in
  match backfillLoop (CPPubKeyHash prevCommit)
          (gomap.entries (PrecommitProofs (RV backfillVRV)), false) commitProofs with
  | None => panic "TODO: backfill unknown block precommit"
  | Some (merged, mergedAny) =>
    (* A nil map has no entry to merge into; a merge stores into a non-nil map. *)
    let proofs :=
      match commitProofs with
      | [] => PrecommitProofs (RV backfillVRV)
      | _ => Some merged
      end in
    let committing :=
      withVRV (Committing s) (withRV backfillVRV (setPrecommitProofs (RV backfillVRV) proofs)) in
    putS (setCommitting s committing);;
    when mergedAny (
      let h := u64 (BHeight (PBBlock pb) - 1) in
      emit (OverwritePrecommitProofs h (CPRound prevCommit) proofs);;
      when (OverwritePrecommitProofsFails k h (CPRound prevCommit) proofs)
           (emit (LogWarn "Failed to save backfilled commit info to round store; this may cause issues upon restart"));;
      putS (setCommitting s (UpdateOutgoing committing)))
  end.

Definition sameSignature (pb have : ProposedBlock) : bool :=
  bool_decide (Signature have = Signature pb).

Definition addPB (pb : ProposedBlock) : K unit :=
  s ← getS;
  let hash := Hash (PBBlock pb) in
  match InFlightFetchPBs s !! hash with
  | Some cancel =>
    emit (CallCancel cancel);;
    putS (setInFlightFetchPBs s (delete hash (InFlightFetchPBs s)))
  | None => mret tt
  end;;
  s ← getS;
  let fv := FindView s (BHeight (PBBlock pb)) (PBRound pb) "(*Kernel).addPB" in
  match fvView fv with
  | None => emit (LogInfo dropMsg)
  | Some ref =>
    let view := viewAt s ref in
    let vrv := VRV view in
    if existsb (sameSignature pb) (ProposedBlocks (RV vrv)) then mret tt
    else
      let vrv' := withRV vrv (setProposedBlocks (RV vrv) (ProposedBlocks (RV vrv) ++ [pb])) in
      emit (SaveProposedBlock pb);;
      when (SaveProposedBlockFails k pb)
           (emit (LogWarn "Failed to save proposed block to round store; this may cause issues upon restart"));;
      putS (setViewAt s ref (UpdateOutgoing (withVRV view vrv')));;
      let viewID := fvID fv in
      if bool_decide (viewID ≠ ViewIDVoting) && bool_decide (viewID ≠ ViewIDNextRound)
      then mret tt
      else
        backfill pb;;
        if bool_decide (viewID = ViewIDVoting) then
          s' ← getS;
          if bool_decide (is_Some (gomap.get (PrecommitProofs (RV (VRV (Voting s')))) hash))
          then _ ← checkVotingPrecommitViewShift; mret tt
          else mret tt
        else mret tt
  end.

(** *** addPrevote and addPrecommit (kernel.go, lines 418 and 521) *)

(** The state of the loop over the updates of a request: the proof
    map and the per-hash versions of the view being updated, and the
    two flags. *)
Record voteLoop := {
  lProofs : GoMap Proof;
  lVersions : GoMap Z;
  allAccepted : bool;
  anyAdded : bool;
}.

(** One iteration; [None] is the panic of storing a proof into a nil
    map.  The body is the same in addPrevote and addPrecommit, on the
    prevote and on the precommit fields of the view. *)
Definition applyUpdate (acc : voteLoop) (e : string * VoteUpdate) : option voteLoop :=
  let blockHash := e.1 in
  let u := e.2 in
  let cur := default 0 (gomap.get (lVersions acc) blockHash) in
  if bool_decide (PrevVersion u = cur) then
    match gomap.set (lProofs acc) blockHash (UProof u) with
    | None => None
    | Some proofs =>
      Some {| lProofs := proofs;
              lVersions := Some (<[blockHash := u32 (cur + 1)]> (gomap.entries (lVersions acc)));
              allAccepted := allAccepted acc;
              anyAdded := true |}
    end
  else
    Some {| lProofs := lProofs acc;
            lVersions := lVersions acc;
            allAccepted := false;
            anyAdded := anyAdded acc |}.

Fixpoint applyUpdates (acc : voteLoop) (es : list (string * VoteUpdate))
  : option voteLoop :=
  match es with
  | [] => Some acc
  | e :: rest =>
    match applyUpdate acc e with
    | None => None
    | Some acc' => applyUpdates acc' rest
    end
  end.

Definition savePrevotesFailedMsg : string :=
  "Failed to save prevotes to round store; this may cause issues upon restart".
Definition savePrecommitsFailedMsg : string :=
  "Failed to save precommits to round store; this may cause issues upon restart".

Definition respond (ch : option Chan) (res : AddVoteResult) : K unit :=
  match ch with
  | Some c => emit (Respond c res)
  | None => mret tt
  end.

Definition resultOf (l : voteLoop) : AddVoteResult :=
  if allAccepted l then AddVoteAccepted else AddVoteConflict.

Definition knownViewID (vID : ViewID) : bool :=
  bool_decide (vID = ViewIDCommitting) || bool_decide (vID = ViewIDVoting)
  || bool_decide (vID = ViewIDNextRound).

(** addPrevote up to and including the reply: lookup, the loop over
    the updates, bookkeeping, response.  The result is the view
    pointer, the view ID and the reply when the request reached a
    found view, [None] when it was answered out of date. *)
Definition ingestPrevotes (req : AddPrevoteRequest)
  : K (option (ViewRef * ViewID * AddVoteResult)) :=
  s ← getS;
  let fv := FindView s (PvH req) (PvR req) "(*Kernel).addPrevote" in
  match fvStatus fv with
  | ViewBeforeCommitting | ViewOrphaned =>
    respond (PvResponse req) AddVoteOutOfDate;; mret None
  | ViewWrongCommit =>
    emit (LogWarn "TODO: add new addVoteResult for viewWrongCommit");;
    respond (PvResponse req) AddVoteOutOfDate;; mret None
  | ViewFutureNotYetTracked =>
    panic "TODO: handle unexpected view status when looking up view to add prevote"
  | ViewFound =>
    if negb (knownViewID (fvID fv)) then panic "TODO: handle adding prevotes to view"
    else
      match fvView fv with
      | None => panic nilDeref
      | Some ref =>
        let view := viewAt s ref in
        let vrv := VRV view in
        let init :=
          {| lProofs := PrevoteProofs (RV vrv);
             lVersions := PrevoteBlockVersions vrv;
             allAccepted := true; anyAdded := false |} in
        match applyUpdates init (gomap.range (rangeOrder k) (PrevoteUpdates req)) with
        | None => panic nilMapWrite
        | Some l =>
          let vrv1 :=
            setPrevoteBlockVersions
              (withRV vrv (setPrevoteProofs (RV vrv) (lProofs l))) (lVersions l) in
          (if anyAdded l then
             let vrv2 :=
               withRV vrv1
                 (setVoteSummary (RV vrv1)
                    (SetPrevotePowers (VoteSummaryOf (RV vrv1))
                       (RVValidators (RV vrv1)) (PrevoteProofs (RV vrv1)))) in
             putS (setViewAt s ref (UpdateOutgoing (withVRV view vrv2)));;
             emit (OverwritePrevoteProofs (PvH req) (PvR req) (PrevoteProofs (RV vrv2)));;
             when (OverwritePrevoteProofsFails k (PvH req) (PvR req) (PrevoteProofs (RV vrv2)))
                  (emit (LogWarn savePrevotesFailedMsg))
           else putS (setViewAt s ref (withVRV view vrv1)));;
          respond (PvResponse req) (resultOf l);;
          mret (Some (ref, fvID fv, resultOf l))
        end
      end
  end.

(** The rest of addPrevote: the fetch of missing proposed blocks, and
    the view shift. *)
Definition afterPrevotes (r : option (ViewRef * ViewID * AddVoteResult)) : K unit :=
  match r with
  | None => mret tt
  | Some (ref, vID, res) =>
    s ← getS;
    checkMissingPBs (PrevoteProofs (RV (VRV (viewAt s ref))));;
    if bool_decide (res = AddVoteAccepted) && bool_decide (vID = ViewIDNextRound) then
      err ← checkPrevoteViewShift vID;
      match err with
      | Some _ =>
        emit (LogWarn "Error while checking view shift for prevotes into next round; kernel may be in bad state")
      | None => mret tt
      end
    else mret tt
  end.

Definition addPrevote (req : AddPrevoteRequest) : K unit :=
  r ← ingestPrevotes req;
  afterPrevotes r.

Definition ingestPrecommits (req : AddPrecommitRequest)
  : K (option (ViewRef * ViewID * AddVoteResult)) :=
  s ← getS;
  let fv := FindView s (PcH req) (PcR req) "(*Kernel).addPrecommit" in
  match fvStatus fv with
  | ViewBeforeCommitting | ViewOrphaned =>
    respond (PcResponse req) AddVoteOutOfDate;; mret None
  | ViewWrongCommit =>
    emit (LogWarn "TODO: add new addVoteResult for viewWrongCommit");;
    respond (PcResponse req) AddVoteOutOfDate;; mret None
  | ViewFutureNotYetTracked =>
    panic "TODO: handle unexpected view status when looking up view to add precommit"
  | ViewFound =>
    if negb (knownViewID (fvID fv)) then panic "TODO: handle adding precommits to view"
    else
      match fvView fv with
      | None => panic nilDeref
      | Some ref =>
        let view := viewAt s ref in
        let vrv := VRV view in
        let init :=
          {| lProofs := PrecommitProofs (RV vrv);
             lVersions := PrecommitBlockVersions vrv;
             allAccepted := true; anyAdded := false |} in
        match applyUpdates init (gomap.range (rangeOrder k) (PrecommitUpdates req)) with
        | None => panic nilMapWrite
        | Some l =>
          let vrv1 :=
            setPrecommitBlockVersions
              (withRV vrv (setPrecommitProofs (RV vrv) (lProofs l))) (lVersions l) in
          (if anyAdded l then
             let vrv2 :=
               withRV vrv1
                 (setVoteSummary (RV vrv1)
                    (SetPrecommitPowers (VoteSummaryOf (RV vrv1))
                       (RVValidators (RV vrv1)) (PrecommitProofs (RV vrv1)))) in
             putS (setViewAt s ref (UpdateOutgoing (withVRV view vrv2)));;
             emit (OverwritePrecommitProofs (PcH req) (PcR req) (PrecommitProofs (RV vrv2)));;
             when (OverwritePrecommitProofsFails k (PcH req) (PcR req) (PrecommitProofs (RV vrv2)))
                  (emit (LogWarn savePrecommitsFailedMsg))
           else putS (setViewAt s ref (withVRV view vrv1)));;
          respond (PcResponse req) (resultOf l);;
          mret (Some (ref, fvID fv, resultOf l))
        end
      end
  end.

Definition logShiftError (msg : string) (err : option string) : K unit :=
  match err with
  | Some _ => emit (LogWarn msg)
  | None => mret tt
  end.

(** The rest of addPrecommit. *)
Definition afterPrecommits (r : option (ViewRef * ViewID * AddVoteResult)) : K unit :=
  match r with
  | None => mret tt
  | Some (ref, vID, res) =>
    s ← getS;
    checkMissingPBs (PrecommitProofs (RV (VRV (viewAt s ref))));;
    if negb (bool_decide (res = AddVoteAccepted)) then mret tt
    else
      match vID with
      | ViewIDVoting =>
        err ← checkVotingPrecommitViewShift;
        logShiftError "Error while checking view shift for precommit in voting round; kernel may be in bad state" err
      | ViewIDNextRound =>
        err ← checkNextRoundPrecommitViewShift;
        logShiftError "Error while checking view shift for precommit in next round; kernel may be in bad state" err
      | ViewIDCommitting => mret tt
      | ViewIDOther => panic "BUG: unhandled view ID in addPrecommit"
      end
  end.

Definition addPrecommit (req : AddPrecommitRequest) : K unit :=
  r ← ingestPrecommits req;
  afterPrecommits r.

(** *** handleStateMachineAction (kernel.go, line 1475) *)

Definition noActionMsg : string := "BUG: no state machine action present".
Definition droppedVoteMsg : string :=
  "Dropping state machine vote due to not matching voting or committing view".
Definition multiplePBMsg : string :=
  "BUG: multiple state machine actions present when exactly one required: pb=true".
Definition multipleVotesMsg : string :=
  "BUG: multiple state machine actions present when exactly one required: pb=false prevote=true precommit=true".

Definition hasPB (act : StateMachineRoundAction) : bool :=
  bool_decide (Hash (PBBlock (ActPB act)) ≠ "").
Definition hasPrevote (act : StateMachineRoundAction) : bool :=
  bool_decide (SSig (ActPrevote act) ≠ []).
Definition hasPrecommit (act : StateMachineRoundAction) : bool :=
  bool_decide (SSig (ActPrecommit act) ≠ []).

(** The proof a vote of the state machine is merged into: a clone of
    the existing one, or a new empty proof over the voting
    validators. *)
Definition startVote (s : kState) (existingVote : option Proof) (content : Bytes)
  : option Proof :=
  match existingVote with
  | None =>
    cmspNew k content
      (ValidatorsToPubKeys (RVValidators (RV (VRV (Voting s)))))
      (ValidatorPubKeyHash (RV (VRV (Voting s))))
  | Some e => Some (ProofClone e)
  end.

Definition handleStateMachineAction (act : StateMachineRoundAction) : K unit :=
  if negb (hasPB act || hasPrevote act || hasPrecommit act) then panic noActionMsg
  else if hasPB act then
    if hasPrevote act || hasPrecommit act then panic multiplePBMsg
    else addPB (ActPB act)
  else
    s ← getS;
    let h := smH (StateMachineView s) in
    let r := smR (StateMachineView s) in
    let fv := FindView s h r "(*Kernel).handleStateMachineAction" in
    match fvView fv with
    | None =>
      emit (LogInfo droppedVoteMsg)
    | Some ref =>
      if bool_decide (fvID fv ≠ ViewIDVoting) && bool_decide (fvID fv ≠ ViewIDCommitting)
      then
        emit (LogInfo droppedVoteMsg)
      else
        let v := viewAt s ref in
        if hasPrevote act then
          if hasPrecommit act then panic multipleVotesMsg
          else
            let hash := TargetHash (ActPrevote act) in
            match startVote s (gomap.get (PrevoteProofs (RV (VRV v))) hash)
                    (SignContent (ActPrevote act)) with
            | None =>
              emit (LogError "Failed to build empty prevote proof for prevote from state machine")
            | Some updatedVote =>
              match AddSignature updatedVote (SSig (ActPrevote act))
                      (smPubKey (StateMachineView s)) with
              | None =>
                emit (LogError "Failed to add prevote signature from state machine")
              | Some updatedVote' =>
                addPrevote
                  {| PvH := h; PvR := r;
                     PrevoteUpdates :=
                       Some {[ hash :=
                         {| UProof := updatedVote';
                            PrevVersion :=
                              default 0 (gomap.get (PrevoteBlockVersions (VRV v)) hash) |} ]};
                     PvResponse := None |}
              end
            end
        else
          let hash := TargetHash (ActPrecommit act) in
          match startVote s (gomap.get (PrecommitProofs (RV (VRV v))) hash)
                  (SignContent (ActPrecommit act)) with
          | None =>
            emit (LogError "Failed to build empty precommit proof for precommit from state machine")
          | Some updatedVote =>
            match AddSignature updatedVote (SSig (ActPrecommit act))
                    (smPubKey (StateMachineView s)) with
            | None =>
              emit (LogError "Failed to add precommit signature from state machine")
            | Some updatedVote' =>
              addPrecommit
                {| PcH := h; PcR := r;
                   PrecommitUpdates :=
                     Some {[ hash :=
                       {| UProof := updatedVote';
                          PrevVersion :=
                            default 0 (gomap.get (PrecommitBlockVersions (VRV v)) hash) |} ]};
                   PcResponse := None |}
            end
          end
    end.

(** *** Vocabulary of the properties *)

(** The two effects of an attempt to fetch the block [h]: the request
    sent, or the warning that the channel is full. *)
Definition sendEvent (height : Z) (h : string) : Event :=
  SendFetchRequest {| cfHeight := height; cfHash := h |} height h.

Definition blockedEvent (h : string) : Event :=
  Log Warn blockedMsg [("missing_hash", h)].

Definition isFetchEvent (e : Event) : Prop :=
  match e with
  | SendFetchRequest _ _ _ => True
  | Log Warn msg _ => msg = blockedMsg
  | _ => False
  end.

(** Everything of the kernel state but the in-flight fetches. *)
Definition sameViews (s s' : kState) : Prop :=
  Committing s' = Committing s
  ∧ Voting s' = Voting s
  ∧ NextRound s' = NextRound s
  ∧ CommittingBlock s' = CommittingBlock s
  ∧ NilVotedRound s' = NilVotedRound s
  ∧ StateMachineView s' = StateMachineView s.

(** [w'] differs from [w] by fetch orchestration only. *)
Definition fetchOnly (w w' : World) : Prop :=
  sameViews (state w) (state w')
  ∧ ∃ t, trace w' = trace w ++ t ∧ Forall isFetchEvent t.

(** The panics of the check of handleStateMachineAction that a round
    action holds exactly one of a proposed block, a prevote and a
    precommit. *)
Definition checkPanics : list string :=
  [noActionMsg; multiplePBMsg; multipleVotesMsg].

(** [m] never panics with one of [msgs]. *)
Definition avoids {A} (msgs : list string) (m : K A) : Prop :=
  ∀ w msg, m w = Panic msg → msg ∉ msgs.

(** The view lookup of handleStateMachineAction found the voting or
    the committing view. *)
Definition votingOrCommitting (fv : FindViewResult) : bool :=
  bool_decide (is_Some (fvView fv))
  && (bool_decide (fvID fv = ViewIDVoting) || bool_decide (fvID fv = ViewIDCommitting)).

(** What is sent on the response channel of a request, if it has one. *)
Definition replyOn (ch : option Chan) (res : AddVoteResult) : list Event :=
  match ch with
  | Some c => [Respond c res]
  | None => []
  end.

(** The in-flight fetches after requests for [hs] were sent. *)
Definition recordFetches (height : Z) (m : gmap string CancelFunc) (hs : list string)
  : gmap string CancelFunc :=
  foldl (λ m h, <[h := {| cfHeight := height; cfHash := h |}]> m) m hs.

(** A vote update whose previous version is the current per-hash
    version [versions[h]]. *)
Definition current (versions : GoMap Z) (h : string) (u : VoteUpdate) : Prop :=
  PrevVersion u = default 0 (gomap.get versions h).

#[global] Instance current_dec versions h u : Decision (current versions h u).
Proof. unfold current. apply _. Defined.

(** The effect of the updates of a request on the proofs and the
    per-hash versions of a view: an update that is current is stored
    and the version of its hash goes up by one; every other hash keeps
    its proof and its version. *)
Definition installed (updates : GoMap VoteUpdate)
    (proofs proofs' : GoMap Proof) (versions versions' : GoMap Z) : Prop :=
  ∀ h,
    match gomap.get updates h with
    | Some u =>
      if decide (current versions h u)
      then gomap.get proofs' h = Some (UProof u)
           ∧ gomap.get versions' h
             = Some (u32 (default 0 (gomap.get versions h) + 1))
      else gomap.get proofs' h = gomap.get proofs h
           ∧ gomap.get versions' h = gomap.get versions h
    | None =>
      gomap.get proofs' h = gomap.get proofs h
      ∧ gomap.get versions' h = gomap.get versions h
    end.

Definition allCurrent (updates : GoMap VoteUpdate) (versions : GoMap Z) : Prop :=
  ∀ h u, gomap.get updates h = Some u → current versions h u.

Definition anyCurrent (updates : GoMap VoteUpdate) (versions : GoMap Z) : Prop :=
  ∃ h u, gomap.get updates h = Some u ∧ current versions h u.

(** The bookkeeping of addPrevote and of addPrecommit after an update
    was installed: the vote summary is recomputed before the outgoing
    copy is refreshed. *)
Definition withPrevotePowers (vrv : VersionedRoundView Proof) : VersionedRoundView Proof :=
  withRV vrv
    (setVoteSummary (RV vrv)
       (SetPrevotePowers (VoteSummaryOf (RV vrv)) (RVValidators (RV vrv))
          (PrevoteProofs (RV vrv)))).

Definition withPrecommitPowers (vrv : VersionedRoundView Proof) : VersionedRoundView Proof :=
  withRV vrv
    (setVoteSummary (RV vrv)
       (SetPrecommitPowers (VoteSummaryOf (RV vrv)) (RVValidators (RV vrv))
          (PrecommitProofs (RV vrv)))).

End Kernel.

(** *** Vocabulary of the further properties *)

Section Vocab.
Context {Proof : Type} {collab : Collaborators Proof}.
Variable newVoteDistribution : GoMap Proof → list Validator → voteDistribution.
Variable k : @Kernel Proof.





(** An event that neither cancels nor requests a fetch. *)
Definition quietEvent (e : @Event Proof) : Prop :=
  match e with
  | CallCancel _ | SendFetchRequest _ _ _ => False
  | _ => True
  end.

(** [m] keeps the invariant [I] of the kernel state and the room of the
    fetch channel, and its events all satisfy [E]. *)
Definition keeps {A} (I : @kState Proof → Prop) (E : @Event Proof → Prop) (m : @K Proof A)
  : Prop :=
  ∀ w a w', I (state w) → m w = Ok (a, w') →
    I (state w') ∧ fetchRoom w' = fetchRoom w
    ∧ ∃ t, trace w' = trace w ++ t ∧ Forall E t.


(** What addPB starts with: the cancel function of an outstanding fetch
    of the block is called, and the fetch forgotten. *)
Definition cancelFetch (s : @kState Proof) (hash : string) : list (@Event Proof) :=
  match InFlightFetchPBs s !! hash with
  | Some cancel => [CallCancel cancel]
  | None => []
  end.

Definition forgetFetch (s : @kState Proof) (hash : string) : @kState Proof :=
  setInFlightFetchPBs s (delete hash (InFlightFetchPBs s)).

Definition saveFailedMsg : string :=
  "Failed to save proposed block to round store; this may cause issues upon restart".

(** The view after a proposed block was appended to it. *)
Definition withProposedBlock (view : @View Proof) (pb : ProposedBlock) : @View Proof :=
  UpdateOutgoing
    (withVRV view
       (withRV (VRV view)
          (setProposedBlocks (RV (VRV view)) (ProposedBlocks (RV (VRV view)) ++ [pb])))).


Definition backfillPanic : string := "TODO: backfill unknown block precommit".
Definition backfillFailedMsg : string :=
  "Failed to save backfilled commit info to round store; this may cause issues upon restart".

(** The precommit proof of the committing view for [h] after the
    signatures a later block carries for [h] were merged into it. *)
Definition mergedProof (commit : CommitProof) (old : GoMap Proof) (h : string)
  : option Proof :=
  match gomap.get (Proofs commit) h, gomap.get old h with
  | Some sigs, Some target =>
    Some (MergeSparse target
            {| SSPPubKeyHash := CPPubKeyHash commit; SSPSignatures := sigs |}).1
  | _, o => o
  end.

(** Some merge of the signatures of [commit] increased the signatures
    of a proof of [old]. *)
Definition increases (commit : CommitProof) (old : GoMap Proof) : Prop :=
  ∃ h sigs target,
    gomap.get (Proofs commit) h = Some sigs ∧ gomap.get old h = Some target
    ∧ (MergeSparse target
         {| SSPPubKeyHash := CPPubKeyHash commit; SSPSignatures := sigs |}).2 = true.


(** The in-flight fetches are [m]. *)
Definition inFlightIs (m : gmap string CancelFunc) (s : @kState Proof) : Prop :=
  InFlightFetchPBs s = m.

Definition wrongCommitMsg : string := "TODO: add new addVoteResult for viewWrongCommit".
Definition untrackedPrevotePanic : string :=
  "TODO: handle unexpected view status when looking up view to add prevote".
Definition untrackedPrecommitPanic : string :=
  "TODO: handle unexpected view status when looking up view to add precommit".
Definition nextRoundMajorityPanic : string :=
  "TODO: handle a majority precommit for NextRound".

(** The request the kernel builds for a vote of the state machine. *)
Definition ownUpdate (p : Proof) (versions : GoMap Z) (hash : string)
  : GoMap (@VoteUpdate Proof) :=
  Some {[ hash := {| UProof := p; PrevVersion := default 0 (gomap.get versions hash) |} ]}.

End Vocab.

(** *** The read-only requests (kernel.go, lines 1206 to 1420) *)

Section Responders.
Context {Proof : Type} {collab : Collaborators Proof}.

(** [RVFieldFlags]: the bit set of the groups of fields a snapshot
    asks for.  Its constants are declared outside the sources at hand;
    copySnapshotView reads a value [fields] only through the five tests
    [(fields & RVValidators) > 0], ..., [(fields & RVVoteSummary) > 0],
    which are the five fields here. *)
Record RVFieldFlags := {
  WantValidators : bool;
  WantProposedBlocks : bool;
  WantPrevotes : bool;
  WantPrecommits : bool;
  WantVoteSummary : bool;
}.

(** [for key, v := range src { dst[key] = f(v) }], over the entries in
    visiting order; [None] is the write to a nil map. *)
Fixpoint storeAll {V W} (f : V → W) (dst : GoMap W) (es : list (string * V))
  : option (GoMap W) :=
  match es with
  | [] => Some dst
  | e :: rest =>
    match gomap.set dst e.1 (f e.2) with
    | None => None
    | Some dst' => storeAll f dst' rest
    end
  end.

(** The proofs of one vote kind: the destination is cleared, and when
    the votes are asked for, made if it is nil and filled with clones. *)
Definition copyProofs (order : list string) (src dst : GoMap Proof) (want : bool)
  : option (GoMap Proof) :=
  let dst := gomap.clear dst in
  if want then
    let dst := match dst with
               | None => Some ∅
               | Some _ => dst
               end in
    storeAll ProofClone dst (gomap.range order src)
  else Some dst.

(** The per-hash versions of one vote kind: a nil destination is made
    only when the source has an entry. *)
Definition copyVersions (order : list string) (src dst : GoMap Z) (want : bool)
  : option (GoMap Z) :=
  let dst := gomap.clear dst in
  if want then
    let dst := match dst with
               | None => if (0 <? gomap.len src)%nat then Some ∅ else None
               | Some _ => dst
               end in
    storeAll (λ version, version) dst (gomap.range order src)
  else Some dst.

(** The block powers of a vote summary: cloned into a nil destination,
    stored entry by entry into another. *)
Definition copyPowers (order : list string) (src dst : GoMap Z) : option (GoMap Z) :=
  match dst with
  | None => Some (gomap.clone src)
  | Some _ => storeAll (λ v, v) dst (gomap.range order src)
  end.

Definition copyVoteSummary (order : list string) (src dst : VoteSummary) (want : bool)
  : option VoteSummary :=
  let dst := VoteSummaryReset dst in
  if want then
    prevotePower ← copyPowers order (PrevoteBlockPower src) (PrevoteBlockPower dst);
    precommitPower ← copyPowers order (PrecommitBlockPower src) (PrecommitBlockPower dst);
    Some {| AvailablePower := AvailablePower src;
            TotalPrevotePower := TotalPrevotePower src;
            TotalPrecommitPower := TotalPrecommitPower src;
            PrevoteBlockPower := prevotePower;
            PrecommitBlockPower := precommitPower;
            MostVotedPrevoteHash := MostVotedPrevoteHash src;
            MostVotedPrecommitHash := MostVotedPrecommitHash src |}
  else Some dst.

(** copySnapshotView (kernel.go, line 1220): the new value of [*dst]. *)
Definition copySnapshotView (k : @Kernel Proof) (src dst : VersionedRoundView Proof)
    (fields : RVFieldFlags) : Res (VersionedRoundView Proof) :=
  let order := rangeOrder k in
  let copied :=
    prevotes ← copyProofs order (PrevoteProofs (RV src)) (PrevoteProofs (RV dst))
                 (WantPrevotes fields);
    prevoteVersions ← copyVersions order (PrevoteBlockVersions src)
                        (PrevoteBlockVersions dst) (WantPrevotes fields);
    precommits ← copyProofs order (PrecommitProofs (RV src)) (PrecommitProofs (RV dst))
                   (WantPrecommits fields);
    precommitVersions ← copyVersions order (PrecommitBlockVersions src)
                          (PrecommitBlockVersions dst) (WantPrecommits fields);
    summary ← copyVoteSummary order (VoteSummaryOf (RV src)) (VoteSummaryOf (RV dst))
                (WantVoteSummary fields);
    Some
      {| RV :=
           {| Height := Height (RV src);
              Round := Round (RV src);
              RVValidators :=
                if WantValidators fields then RVValidators (RV src) else [];
              ValidatorPubKeyHash :=
                if WantValidators fields then ValidatorPubKeyHash (RV src) else "";
              ValidatorVotePowerHash :=
                if WantValidators fields then ValidatorVotePowerHash (RV src) else "";
              ProposedBlocks :=
                if WantProposedBlocks fields then ProposedBlocks (RV src) else [];
              PrevoteProofs := prevotes;
              PrecommitProofs := precommits;
              VoteSummaryOf := summary |};
         Version := Version src;
         PrevoteVersion := PrevoteVersion dst;
         PrecommitVersion := PrecommitVersion dst;
         PrevoteBlockVersions := prevoteVersions;
         PrecommitBlockVersions := precommitVersions |} in
  match copied with
  | Some dst' => Ok dst'
  | None => Panic nilMapWrite
  end.

(** sendSnapshotResponse (kernel.go, line 1207).  The request holds
    pointers to the views to fill, nil for a view that is not asked
    for; the result is what they point to when [Ready] is closed. *)
Record Snapshot := {
  SnapVoting : option (VersionedRoundView Proof);
  SnapCommitting : option (VersionedRoundView Proof);
}.

Record SnapshotRequest := {
  ReqSnapshot : Snapshot;
  ReqFields : RVFieldFlags;
}.

Definition copyInto (k : @Kernel Proof) (src : VersionedRoundView Proof)
    (dst : option (VersionedRoundView Proof)) (fields : RVFieldFlags)
  : Res (option (VersionedRoundView Proof)) :=
  match dst with
  | None => Ok None
  | Some d =>
    match copySnapshotView k src d fields with
    | Ok d' => Ok (Some d')
    | Panic msg => Panic msg
    end
  end.

Definition sendSnapshotResponse (k : @Kernel Proof) (s : @kState Proof)
    (req : SnapshotRequest) : Res Snapshot :=
  match copyInto k (VRV (Voting s)) (SnapVoting (ReqSnapshot req)) (ReqFields req) with
  | Panic msg => Panic msg
  | Ok voting =>
    match copyInto k (VRV (Committing s)) (SnapCommitting (ReqSnapshot req))
            (ReqFields req) with
    | Panic msg => Panic msg
    | Ok committing => Ok {| SnapVoting := voting; SnapCommitting := committing |}
    end
  end.

(** sendViewLookupResponse (kernel.go, line 1307): what [*req.VRV]
    holds afterwards, and the response sent on [req.Resp]. *)
Record ViewLookupRequest := {
  VLH : Z;
  VLR : Z;
  VLVRV : option (VersionedRoundView Proof);
  VLFields : RVFieldFlags;
  VLReason : string;
}.

Record ViewLookupResponse := {
  RespID : ViewID;
  RespStatus : ViewLookupStatus;
}.

Definition emptyReasonPanic : string := "BUG: ViewLookupRequest.Reason must not be empty".

Definition sendViewLookupResponse
    (FindView : @kState Proof → Z → Z → string → FindViewResult)
    (k : @Kernel Proof) (s : @kState Proof) (req : ViewLookupRequest)
  : Res (option (VersionedRoundView Proof) * ViewLookupResponse) :=
  if bool_decide (VLReason req = "") then Panic emptyReasonPanic
  else
    let fv := FindView s (VLH req) (VLR req) (VLReason req) in
    let resp := {| RespID := fvID fv; RespStatus := fvStatus fv |} in
    match fvView fv with
    | None => Ok (VLVRV req, resp)
    | Some ref =>
      match VLVRV req with
      | None => Panic nilDeref
      | Some dst =>
        match copySnapshotView k (VRV (viewAt s ref)) dst (VLFields req) with
        | Ok dst' => Ok (Some dst', resp)
        | Panic msg => Panic msg
        end
      end
    end.

(** The statuses of a proposed-block check.  The declaration is not in
    the sources at hand; kernel.go names these values, [PBCheckInvalid]
    being the zero value of the type. *)
Inductive PBCheckStatus :=
| PBCheckInvalid
| PBCheckAcceptable
| PBCheckAlreadyHaveSignature
| PBCheckSignerUnrecognized
| PBCheckNextHeight
| PBCheckRoundTooOld
| PBCheckRoundTooFarInFuture.

#[global] Instance PBCheckStatus_eq_dec : EqDecision PBCheckStatus.
Proof. solve_decision. Defined.

Record PBCheckResponse := {
  Status : PBCheckStatus;
  RespProposerPubKey : option PubKey;
  VotingRoundView : option (RoundView Proof);
}.

Definition withStatus (resp : PBCheckResponse) (st : PBCheckStatus) : PBCheckResponse :=
  {| Status := st;
     RespProposerPubKey := RespProposerPubKey resp;
     VotingRoundView := VotingRoundView resp |}.

(** [gcrypto.PubKey.Equal] is a method of an interface: a parameter. *)
Variable PubKeyEqual : PubKey → PubKey → bool.

(** setPBCheckStatus (kernel.go, line 1390), on the proposed block of
    the request. *)
Definition setPBCheckStatus (pb : ProposedBlock) (resp : PBCheckResponse)
    (vrv : VersionedRoundView Proof) : PBCheckResponse :=
  let alreadyHaveSignature := existsb (sameSignature pb) (ProposedBlocks (RV vrv)) in
  if alreadyHaveSignature then withStatus resp PBCheckAlreadyHaveSignature
  else
    match find (λ val, PubKeyEqual (ProposerPubKey pb) (ValPubKey val))
               (RVValidators (RV vrv)) with
    | None => withStatus resp PBCheckSignerUnrecognized
    | Some val =>
      {| Status := PBCheckAcceptable;
         RespProposerPubKey := Some (ValPubKey val);
         VotingRoundView := VotingRoundView resp |}
    end.

Definition beyondCommittingPanic : string :=
  "TODO: handle proposed block with round beyond committing round".
Definition beyondVotingPanic : string :=
  "TODO: handle proposed block with round beyond voting round".
Definition undeterminedPanic : string := "BUG: cannot determine PBStatus".

(** sendPBCheckResponse (kernel.go, line 1328): the response sent on
    [req.Resp]. *)
Definition zeroPBCheckResponse : PBCheckResponse :=
  {| Status := PBCheckInvalid; RespProposerPubKey := None; VotingRoundView := None |}.

Definition sendPBCheckResponse (s : @kState Proof) (pb : ProposedBlock)
  : Res PBCheckResponse :=
  let resp := zeroPBCheckResponse in
  let pbHeight := BHeight (PBBlock pb) in
  let pbRound := PBRound pb in
  let votingHeight := Height (RV (VRV (Voting s))) in
  let votingRound := Round (RV (VRV (Voting s))) in
  let committingHeight := Height (RV (VRV (Committing s))) in
  let committingRound := Round (RV (VRV (Committing s))) in
  let checked : Res PBCheckResponse :=
    if pbHeight <? committingHeight then Ok (withStatus resp PBCheckRoundTooOld)
    else if pbHeight =? committingHeight then
      if pbRound <? committingRound then Ok (withStatus resp PBCheckRoundTooOld)
      else if pbRound =? committingRound
      then Ok (setPBCheckStatus pb resp (VRV (Committing s)))
      else Panic beyondCommittingPanic
    else if pbHeight =? votingHeight then
      if pbRound <? votingRound then Ok (withStatus resp PBCheckRoundTooOld)
      else if pbRound =? votingRound
      then Ok (setPBCheckStatus pb resp (VRV (Voting s)))
      else if pbRound =? u32 (votingRound + 1)
      then Ok (setPBCheckStatus pb resp (VRV (NextRound s)))
      else Panic beyondVotingPanic
    else if pbHeight =? u64 (votingHeight + 1) then
      Ok {| Status := PBCheckNextHeight;
            RespProposerPubKey := None;
            VotingRoundView := Some (RoundView_Clone (RV (VRV (Voting s)))) |}
    else Ok (withStatus resp PBCheckRoundTooFarInFuture) in
  match checked with
  | Panic msg => Panic msg
  | Ok resp =>
    if bool_decide (Status resp = PBCheckInvalid) then Panic undeterminedPanic
    else Ok resp
  end.

End Responders.

(** *** The outputs of the main loop (kernel.go, lines 1044 to 1166) *)

Section Outputs.
Context {Proof : Type} {collab : Collaborators Proof}.

(** The channels of the [Kernel] struct the outputs are offered on. *)
Record OutputChannels := {
  votingViewOut : Chan;
  committingViewOut : Chan;
  nextRoundViewOut : Chan;
  gossipOutCh : Chan;
}.

Variable chans : OutputChannels.

(** [viewOutputs]: a nil channel is [None]; its value is then the
    zero value. *)
Record viewOutputs := {
  VotingCh : option Chan;
  VotingVal : VersionedRoundView Proof;
  CommittingCh : option Chan;
  CommittingVal : VersionedRoundView Proof;
  NextRoundCh : option Chan;
  NextRoundVal : VersionedRoundView Proof;
}.

(** The method viewOutputs of the kernel (kernel.go, line 1064). *)
Definition Kernel_viewOutputs (s : @kState Proof) : viewOutputs :=
  let offer (ch : Chan) (o : @OutgoingView Proof) :=
    if negb (HasBeenSent o) then (Some ch, OutVRV o) else (None, zeroVersionedRoundView) in
  let voting := offer (votingViewOut chans) (Outgoing (Voting s)) in
  let committing := offer (committingViewOut chans) (Outgoing (Committing s)) in
  let nextRound := offer (nextRoundViewOut chans) (Outgoing (NextRound s)) in
  {| VotingCh := voting.1; VotingVal := voting.2;
     CommittingCh := committing.1; CommittingVal := committing.2;
     NextRoundCh := nextRound.1; NextRoundVal := nextRound.2 |}.

(** [proof.SignatureBitSet().None()]: whether a proof holds no
    signature.  A method of the proof interface: a parameter. *)
Variable SignatureBitSetNone : Proof → bool.

(** One of the two statements of stripEmptyNilVotes: the method is
    called on [proofs[""]], which is the nil interface when the map has
    no such entry. *)
Definition stripNil (proofs : GoMap Proof) : Res (GoMap Proof) :=
  match gomap.get proofs "" with
  | None => Panic nilDeref
  | Some p => Ok (if SignatureBitSetNone p then gomap.del proofs "" else proofs)
  end.

(** stripEmptyNilVotes (kernel.go, line 1159). *)
Definition stripEmptyNilVotes (vrv : VersionedRoundView Proof)
  : Res (VersionedRoundView Proof) :=
  match stripNil (PrevoteProofs (RV vrv)) with
  | Panic msg => Panic msg
  | Ok prevotes =>
    match stripNil (PrecommitProofs (RV vrv)) with
    | Panic msg => Panic msg
    | Ok precommits =>
      Ok (withRV vrv (setPrecommitProofs (setPrevoteProofs (RV vrv) prevotes) precommits))
    end
  end.

(** [tmelink.NetworkViewUpdate]: four pointers. *)
Record NetworkViewUpdate := {
  NVUVoting : option (VersionedRoundView Proof);
  NVUCommitting : option (VersionedRoundView Proof);
  NVUNextRound : option (VersionedRoundView Proof);
  NVUNilVotedRound : option (VersionedRoundView Proof);
}.

Record gossipStrategyOut := {
  GsCh : option Chan;
  GsVal : NetworkViewUpdate;
}.

(** One of the three blocks of gossipStrategyOutput: the view to
    offer, if it was not sent yet. *)
Definition unsentView (o : @OutgoingView Proof) : Res (option (VersionedRoundView Proof)) :=
  if negb (HasBeenSent o) then
    match stripEmptyNilVotes (VersionedRoundView_Clone (OutVRV o)) with
    | Ok val => Ok (Some val)
    | Panic msg => Panic msg
    end
  else Ok None.

(** gossipStrategyOutput (kernel.go, line 1107). *)
Definition gossipStrategyOutput (s : @kState Proof) : Res gossipStrategyOut :=
  match unsentView (Outgoing (Voting s)) with
  | Panic msg => Panic msg
  | Ok voting =>
    match unsentView (Outgoing (Committing s)) with
    | Panic msg => Panic msg
    | Ok committing =>
      match unsentView (Outgoing (NextRound s)) with
      | Panic msg => Panic msg
      | Ok nextRound =>
        let any :=
          bool_decide (is_Some voting) || bool_decide (is_Some committing)
          || bool_decide (is_Some nextRound) || bool_decide (is_Some (NilVotedRound s)) in
        Ok {| GsCh := if any then Some (gossipOutCh chans) else None;
              GsVal := {| NVUVoting := voting;
                          NVUCommitting := committing;
                          NVUNextRound := nextRound;
                          NVUNilVotedRound := NilVotedRound s |} |}
      end
    end
  end.

(** [view.Outgoing.MarkSent()]. *)
Definition markSent (v : @View Proof) : @View Proof :=
  {| VRV := VRV v; Outgoing := MarkSent (Outgoing v) |}.

(** [gossipStrategyOut.MarkSent] (kernel.go, line 1090). *)
Definition gossipStrategyOut_MarkSent (o : gossipStrategyOut) (s : @kState Proof)
  : @kState Proof :=
  {| Committing :=
       if bool_decide (is_Some (NVUCommitting (GsVal o)))
       then markSent (Committing s) else Committing s;
     Voting :=
       if bool_decide (is_Some (NVUVoting (GsVal o)))
       then markSent (Voting s) else Voting s;
     NextRound :=
       if bool_decide (is_Some (NVUNextRound (GsVal o)))
       then markSent (NextRound s) else NextRound s;
     CommittingBlock := CommittingBlock s;
     NilVotedRound := None;
     InFlightFetchPBs := InFlightFetchPBs s;
     StateMachineView := StateMachineView s |}.

End Outputs.

(** *** handleStateMachineRoundUpdate (kernel.go, line 1422) *)

Section RoundUpdate.
Context {Proof : Type} {collab : Collaborators Proof}.

(** [tmeil.StateMachineRoundActionSet], as far as the kernel reads
    it: the height and round the state machine declares.  Its channels
    are those [stateMachineView.Reset] rebinds and the one the reply is
    sent on. *)
Record StateMachineRoundActionSet := {
  ASH : Z;
  ASR : Z;
}.

(** [tmeil.StateUpdate], the reply sent on [as.StateResponse]: a view,
    or a committed block. *)
Record StateUpdate := {
  SUVRV : VersionedRoundView Proof;
  SUPrevBlockHash : string;
  SUCB : CommittedBlock;
}.

(** Go zero values. *)
Definition zeroCommitProof : CommitProof :=
  {| CPRound := 0; CPPubKeyHash := ""; Proofs := None |}.

Definition zeroBlock : Block :=
  {| Hash := ""; PrevBlockHash := ""; BHeight := 0; PrevCommitProof := zeroCommitProof;
     Validators := []; NextValidators := []; DataID := [] |}.

Definition zeroCommittedBlock : CommittedBlock :=
  {| CBBlock := zeroBlock; CBProof := zeroCommitProof |}.

(** [stateMachineView.Reset] and [MarkFirstSentVersion] are not in the
    sources at hand, and [BlockStore.LoadBlock] is a method of an
    interface ([None] is an error): parameters. *)
Variable smvReset : @stateMachineView Proof → StateMachineRoundActionSet → @stateMachineView Proof.
Variable MarkFirstSentVersion : @stateMachineView Proof → Z → @stateMachineView Proof.
Variable LoadBlock : Z → option CommittedBlock.
Variable FindView : @kState Proof → Z → Z → string → FindViewResult.

Definition setStateMachineView (s : @kState Proof) (v : @stateMachineView Proof)
  : @kState Proof :=
  {| Committing := Committing s; Voting := Voting s; NextRound := NextRound s;
     CommittingBlock := CommittingBlock s; NilVotedRound := NilVotedRound s;
     InFlightFetchPBs := InFlightFetchPBs s;
     StateMachineView := v |}.

Definition loadBlockPanic : string :=
  "failed to load block from block store for state machine".
Definition viewNotFoundPanic : string :=
  "TODO: handle view not found when responding to state machine round update".
Definition unexpectedViewPanic : string :=
  "TODO: handle state machine round update when matched view ID".

(** The result is the reply sent on [as.StateResponse] and the new
    kernel state. *)
Definition handleStateMachineRoundUpdate (s : @kState Proof)
    (actions : StateMachineRoundActionSet) : Res (StateUpdate * @kState Proof) :=
  let s := setStateMachineView s (smvReset (StateMachineView s) actions) in
  let fv := FindView s (ASH actions) (ASR actions)
              "(*Kernel).handleStateMachineRoundUpdate" in
  match fvView fv with
  | None =>
    if bool_decide (fvStatus fv = ViewBeforeCommitting) then
      match LoadBlock (ASH actions) with
      | None => Panic loadBlockPanic
      | Some cb =>
        Ok ({| SUVRV := zeroVersionedRoundView; SUPrevBlockHash := ""; SUCB := cb |}, s)
      end
    else Panic viewNotFoundPanic
  | Some ref =>
    let view := viewAt s ref in
    let reply (prevBlockHash : string) :=
      Ok ({| SUVRV := VRV view; SUPrevBlockHash := prevBlockHash;
             SUCB := zeroCommittedBlock |},
          setStateMachineView s
            (MarkFirstSentVersion (StateMachineView s) (Version (VRV view)))) in
    match fvID fv with
    | ViewIDVoting => reply (Hash (CommittingBlock s))
    | ViewIDCommitting => reply (PrevBlockHash (CommittingBlock s))
    | _ => Panic unexpectedViewPanic
    end
  end.

End RoundUpdate.

(** *** Start-up (kernel.go, lines 102 to 208 and 1629 to 1820) *)

Section Startup.
Context {Proof : Type} {collab : Collaborators Proof}.

(** The errors of the stores that the kernel tells apart at start-up;
    [OtherError] stands for every other error, and for the errors the
    kernel wraps. *)
Inductive StoreError :=
| ErrStoreUninitialized
| RoundUnknownError (WantHeight WantRound : Z)
| PubKeysAlreadyExistError
| VotePowersAlreadyExistError
| OtherError (msg : string).

#[global] Instance StoreError_eq_dec : EqDecision StoreError.
Proof. solve_decision. Defined.

(** What [RoundStore.LoadRoundState] returns besides its error. *)
Record RoundState := {
  RSProposedBlocks : list ProposedBlock;
  RSPrevotes : GoMap Proof;
  RSPrecommits : GoMap Proof;
}.

(** [NetworkHeightRound], the mirror store's pointer. *)
Record NetworkHeightRound := {
  VotingHeight : Z;
  VotingRound : Z;
  CommittingHeight : Z;
  CommittingRound : Z;
}.

(** The stores the kernel calls at start-up.  They are interfaces: a
    call is a function of the state of the stores and of its
    arguments, giving the results and the new state of the stores.
    [NetworkHeightRound] is the call of the mirror store composed with
    [NetworkHeightRoundFromStore], and [SaveVotePowers] that of the
    validator store composed with [tmconsensus.ValidatorsToVotePowers],
    neither of which is in the sources at hand. *)
Record Stores (S : Type) := {
  NetworkHeightRoundOf : S → NetworkHeightRound * option StoreError * S;
  SetNetworkHeightRound : S → NetworkHeightRound → option StoreError * S;
  LoadRoundState : S → Z → Z → RoundState * option StoreError * S;
  SavePubKeys : S → list PubKey → string * option StoreError * S;
  SaveVotePowers : S → list Validator → string * option StoreError * S;
}.
Arguments NetworkHeightRoundOf {S}.
Arguments SetNetworkHeightRound {S}.
Arguments LoadRoundState {S}.
Arguments SavePubKeys {S}.
Arguments SaveVotePowers {S}.

Context {S : Type}.
Variable newVoteDistribution : GoMap Proof → list Validator → voteDistribution.
Variable k : @Kernel Proof.
(** The fields [initialVals] and the stores of the [Kernel] struct. *)
Variable initialVals : list Validator.
Variable stores : Stores S.

(** [errors.Is(err, RoundUnknownError{WantHeight: h, WantRound: r})],
    [errors.As(err, new(PubKeysAlreadyExistError))] and
    [errors.As(err, new(VotePowersAlreadyExistError))], negated and
    guarded by [err != nil]. *)
Definition failsOtherThan (expected : StoreError) (err : option StoreError) : bool :=
  match err with
  | None => false
  | Some e => negb (bool_decide (e = expected))
  end.

(** The nil proof of a view: the proof map is made if it is nil, and a
    new empty proof stored for the nil hash if it has none. *)
Definition ensureNilProof (signBytes : VoteTarget → option Bytes) (bytesErr proofErr : string)
    (h r : Z) (valPubKeys : list PubKey) (pubKeyHash : string) (proofs : GoMap Proof)
  : GoMap Proof + StoreError :=
  let proofs := match proofs with
                | None => Some ∅
                | Some _ => proofs
                end in
  match gomap.get proofs "" with
  | Some _ => inl proofs
  | None =>
    match signBytes {| VTHeight := h; VTRound := r; VTBlockHash := "" |} with
    | None => inr (OtherError bytesErr)
    | Some content =>
      match cmspNew k content valPubKeys pubKeyHash with
      | None => inr (OtherError proofErr)
      | Some proof => inl (Some (<["" := proof]> (gomap.entries proofs)))
      end
    end
  end.

(** loadInitialView (kernel.go, line 1631). *)
Definition loadInitialView (st : S) (h r : Z) (vals : list Validator)
  : (RoundView Proof + StoreError) * S :=
  let '(rs, err, st) := LoadRoundState stores st h r in
  if failsOtherThan (RoundUnknownError h r) err
  then (inr (default (OtherError "") err), st)
  else
    let valPubKeys := ValidatorsToPubKeys vals in
    let '(pubKeyHash, err, st) := SavePubKeys stores st valPubKeys in
    if failsOtherThan PubKeysAlreadyExistError err
    then (inr (OtherError "cannot initialize view: failed to save or check initial view validator pubkey hash"), st)
    else
      let '(votePowerHash, err, st) := SaveVotePowers stores st vals in
      if failsOtherThan VotePowersAlreadyExistError err
      then (inr (OtherError "cannot initialize view: failed to save or check initial view vote power hash"), st)
      else
        match ensureNilProof (PrevoteSignBytes k)
                "failed to get initial nil prevote sign bytes"
                "failed to get initial nil prevote proof"
                h r valPubKeys pubKeyHash (RSPrevotes rs) with
        | inr e => (inr e, st)
        | inl prevotes =>
          match ensureNilProof (PrecommitSignBytes k)
                  "failed to get initial nil precommit sign bytes"
                  "failed to get initial nil precommit proof"
                  h r valPubKeys pubKeyHash (RSPrecommits rs) with
          | inr e => (inr e, st)
          | inl precommits =>
            (inl {| Height := h;
                    Round := r;
                    RVValidators := vals;
                    ValidatorPubKeyHash := pubKeyHash;
                    ValidatorVotePowerHash := votePowerHash;
                    ProposedBlocks := RSProposedBlocks rs;
                    PrevoteProofs := prevotes;
                    PrecommitProofs := precommits;
                    VoteSummaryOf := SetAvailablePower NewVoteSummary vals |},
             st)
          end
        end.

Definition setCommittingBlock (s : @kState Proof) (b : Block) : @kState Proof :=
  {| Committing := Committing s; Voting := Voting s; NextRound := NextRound s;
     CommittingBlock := b; NilVotedRound := NilVotedRound s;
     InFlightFetchPBs := InFlightFetchPBs s;
     StateMachineView := StateMachineView s |}.

(** [view.VRV.RoundView = rv], the two vote versions set to 1, and the
    outgoing copy refreshed. *)
Definition installView (view : @View Proof) (rv : RoundView Proof) : @View Proof :=
  UpdateOutgoing (withVRV view (setVoteVersions (withRV (VRV view) rv) 1 1)).

(** The loop of loadInitialCommittingView over the vote distribution:
    the first hash visited among those of the highest power, nil
    when no power is above zero. *)
Definition highestPower (es : list (string * Z)) : Z * string :=
  foldl (λ acc e, if acc.1 <? e.2 then (e.2, e.1) else acc) (0, "") es.

Definition beyondInitialPanic : string :=
  "TODO: load committing validators beyond initial height".
Definition noPrecommitsPanic : string :=
  "BUG: loading commit view from disk without any precommits".
Definition noCommittingBlockPanic : string :=
  "BUG: failed to determine committing block".
Definition noValidatorsPanic : string :=
  "BUG: no validators available when loading initial Voting View".

Definition atInitialHeight (h : Z) : bool :=
  bool_decide (h = initialHeight k) || bool_decide (h = u64 (initialHeight k + 1)).

(** loadInitialCommittingView (kernel.go, line 1712): the error
    returned, the kernel state and the state of the stores. *)
Definition loadInitialCommittingView (st : S) (s : @kState Proof)
  : Res (option StoreError * @kState Proof * S) :=
  let h := Height (RV (VRV (Committing s))) in
  let r := Round (RV (VRV (Committing s))) in
  if negb (atInitialHeight h) then Panic beyondInitialPanic
  else
    let vals := initialVals in
    match loadInitialView st h r vals with
    | (inr e, st) => Ok (Some e, s, st)
    | (inl rv, st) =>
      let s := setCommitting s (installView (Committing s) rv) in
      if bool_decide (gomap.len (PrecommitProofs rv) = 0%nat) then Panic noPrecommitsPanic
      else
        let dist := newVoteDistribution (PrecommitProofs rv) (RVValidators rv) in
        let committingHash :=
          (highestPower (gomap.range (rangeOrder k) (BlockVotePower dist))).2 in
        let s := match find (hasHash committingHash) (ProposedBlocks rv) with
                 | Some pb => setCommittingBlock s (PBBlock pb)
                 | None => s
                 end in
        if bool_decide (Hash (CommittingBlock s) = "") then Panic noCommittingBlockPanic
        else Ok (None, s, st)
    end.

(** loadInitialVotingView (kernel.go, line 1777). *)
Definition loadInitialVotingView (st : S) (s : @kState Proof)
  : Res (option StoreError * @kState Proof * S) :=
  let h := Height (RV (VRV (Voting s))) in
  let r := Round (RV (VRV (Voting s))) in
  let vals := if atInitialHeight h then initialVals else Validators (CommittingBlock s) in
  if bool_decide (length vals = 0%nat) then Panic noValidatorsPanic
  else
    match loadInitialView st h r vals with
    | (inr e, st) => Ok (Some e, s, st)
    | (inl rv, st) =>
      let s := setVoting s (installView (Voting s) rv) in
      match loadInitialView st h (u32 (r + 1)) vals with
      | (inr e, st) => Ok (Some e, s, st)
      | (inl nrrv, st) => Ok (None, setNextRound s (installView (NextRound s) nrrv), st)
      end
    end.

(** What a view loaded at start-up looks like. *)
Definition loadedAt (vrv : VersionedRoundView Proof) (h r : Z) (vals : list Validator) : Prop :=
  (Height (RV vrv), Round (RV vrv), RVValidators (RV vrv)) = (h, r, vals)
  ∧ (PrevoteVersion vrv, PrecommitVersion vrv) = (1, 1)
  ∧ is_Some (gomap.get (PrevoteProofs (RV vrv)) "")
  ∧ is_Some (gomap.get (PrecommitProofs (RV vrv)) "")
  ∧ VoteSummaryOf (RV vrv) = SetAvailablePower NewVoteSummary vals.

(** The state NewKernel seeds from the stored heights and rounds.
    [newStateMachineView] is not in the sources at hand: the view it
    returns is a parameter. *)
Variable newStateMachineView : @stateMachineView Proof.

Definition seedView (h r : Z) : @View Proof :=
  {| VRV := withRV zeroVersionedRoundView (setRound (setHeight zeroRoundView h) r);
     Outgoing := zeroOutgoingView |}.

Definition zeroView : @View Proof :=
  {| VRV := zeroVersionedRoundView; Outgoing := zeroOutgoingView |}.

Definition initState (nhr : NetworkHeightRound) : @kState Proof :=
  {| Committing := seedView (CommittingHeight nhr) (CommittingRound nhr);
     Voting := seedView (VotingHeight nhr) (VotingRound nhr);
     NextRound := zeroView;
     CommittingBlock :=
       {| Hash := ""; PrevBlockHash := ""; BHeight := 0;
          PrevCommitProof := {| CPRound := 0; CPPubKeyHash := ""; Proofs := None |};
          Validators := []; NextValidators := []; DataID := [] |};
     NilVotedRound := None;
     InFlightFetchPBs := ∅;
     StateMachineView := newStateMachineView |}.

(** NewKernel (kernel.go, line 102): the error returned, or the state
    the main loop is started on; and the state of the stores. *)
Definition NewKernel (st : S) : Res ((@kState Proof + StoreError) * S) :=
  let '(nhr, err, st) := NetworkHeightRoundOf stores st in
  if failsOtherThan ErrStoreUninitialized err
  then Ok (inr (OtherError "cannot initialize mirror kernel: failed to retrieve stored network height/round"), st)
  else
    let seeded :=
      if bool_decide (err = Some ErrStoreUninitialized) then
        let nhr := {| VotingHeight := initialHeight k; VotingRound := 0;
                      CommittingHeight := 0; CommittingRound := 0 |} in
        let '(err, st) := SetNetworkHeightRound stores st nhr in
        (nhr, err, st)
      else (nhr, None, st) in
    let '(nhr, err, st) := seeded in
    match err with
    | Some _ =>
      Ok (inr (OtherError "cannot initialize mirror kernel: failed to set initial height/round on store"), st)
    | None =>
      let s := initState nhr in
      let committing :=
        if initialHeight k <=? CommittingHeight nhr
        then loadInitialCommittingView st s
        else Ok (None, s, st) in
      match committing with
      | Panic msg => Panic msg
      | Ok (Some e, _, st) => Ok (inr e, st)
      | Ok (None, s, st) =>
        match loadInitialVotingView st s with
        | Panic msg => Panic msg
        | Ok (Some e, _, st) => Ok (inr e, st)
        | Ok (None, s, st) => Ok (inl s, st)
        end
      end
    end.

End Startup.

Arguments NetworkHeightRoundOf {Proof S}.
Arguments SetNetworkHeightRound {Proof S}.
Arguments LoadRoundState {Proof S}.
Arguments SavePubKeys {Proof S}.
Arguments SaveVotePowers {Proof S}.

End tmi.

Import tmconsensus tmi.

(** * A concrete network

    Four validators of power 10 each (available power 40, Byzantine
    majority 27, minority 14), a proof scheme in which a proof is the list
    of the indices of the validators that signed, and a kernel at initial
    height 1 that is committing height 1 and voting on height 2. *)

Module scenario.

Definition vals : list Validator :=
  [ {| ValPubKey := "v0"; Power := 10 |}; {| ValPubKey := "v1"; Power := 10 |};
    {| ValPubKey := "v2"; Power := 10 |}; {| ValPubKey := "v3"; Power := 10 |} ].

Definition available (vs : list Validator) : Z := foldr (λ v acc, Power v + acc) 0 vs.

(** The power behind a proof: the powers of the validators whose index
    is in it. *)
Definition power (vs : list Validator) (signers : list nat) : Z :=
  foldr (λ i acc, from_option Power 0 (vs !! i) + acc) 0 (remove_dups signers).

Definition blockPowers (vs : list Validator) (proofs : GoMap (list nat)) : gmap string Z :=
  power vs <$> gomap.entries proofs.

Definition totalPower (m : gmap string Z) : Z :=
  foldr (λ kv acc, kv.2 + acc) 0 (map_to_list m).

Definition mostVoted (m : gmap string Z) : string :=
  (foldr (λ kv best, if best.2 <? kv.2 then kv else best) ("", 0) (map_to_list m)).1.

Definition setPrevotePowers (vs : VoteSummary) (vl : list Validator)
    (proofs : GoMap (list nat)) : VoteSummary :=
  let m := blockPowers vl proofs in
  {| AvailablePower := AvailablePower vs;
     TotalPrevotePower := totalPower m;
     TotalPrecommitPower := TotalPrecommitPower vs;
     PrevoteBlockPower := Some m;
     PrecommitBlockPower := PrecommitBlockPower vs;
     MostVotedPrevoteHash := mostVoted m;
     MostVotedPrecommitHash := MostVotedPrecommitHash vs |}.

Definition setPrecommitPowers (vs : VoteSummary) (vl : list Validator)
    (proofs : GoMap (list nat)) : VoteSummary :=
  let m := blockPowers vl proofs in
  {| AvailablePower := AvailablePower vs;
     TotalPrevotePower := TotalPrevotePower vs;
     TotalPrecommitPower := totalPower m;
     PrevoteBlockPower := PrevoteBlockPower vs;
     PrecommitBlockPower := Some m;
     MostVotedPrevoteHash := MostVotedPrevoteHash vs;
     MostVotedPrecommitHash := mostVoted m |}.

Definition emptySummary : VoteSummary :=
  {| AvailablePower := 0; TotalPrevotePower := 0; TotalPrecommitPower := 0;
     PrevoteBlockPower := Some ∅; PrecommitBlockPower := Some ∅;
     MostVotedPrevoteHash := ""; MostVotedPrecommitHash := "" |}.

(** A sparse signature names its signer by the length of its key ID. *)
Definition mergeSparse (p : list nat) (sp : SparseSignatureProof) : list nat * bool :=
  let new := filter (λ i, i ∉ p) ((λ ss, length (KeyID ss)) <$> SSPSignatures sp) in
  (p ++ new, bool_decide (new ≠ [])).

#[export] Instance collaborators : Collaborators (list nat) :=
  {| ProofClone := λ p, p;
     MergeSparse := mergeSparse;
     AddSignature := λ p sig pubKey,
       Some (p ++ from_option (λ i, [i]) [] (list_find (λ v, ValPubKey v = pubKey) vals ≫= Some ∘ fst));
     NewVoteSummary := emptySummary;
     SetAvailablePower := λ vs vl, setAvailablePower vs (available vl);
     SetPrevotePowers := setPrevotePowers;
     SetPrecommitPowers := setPrecommitPowers;
     VoteSummaryClone := λ vs, vs;
     VoteSummaryReset := λ _, emptySummary;
     VoteSummaryResetForSameHeight := λ vs, setAvailablePower emptySummary (AvailablePower vs) |}.

Definition distribution (proofs : GoMap (list nat)) (vl : list Validator) : voteDistribution :=
  {| AvailableVotePower := available vl; BlockVotePower := Some (blockPowers vl proofs) |}.

(** A kernel whose stores and schemes never fail, with a live context. *)
Definition kernel : @Kernel (list nat) :=
  {| initialHeight := 1;
     SaveProposedBlockFails := λ _, false;
     OverwritePrevoteProofsFails := λ _ _ _, false;
     OverwritePrecommitProofsFails := λ _ _ _, false;
     SaveBlockFails := λ _, false;
     PrevoteSignBytes := λ _, Some [];
     PrecommitSignBytes := λ _, Some [];
     HashPubKeys := λ _, Some "pkh";
     cmspNew := λ _ _ _, Some [];
     ctxDone := false;
     selectDone := λ _, false;
     rangeOrder := [] |}.

Definition noCommit : CommitProof := {| CPRound := 0; CPPubKeyHash := ""; Proofs := None |}.

Definition block (h : Z) (hash prev : string) : Block :=
  {| Hash := hash; PrevBlockHash := prev; BHeight := h; PrevCommitProof := noCommit;
     Validators := vals; NextValidators := vals; DataID := [] |}.

Definition pbA : ProposedBlock :=
  {| PBBlock := block 1 "a" ""; PBRound := 0; ProposerPubKey := "v0";
     Signature := [Byte.x0a] |}.

Definition pbB : ProposedBlock :=
  {| PBBlock := block 2 "b" "a"; PBRound := 0; ProposerPubKey := "v1";
     Signature := [Byte.x0b] |}.

(** An initialized view: its nil proofs exist and are empty. *)
Definition freshView (h r : Z) (pbs : list ProposedBlock) : @View (list nat) :=
  let vrv :=
    {| RV := {| Height := h; Round := r; RVValidators := vals;
                ValidatorPubKeyHash := "pkh"; ValidatorVotePowerHash := "pwh";
                ProposedBlocks := pbs;
                PrevoteProofs := Some {[ "" := [] ]};
                PrecommitProofs := Some {[ "" := [] ]};
                VoteSummaryOf := setAvailablePower emptySummary 40 |};
       Version := 1; PrevoteVersion := 1; PrecommitVersion := 1;
       PrevoteBlockVersions := None; PrecommitBlockVersions := None |} in
  {| VRV := vrv; Outgoing := {| OutVRV := vrv; sent := true |} |}.

(** Precommits of the given signers for [hash] in a view. *)
Definition withPrecommits (v : @View (list nat)) (hash : string) (signers : list nat)
  : @View (list nat) :=
  let vrv := VRV v in
  let proofs := Some (<[hash := signers]> (gomap.entries (PrecommitProofs (RV vrv)))) in
  let rv := setPrecommitProofs (RV vrv) proofs in
  {| VRV := setPrecommitBlockVersions
              (withRV vrv (setVoteSummary rv (setPrecommitPowers (VoteSummaryOf rv) vals proofs)))
              (Some {[ hash := 1 ]});
     Outgoing := Outgoing v |}.

Definition mkState (voting : @View (list nat)) (smHeight smRound : Z) : @kState (list nat) :=
  {| Committing := freshView 1 0 [pbA];
     Voting := voting;
     NextRound := freshView 2 1 [];
     CommittingBlock := block 1 "a" "";
     NilVotedRound := None;
     InFlightFetchPBs := ∅;
     StateMachineView := {| smH := smHeight; smR := smRound; smPubKey := "v0"; smPending := None |} |}.

(** The view lookup of the specification, on this network. *)
Definition lookup : @kState (list nat) → Z → Z → string → FindViewResult := FindViewSpec.

Definition mkWorld (s : @kState (list nat)) (room : nat) : @World (list nat) :=
  {| state := s; trace := []; fetchRoom := room |}.

(** Voting on (2, 0) with nothing received yet. *)
Definition idle : @kState (list nat) := mkState (freshView 2 0 []) 2 0.

(** Voting on (2, 0), with the proposed block B received. *)
Definition withB : @kState (list nat) := mkState (freshView 2 0 [pbB]) 2 0.


Definition stuck : @kState (list nat) :=
  mkState (withPrecommits (freshView 2 0 []) "b" [0; 1; 2]%nat) 2 0.

(** The state machine is still on a round the kernel does not track. *)
Definition elsewhere : @kState (list nat) := mkState (freshView 2 0 []) 9 9.

Definition update (signers : list nat) (prev : Z) : @VoteUpdate (list nat) :=
  {| UProof := signers; PrevVersion := prev |}.

Definition prevotes (h r : Z) (hash : string) (u : @VoteUpdate (list nat)) (ch : option nat)
  : @AddPrevoteRequest (list nat) :=
  {| PvH := h; PvR := r; PrevoteUpdates := Some {[ hash := u ]}; PvResponse := ch |}.

Definition precommits (h r : Z) (hash : string) (u : @VoteUpdate (list nat)) (ch : option nat)
  : @AddPrecommitRequest (list nat) :=
  {| PcH := h; PcR := r; PrecommitUpdates := Some {[ hash := u ]}; PcResponse := ch |}.

Definition noSignature : ScopedSignature :=
  {| TargetHash := ""; SignContent := []; SSig := [] |}.

Definition signature (hash : string) : ScopedSignature :=
  {| TargetHash := hash; SignContent := [Byte.x01]; SSig := [Byte.x02] |}.

Definition noPB : ProposedBlock :=
  {| PBBlock := block 0 "" ""; PBRound := 0; ProposerPubKey := ""; Signature := [] |}.

(** A round action with a prevote and a precommit, and no proposed
    block; and one with a prevote only. *)
Definition bothVotes : StateMachineRoundAction :=
  {| ActPB := noPB; ActPrevote := signature "b"; ActPrecommit := signature "b" |}.

Definition onePrevote : StateMachineRoundAction :=
  {| ActPB := noPB; ActPrevote := signature "b"; ActPrecommit := noSignature |}.

(** A proof map after a vote update: two validators for "c", one for "e". *)
Definition votesForC : GoMap (list nat) :=
  Some {[ "" := []; "c" := [0; 1]%nat; "e" := [3%nat] ]}.

(** The idle network with a fetch of "b" outstanding. *)
Definition fetchingB : @kState (list nat) :=
  setInFlightFetchPBs idle {[ "b" := {| cfHeight := 2; cfHash := "b" |} ]}.

(** A second proposed block for the committing round (1, 0), a proposed
    block for a height the kernel does not track, and the proposed
    block B carrying precommits of height 1 for a block "x" that the
    committing view has no precommit for. *)
Definition pbA2 : ProposedBlock :=
  {| PBBlock := block 1 "a2" ""; PBRound := 0; ProposerPubKey := "v2";
     Signature := [Byte.x0c] |}.

Definition pbFar : ProposedBlock :=
  {| PBBlock := block 7 "z" "y"; PBRound := 0; ProposerPubKey := "v3";
     Signature := [Byte.x0d] |}.

Definition pbWithCommit : ProposedBlock :=
  {| PBBlock :=
       {| Hash := "b"; PrevBlockHash := "a"; BHeight := 2;
          PrevCommitProof :=
            {| CPRound := 0; CPPubKeyHash := "pkh";
               Proofs := Some {[ "x" := [ {| KeyID := [Byte.x00]; Sig := [Byte.x01] |} ] ]} |};
          Validators := vals; NextValidators := vals; DataID := [] |};
     PBRound := 0; ProposerPubKey := "v1"; Signature := [Byte.x0b] |}.

(** Public keys are equal when their strings are, and a proof holds no
    signature when it lists no signer. *)
Definition pubKeyEqual : PubKey → PubKey → bool := String.eqb.

Definition noSigners (p : list nat) : bool := bool_decide (p = []).

Definition channels : OutputChannels :=
  {| votingViewOut := 1%nat; committingViewOut := 2%nat; nextRoundViewOut := 3%nat;
     gossipOutCh := 4%nat |}.

(** Validator 0 has precommitted for "b", and the voting view was not
    sent since. *)
Definition unsent : @kState (list nat) :=
  mkState (UpdateOutgoing (withPrecommits (freshView 2 0 []) "b" [0%nat])) 2 0.

(** Stores that never fail.  Their state is the stored height and
    round pointer, [None] while the mirror store is uninitialized.  The
    round store holds round (1, 0) only: the proposed block A and the
    precommits of three validators for it. *)
Definition savedRound (h r : Z) : @RoundState (list nat) * option StoreError :=
  if bool_decide (h = 1 ∧ r = 0)
  then ({| RSProposedBlocks := [pbA]; RSPrevotes := None;
           RSPrecommits := Some {[ "a" := [0; 1; 2]%nat ]} |}, None)
  else ({| RSProposedBlocks := []; RSPrevotes := None; RSPrecommits := None |},
        Some (RoundUnknownError h r)).

Definition diskStores : @Stores (list nat) (option NetworkHeightRound) :=
  {| NetworkHeightRoundOf := λ st,
       match st with
       | Some nhr => (nhr, None, st)
       | None => ({| VotingHeight := 0; VotingRound := 0;
                     CommittingHeight := 0; CommittingRound := 0 |},
                  Some ErrStoreUninitialized, st)
       end;
     SetNetworkHeightRound := λ _ nhr, (None, Some nhr);
     LoadRoundState := λ st h r, (savedRound h r, st);
     SavePubKeys := λ st _, ("pkh", Some PubKeysAlreadyExistError, st);
     SaveVotePowers := λ st _, ("pwh", None, st) |}.

(** The pointer of a kernel that was committing height 1 and voting on
    (2, 0) when it stopped. *)
Definition stoppedAt : NetworkHeightRound :=
  {| VotingHeight := 2; VotingRound := 0; CommittingHeight := 1; CommittingRound := 0 |}.

Definition machineView : @stateMachineView (list nat) :=
  {| smH := 0; smR := 0; smPubKey := "v0"; smPending := None |}.

(** The proposed block B carrying the precommit of validator 3 for
    nil at height 1. *)
Definition pbWithNilCommit : ProposedBlock :=
  {| PBBlock :=
       {| Hash := "b"; PrevBlockHash := "a"; BHeight := 2;
          PrevCommitProof :=
            {| CPRound := 0; CPPubKeyHash := "pkh";
               Proofs :=
                 Some {[ "" := [ {| KeyID := [Byte.x00; Byte.x00; Byte.x00];
                                    Sig := [Byte.x01] |} ] ]} |};
          Validators := vals; NextValidators := vals; DataID := [] |};
     PBRound := 0; ProposerPubKey := "v1"; Signature := [Byte.x0b] |}.

Definition allFields : RVFieldFlags :=
  {| WantValidators := true; WantProposedBlocks := true; WantPrevotes := true;
     WantPrecommits := true; WantVoteSummary := true |}.

(** A lookup of the voting round (2, 0), into a zero view. *)
Definition lookupVoting : @ViewLookupRequest (list nat) :=
  {| VLH := 2; VLR := 0; VLVRV := Some zeroVersionedRoundView; VLFields := allFields;
     VLReason := "test" |}.

(** The state machine enters round (2, 0). *)
Definition enterVoting : StateMachineRoundActionSet := {| ASH := 2; ASR := 0 |}.

Definition rebind (v : @stateMachineView (list nat)) (actions : StateMachineRoundActionSet)
  : @stateMachineView (list nat) :=
  {| smH := ASH actions; smR := ASR actions; smPubKey := smPubKey v; smPending := None |}.

Definition noBlocks (h : Z) : option CommittedBlock := None.

End scenario.

(** * Properties *)

Section Properties.
Context {Proof : Type} {collab : Collaborators Proof}.
Variable FindView : @kState Proof → Z → Z → string → FindViewResult.
Variable newVoteDistribution : GoMap Proof → list Validator → voteDistribution.
Variable k : @Kernel Proof.

(** ** Go maps *)

Lemma entries_clear {V} (m : GoMap V) : gomap.entries (gomap.clear m) = ∅.
Proof using Type. by destruct m. Qed.

Lemma get_entries {V} (m : GoMap V) (h : string) :
  gomap.get m h = gomap.entries m !! h.
Proof using Type. by destruct m. Qed.

(** A [range] loop visits every entry of the map, each key once. *)
Lemma elem_of_range {V} (order : list string) (m : GoMap V) (h : string) (v : V) :
  (h, v) ∈ gomap.range order m ↔ gomap.get m h = Some v.
Proof using Type.
  rewrite get_entries. unfold gomap.range. rewrite elem_of_app. split.
  - intros [Hin|Hin].
    + apply list_elem_of_omap in Hin as (h' & _ & Heq).
      destruct (gomap.entries m !! h') as [v'|] eqn:E; simplify_eq/=. done.
    + apply list_elem_of_filter in Hin as [_ Hin]. by apply elem_of_map_to_list in Hin.
  - intros Hget. destruct (decide (h ∈ order)) as [Hord|Hord].
    + left. apply list_elem_of_omap. exists h. split; [by apply elem_of_remove_dups|].
      by rewrite Hget.
    + right. apply list_elem_of_filter. split; [done|]. by apply elem_of_map_to_list.
Qed.

Lemma NoDup_range {V} (order : list string) (m : GoMap V) :
  NoDup (gomap.range order m).*1.
Proof using Type.
  unfold gomap.range. rewrite fmap_app. apply NoDup_app. split_and!.
  - pose proof (NoDup_remove_dups order) as Hnd.
    induction Hnd as [|x l Hx Hnd IH]; cbn; [constructor|].
    destruct (gomap.entries m !! x) as [v|]; cbn; [|done].
    constructor; [|done]. intros Hin. apply Hx.
    apply list_elem_of_fmap in Hin as ([h' v'] & -> & Hin).
    apply list_elem_of_omap in Hin as (h'' & Hh'' & Heq).
    destruct (gomap.entries m !! h''); simplify_eq/=. done.
  - intros h Hin1 Hin2.
    apply list_elem_of_fmap in Hin1 as ([h1 v1] & -> & Hin1).
    apply list_elem_of_omap in Hin1 as (h' & Hh' & Heq).
    destruct (gomap.entries m !! h'); simplify_eq/=.
    apply list_elem_of_fmap in Hin2 as ([h2 v2] & Heq & Hin2). cbn in Heq. subst h2.
    apply list_elem_of_filter in Hin2 as [Hno _]. cbn in Hno.
    by apply Hno, elem_of_remove_dups.
  - eapply sublist_NoDup; [apply (NoDup_fst_map_to_list (gomap.entries m))|].
    apply fmap_sublist, sublist_filter.
Qed.

Lemma range_nil {V} (order : list string) (m : GoMap V) :
  gomap.range order m = [] ↔ gomap.entries m = ∅.
Proof using Type.
  split.
  - intros Hnil. apply map_eq. intros h. rewrite lookup_empty.
    destruct (gomap.entries m !! h) as [v|] eqn:E; [|done].
    rewrite <- get_entries in E. apply (elem_of_range order) in E.
    rewrite Hnil in E. by apply elem_of_nil in E.
  - intros Hemp. destruct (gomap.range order m) as [|[h v] l] eqn:E; [done|].
    assert ((h, v) ∈ gomap.range order m) as Hin by (rewrite E; left).
    apply elem_of_range in Hin. rewrite get_entries, Hemp in Hin. done.
Qed.

Lemma remove_dups_NoDup (l : list string) : NoDup l → remove_dups l = l.
Proof using Type.
  induction 1 as [|x l Hx Hnd IH]; cbn; [done|].
  destruct (decide_rel elem_of x l) as [Hin|_]; [done|by rewrite IH].
Qed.

(** Every order in which the run time may visit a map is one of the
    orders of [gomap.range]. *)
Lemma range_any_order {V} (m : GoMap V) (l : list (string * V)) :
  l ≡ₚ map_to_list (gomap.entries m) → gomap.range l.*1 m = l.
Proof using Type.
  intros Hperm. unfold gomap.range.
  assert (NoDup l.*1) as Hnd.
  { rewrite Hperm. apply NoDup_fst_map_to_list. }
  assert (∀ h v, (h, v) ∈ l → gomap.entries m !! h = Some v) as Hin.
  { intros h v Hl. rewrite Hperm in Hl. by apply elem_of_map_to_list in Hl. }
  assert (∀ l' : list (string * V), l' ⊆ l →
            filter (λ kv : string * V, kv.1 ∉ l.*1) l' = []) as Hgen.
  { induction l' as [|[h v] l' IH]; [done|]. intros Hsub.
    rewrite filter_cons, decide_False.
    - apply IH. intros x Hx. apply Hsub. by right.
    - intros Hno. apply Hno. apply list_elem_of_fmap. exists (h, v).
      split; [done|]. apply Hsub. left. }
  rewrite (Hgen (map_to_list (gomap.entries m)))
    by (intros x Hx; by rewrite Hperm).
  rewrite app_nil_r, remove_dups_NoDup by done. clear Hnd Hperm Hgen.
  induction l as [|[h v] l IH]; [done|]. cbn.
  rewrite (Hin h v) by left. cbn. f_equal. apply IH.
  intros h' v' Hl. apply Hin. by right.
Qed.

(** ** ResetForSameHeight *)

(** C10. ResetForSameHeight, on a RoundView and on a VersionedRoundView,
    leaves Height, Validators, ValidatorPubKeyHash and
    ValidatorVotePowerHash as they are, sets Round to 0, empties
    ProposedBlocks and clears the prevote and precommit proof maps; the
    versioned variant also zeroes Version, PrevoteVersion and
    PrecommitVersion and clears both per-hash version maps. *)
Theorem ResetForSameHeight_frame (rv : RoundView Proof) (v : VersionedRoundView Proof) :
  let rv' := RoundView_ResetForSameHeight rv in
  let v' := VersionedRoundView_ResetForSameHeight v in
  (Height rv' = Height rv
   ∧ RVValidators rv' = RVValidators rv
   ∧ ValidatorPubKeyHash rv' = ValidatorPubKeyHash rv
   ∧ ValidatorVotePowerHash rv' = ValidatorVotePowerHash rv
   ∧ Round rv' = 0
   ∧ ProposedBlocks rv' = []
   ∧ gomap.entries (PrevoteProofs rv') = ∅
   ∧ gomap.entries (PrecommitProofs rv') = ∅)
  ∧ (RV v' = RoundView_ResetForSameHeight (RV v)
     ∧ Height (RV v') = Height (RV v)
     ∧ RVValidators (RV v') = RVValidators (RV v)
     ∧ ValidatorPubKeyHash (RV v') = ValidatorPubKeyHash (RV v)
     ∧ ValidatorVotePowerHash (RV v') = ValidatorVotePowerHash (RV v)
     ∧ Round (RV v') = 0
     ∧ ProposedBlocks (RV v') = []
     ∧ gomap.entries (PrevoteProofs (RV v')) = ∅
     ∧ gomap.entries (PrecommitProofs (RV v')) = ∅
     ∧ Version v' = 0
     ∧ PrevoteVersion v' = 0
     ∧ PrecommitVersion v' = 0
     ∧ gomap.entries (PrevoteBlockVersions v') = ∅
     ∧ gomap.entries (PrecommitBlockVersions v') = ∅).
Proof using Type.
  cbn; repeat split; apply entries_clear.
Qed.

(** ** advanceVotingRound *)

(** The three places that advance the voting round by one call
    advanceVotingRound first. *)
Lemma advance_call_sites (w : @World Proof) :
  let vs := VoteSummaryOf (RV (VRV (Voting (state w)))) in
  let ns := VoteSummaryOf (RV (VRV (NextRound (state w)))) in
  let pow := default 0 (gomap.get (PrecommitBlockPower vs) (MostVotedPrecommitHash vs)) in
  (* nil-majority precommit *)
  (ByzantineMajority (AvailablePower vs) ≤ pow → MostVotedPrecommitHash vs = "" →
   checkVotingPrecommitViewShift k w
   = bind (advanceVotingRound k)
       (λ err, match err with
               | Some e => ret (Some e)
               | None => bind (emit (LogInfo "Shifted voting round due to nil precommit"))
                              (λ _, ret None)
               end) w)
  (* every vote received, without a majority *)
  ∧ (pow < ByzantineMajority (AvailablePower vs) →
     TotalPrecommitPower vs = AvailablePower vs →
     checkVotingPrecommitViewShift k w
     = bind (advanceVotingRound k)
         (λ err, match err with
                 | Some e => ret (Some e)
                 | None =>
                   bind (emit (LogInfo "Shifted voting round due to 100% of votes received without consensus"))
                        (λ _, ret None)
                 end) w)
  (* next-round minority thresholds *)
  ∧ (ByzantineMinority (AvailablePower ns) ≤ TotalPrecommitPower ns →
     ∃ rest, checkNextRoundPrecommitViewShift newVoteDistribution k w
             = bind (advanceVotingRound k) rest w)
  ∧ (ByzantineMinority (AvailablePower ns) ≤ TotalPrevotePower ns →
     ∃ rest, checkPrevoteViewShift newVoteDistribution k ViewIDNextRound w
             = bind (advanceVotingRound k) rest w).
Proof using Type.
  cbn zeta. repeat split.
  - intros Hmaj Hnil. unfold checkVotingPrecommitViewShift.
    unfold mbind, K_bind, bind at 1, getS.
    destruct (Z.ltb_spec
      (default 0 (gomap.get (PrecommitBlockPower (VoteSummaryOf (RV (VRV (Voting (state w))))))
         (MostVotedPrecommitHash (VoteSummaryOf (RV (VRV (Voting (state w))))))))
      (ByzantineMajority (AvailablePower (VoteSummaryOf (RV (VRV (Voting (state w)))))))); [lia|].
    rewrite bool_decide_eq_true_2 by done. reflexivity.
  - intros Hmaj Hall. unfold checkVotingPrecommitViewShift.
    unfold mbind, K_bind, bind at 1, getS.
    destruct (Z.ltb_spec
      (default 0 (gomap.get (PrecommitBlockPower (VoteSummaryOf (RV (VRV (Voting (state w))))))
         (MostVotedPrecommitHash (VoteSummaryOf (RV (VRV (Voting (state w))))))))
      (ByzantineMajority (AvailablePower (VoteSummaryOf (RV (VRV (Voting (state w)))))))); [|lia].
    rewrite bool_decide_eq_true_2 by done. reflexivity.
  - intros Hmin. eexists. unfold checkNextRoundPrecommitViewShift.
    unfold mbind, K_bind, bind at 1, getS.
    destruct (Z.ltb_spec
      (TotalPrecommitPower (VoteSummaryOf (RV (VRV (NextRound (state w))))))
      (ByzantineMinority (AvailablePower (VoteSummaryOf (RV (VRV (NextRound (state w)))))))); [lia|].
    reflexivity.
  - intros Hmin. eexists. unfold checkPrevoteViewShift.
    unfold mbind, K_bind, bind at 1, getS.
    destruct (Z.ltb_spec
      (TotalPrevotePower (VoteSummaryOf (RV (VRV (NextRound (state w))))))
      (ByzantineMinority (AvailablePower (VoteSummaryOf (RV (VRV (NextRound (state w)))))))); [lia|].
    reflexivity.
Qed.


(** ** checkVotingPrecommitViewShift *)


Lemma existsb_hasHash_false (h : string) (pbs : list ProposedBlock) :
  existsb (hasHash h) pbs = false ↔ ∀ pb, pb ∈ pbs → Hash (PBBlock pb) ≠ h.
Proof using Type.
  induction pbs as [|x pbs IH]; cbn.
  - split; [|done]. intros _ pb Hpb. by apply elem_of_nil in Hpb.
  - rewrite orb_false_iff, IH. unfold hasHash. rewrite bool_decide_eq_false. split.
    + intros [Hx Hrest] pb [->|Hin]%elem_of_cons; eauto.
    + intros Hall. split; [apply Hall; left|intros pb Hin; apply Hall; by right].
Qed.


(** C4, as the code has it.  With a majority of precommits for a
    non-nil hash in the voting view and no proposed block with that hash
    in it, checkVotingPrecommitViewShift leaves the kernel state as it
    is (no view shift, no commit, the in-flight fetches untouched), and
    logs that it is stuck, with a report of whether a fetch of the block
    is in flight; it sends no fetch request. *)
Theorem stuck_without_proposed_block (w : @World Proof) :
  let s := state w in
  let vrv := VRV (Voting s) in
  let vs := VoteSummaryOf (RV vrv) in
  let h := MostVotedPrecommitHash vs in
  ByzantineMajority (AvailablePower vs) ≤ default 0 (gomap.get (PrecommitBlockPower vs) h) →
  h ≠ "" →
  (∀ pb, pb ∈ ProposedBlocks (RV vrv) → Hash (PBBlock pb) ≠ h) →
  checkVotingPrecommitViewShift k w
  = Ok (None,
        {| state := s;
           trace := trace w ++
             [Log Warn stuckMsg
                [("block_hash", h);
                 ("fetch_in_progress", if inFlight s h then "true" else "false")]];
           fetchRoom := fetchRoom w |}).
Proof using Type.
  intros s vrv vs h Hmaj Hne Hno.
  apply existsb_hasHash_false in Hno.
  unfold checkVotingPrecommitViewShift.
  unfold mbind, K_bind, bind at 1, getS. fold s. fold vrv. fold vs. fold h.
  destruct (Z.ltb_spec (default 0 (gomap.get (PrecommitBlockPower vs) h))
              (ByzantineMajority (AvailablePower vs))); [lia|].
  rewrite bool_decide_eq_false_2 by done.
  rewrite Hno. reflexivity.
Qed.

(** ** checkMissingPBs *)

Lemma setInFlight_id (s : @kState Proof) : setInFlightFetchPBs s (InFlightFetchPBs s) = s.
Proof using Type. by destruct s. Qed.

Lemma world_eta (w : @World Proof) :
  {| state := state w; trace := trace w; fetchRoom := fetchRoom w |} = w.
Proof using Type. by destruct w. Qed.

Lemma fetchOnly_refl (w : @World Proof) : fetchOnly w w.
Proof using Type.
  split; [by repeat split|]. exists []. by rewrite app_nil_r.
Qed.

Lemma fetchOnly_trans (w1 w2 w3 : @World Proof) :
  fetchOnly w1 w2 → fetchOnly w2 w3 → fetchOnly w1 w3.
Proof using Type.
  intros [(?&?&?&?&?&?) (t1&Ht1&Hf1)] [(?&?&?&?&?&?) (t2&Ht2&Hf2)].
  split; [repeat split; congruence|].
  exists (t1 ++ t2). rewrite Ht2, Ht1, app_assoc. split; [done|]. by apply Forall_app.
Qed.

(** Whatever the run time chooses, the last loop returns, and changes
    the in-flight fetches and the trace only. *)
Lemma fetchLoop_frame (dist : voteDistribution) (min : Z) (hs : list string) (w : @World Proof) :
  ∃ w', fetchLoop k dist min hs w = Ok (tt, w') ∧ fetchOnly w w'.
Proof using Type.
  revert w. induction hs as [|h hs IH]; intros w; cbn [fetchLoop].
  - exists w. split; [done|apply fetchOnly_refl].
  - destruct (_ <? min); [apply IH|].
    unfold mbind, K_bind, bind, getS, getRoom, emit, putRoom, putS. cbn.
    destruct (ctxDone k && _).
    { exists w. split; [done|apply fetchOnly_refl]. }
    destruct (fetchRoom w) as [|room] eqn:Hroom.
    + edestruct IH as (w' & -> & Hfo). eexists; split; [done|].
      eapply fetchOnly_trans; [|exact Hfo].
      split; [by repeat split|]. eexists [_]. split; [done|]. by repeat constructor.
    + edestruct IH as (w' & -> & Hfo). eexists; split; [done|].
      eapply fetchOnly_trans; [|exact Hfo].
      split; [by repeat split|]. eexists [_]. split; [done|]. by repeat constructor.
Qed.

Lemma checkMissingPBs_frame (proofs : GoMap Proof) (w : @World Proof) :
  gomap.len proofs ≠ 0%nat →
  ∃ w', checkMissingPBs newVoteDistribution k proofs w = Ok (tt, w') ∧ fetchOnly w w'.
Proof using Type.
  intros Hlen. unfold checkMissingPBs, mbind, K_bind, bind, getS.
  rewrite bool_decide_eq_false_2 by done.
  destruct (bool_decide (missingPBsOf k (state w) proofs = [])).
  { exists w. split; [done|apply fetchOnly_refl]. }
  destruct (bool_decide (dropInFlight _ _ = [])).
  { exists w. split; [done|apply fetchOnly_refl]. }
  apply fetchLoop_frame.
Qed.

(** With the context live, the last loop sends requests for the hashes
    over the threshold while the channel has room, and logs for the
    others. *)
Lemma fetchLoop_run (dist : voteDistribution) (min : Z) (hs : list string) (w : @World Proof) :
  ctxDone k = false →
  let todo := filter (λ h, min ≤ default 0 (gomap.get (BlockVotePower dist) h)) hs in
  let height := Height (RV (VRV (Voting (state w)))) in
  let sentL := take (fetchRoom w) todo in
  fetchLoop k dist min hs w
  = Ok (tt,
        {| state :=
             setInFlightFetchPBs (state w)
               (recordFetches height (InFlightFetchPBs (state w)) sentL);
           trace := trace w ++ (sendEvent height <$> sentL)
                            ++ (blockedEvent <$> drop (fetchRoom w) todo);
           fetchRoom := (fetchRoom w - length sentL)%nat |}).
Proof using Type.
  intros Hctx. revert w. induction hs as [|h hs IH]; intros w; cbn [fetchLoop].
  - cbn. rewrite take_nil, drop_nil. cbn.
    rewrite setInFlight_id, app_nil_r, Nat.sub_0_r, world_eta. done.
  - rewrite filter_cons.
    destruct (Z.ltb_spec (default 0 (gomap.get (BlockVotePower dist) h)) min) as [Hlt|Hge].
    { rewrite decide_False by lia. apply IH. }
    rewrite decide_True by lia.
    unfold mbind, K_bind, bind, getS, getRoom, emit, putRoom, putS. cbn -[filter take drop].
    rewrite Hctx. cbn -[filter take drop].
    destruct (fetchRoom w) as [|room] eqn:Hroom; cbn -[filter].
    + rewrite IH. cbn -[filter]. rewrite Hroom. cbn -[filter].
      rewrite take_0, drop_0. cbn -[filter].
      rewrite setInFlight_id, <- app_assoc. done.
    + rewrite IH. cbn -[filter]. rewrite Nat.sub_0_r, <- !app_assoc. done.
Qed.

Lemma dropInFlight_filter (s : @kState Proof) (hs : list string) :
  "" ∉ hs →
  dropInFlight s hs = filter (λ h, InFlightFetchPBs s !! h = None) hs.
Proof using Type.
  intros Hne. unfold dropInFlight.
  assert (∀ l : list string, "" ∉ l →
    filter (λ h, h ≠ "") ((λ h, if inFlight s h then "" else h) <$> l)
    = filter (λ h, InFlightFetchPBs s !! h = None) l) as Hmark.
  { induction l as [|h l IH]; [done|]. intros Hl.
    apply not_elem_of_cons in Hl as [Hh Hl]. cbn [fmap list_fmap].
    rewrite !filter_cons, IH by done. unfold inFlight.
    destruct (InFlightFetchPBs s !! h) as [c|] eqn:E.
    - rewrite bool_decide_eq_true_2 by eauto.
      rewrite decide_False by (intros Hn; by apply Hn). by rewrite decide_False by done.
    - rewrite bool_decide_eq_false_2 by (intros [? ?]; done).
      rewrite decide_True by (intros ->; by apply Hh). by rewrite decide_True by done. }
  destruct (existsb (inFlight s) hs) eqn:Hex; [by apply Hmark|].
  clear Hmark Hne. induction hs as [|h hs IH]; [done|].
  cbn in Hex. apply orb_false_iff in Hex as [Hh Hex].
  cbn [fmap list_fmap]. rewrite Hh, filter_cons, decide_True.
  - f_equal. by apply IH.
  - unfold inFlight in Hh. apply bool_decide_eq_false in Hh.
    destruct (InFlightFetchPBs s !! h); [|done]. exfalso. eauto.
Qed.

Lemma elem_of_missingPBsOf (s : @kState Proof) (proofs : GoMap Proof) (h : string) :
  h ∈ missingPBsOf k s proofs
  ↔ h ≠ "" ∧ is_Some (gomap.get proofs h)
    ∧ ∀ pb, pb ∈ ProposedBlocks (RV (VRV (Voting s))) → Hash (PBBlock pb) ≠ h.
Proof using Type.
  unfold missingPBsOf. split.
  - intros Hin. apply list_elem_of_filter in Hin as [[Hne Hhave] Hin].
    apply list_elem_of_fmap in Hin as (e & Heq & Hin).
    destruct e as [h' v]. cbn in Heq. subst h'.
    apply elem_of_range in Hin.
    split_and!; [done|eauto|]. intros pb Hpb Heq. apply Hhave.
    apply list_elem_of_fmap. eauto.
  - intros (Hne & [v Hv] & Hhave). apply list_elem_of_filter. split.
    + split; [done|]. intros (pb & -> & Hpb)%list_elem_of_fmap. by eapply Hhave.
    + apply list_elem_of_fmap. exists (h, v). split; [done|]. by apply elem_of_range.
Qed.

Lemma NoDup_missingPBsOf (s : @kState Proof) (proofs : GoMap Proof) :
  NoDup (missingPBsOf k s proofs).
Proof using Type. apply NoDup_filter, NoDup_range. Qed.

Lemma lookup_recordFetches (height : Z) (hs : list string)
    (m : gmap string CancelFunc) (h : string) :
  recordFetches height m hs !! h
  = if decide (h ∈ hs) then Some {| cfHeight := height; cfHash := h |} else m !! h.
Proof using Type.
  revert m. induction hs as [|x hs IH]; intros m; cbn.
  - by rewrite decide_False by apply not_elem_of_nil.
  - unfold recordFetches in IH. rewrite IH.
    destruct (decide (h ∈ hs)) as [Hin|Hin].
    + by rewrite decide_True by (by right).
    + destruct (decide (h = x)) as [->|Hne].
      * rewrite decide_True by left. by rewrite lookup_insert_eq.
      * rewrite lookup_insert_ne by done.
        rewrite decide_False; [done|]. by intros [?|?]%elem_of_cons.
Qed.

(** C8. checkMissingPBs, called with the proof map after a vote update,
    attempts a fetch for exactly the hashes that are not nil, have a
    proof in the map, have no proposed block in the voting view, have no
    fetch in flight, and have at least the Byzantine minority of the
    voting power of a fresh vote distribution over the voting
    validators.  Each such hash is attempted once: while the channel has
    room the request is sent and its cancel function recorded in
    InFlightFetchPBs under the hash; once the channel is full a warning
    is logged instead, and nothing is recorded or retried.
    (The proof map has an entry, as every initialized view's has, and
    the kernel's context is live.) *)
Theorem checkMissingPBs_fetches (proofs : GoMap Proof) (w : @World Proof) :
  gomap.len proofs ≠ 0%nat →
  ctxDone k = false →
  let s := state w in
  let voting := RV (VRV (Voting s)) in
  let dist := newVoteDistribution proofs (RVValidators voting) in
  let min := ByzantineMinority (AvailableVotePower dist) in
  let wanted (h : string) :=
    h ≠ "" ∧ is_Some (gomap.get proofs h)
    ∧ (∀ pb, pb ∈ ProposedBlocks voting → Hash (PBBlock pb) ≠ h)
    ∧ InFlightFetchPBs s !! h = None
    ∧ min ≤ default 0 (gomap.get (BlockVotePower dist) h) in
  ∃ attempts : list string,
    NoDup attempts
    ∧ (∀ h, h ∈ attempts ↔ wanted h)
    ∧ let sentL := take (fetchRoom w) attempts in
      let blockedL := drop (fetchRoom w) attempts in
      let inFlight' := recordFetches (Height voting) (InFlightFetchPBs s) sentL in
      checkMissingPBs newVoteDistribution k proofs w
      = Ok (tt,
            {| state := setInFlightFetchPBs s inFlight';
               trace := trace w ++ (sendEvent (Height voting) <$> sentL)
                                ++ (blockedEvent <$> blockedL);
               fetchRoom := (fetchRoom w - length sentL)%nat |})
      ∧ (∀ h, h ∈ sentL →
           inFlight' !! h = Some {| cfHeight := Height voting; cfHash := h |})
      ∧ (∀ h, h ∈ blockedL → inFlight' !! h = None)
      ∧ (∀ h, h ∉ sentL → inFlight' !! h = InFlightFetchPBs s !! h).
Proof using Type.
  intros Hlen Hctx s voting dist min wanted.
  set (missing := missingPBsOf k s proofs).
  assert ("" ∉ missing) as Hnil.
  { intros Hin. apply elem_of_missingPBsOf in Hin. by destruct Hin as [Hne _]. }
  set (attempts :=
         filter (λ h, min ≤ default 0 (gomap.get (BlockVotePower dist) h))
                (dropInFlight s missing)).
  assert (NoDup attempts) as Hnd.
  { unfold attempts. rewrite dropInFlight_filter by done.
    apply NoDup_filter, NoDup_filter, NoDup_missingPBsOf. }
  assert (∀ h, h ∈ attempts ↔ wanted h) as Hwanted.
  { intros h. unfold attempts, wanted. rewrite dropInFlight_filter by done.
    rewrite !list_elem_of_filter. unfold missing. rewrite elem_of_missingPBsOf.
    fold s. fold voting.
    split; [intros (? & ? & ? & ? & ?)|intros (? & ? & ? & ? & ?)]; split_and!; done. }
  exists attempts. split; [done|]. split; [done|]. cbn zeta.
  split; [|split_and!].
  - unfold checkMissingPBs, mbind, K_bind, bind at 1, getS. fold s.
    rewrite bool_decide_eq_false_2 by done. fold missing.
    assert (∀ w0 : @World Proof, w0 = w →
      Ok (tt, w0)
      = Ok (tt, {| state := setInFlightFetchPBs s (recordFetches (Height voting) (InFlightFetchPBs s) []);
                   trace := trace w ++ [] ++ [];
                   fetchRoom := (fetchRoom w - 0)%nat |})) as Hidle.
    { intros w0 ->. cbn. unfold s. by rewrite setInFlight_id, app_nil_r, Nat.sub_0_r, world_eta. }
    case_bool_decide as Hm.
    { assert (attempts = []) as ->.
      { unfold attempts, dropInFlight. by rewrite Hm. }
      rewrite take_nil, drop_nil. cbn [fmap list_fmap length]. by apply Hidle. }
    case_bool_decide as Hd.
    { assert (attempts = []) as ->.
      { unfold attempts. by rewrite Hd. }
      rewrite take_nil, drop_nil. cbn [fmap list_fmap length]. by apply Hidle. }
    fold voting. fold dist. fold min.
    rewrite fetchLoop_run by done. reflexivity.
  - intros h Hin. rewrite lookup_recordFetches. by rewrite decide_True.
  - intros h Hin. rewrite lookup_recordFetches.
    assert (h ∉ take (fetchRoom w) attempts) as Hnot.
    { intros Hin'. rewrite <- (take_drop (fetchRoom w) attempts) in Hnd.
      apply NoDup_app in Hnd as (_ & Hdisj & _). by eapply Hdisj. }
    rewrite decide_False by done.
    assert (h ∈ attempts) as Hatt.
    { rewrite <- (take_drop (fetchRoom w) attempts). apply elem_of_app. by right. }
    apply Hwanted in Hatt. by destruct Hatt as (_ & _ & _ & Hfl & _).
  - intros h Hin. rewrite lookup_recordFetches. by rewrite decide_False.
Qed.

(** ** The loop over the updates of a vote request *)

Lemma elem_of_fst {V} (h : string) (u : V) (es : list (string * V)) :
  (h, u) ∈ es → h ∈ es.*1.
Proof using Type. intros Hin. apply list_elem_of_fmap. by exists (h, u). Qed.

(** When no update is current, the loop changes nothing and rejects. *)
Lemma applyUpdates_stale (es : list (string * @VoteUpdate Proof)) (acc : @voteLoop Proof) :
  (∀ h u, (h, u) ∈ es → ¬ current (lVersions acc) h u) →
  applyUpdates acc es
  = Some {| lProofs := lProofs acc;
            lVersions := lVersions acc;
            allAccepted := allAccepted acc && bool_decide (es = []);
            anyAdded := anyAdded acc |}.
Proof using Type.
  revert acc. induction es as [|[h0 u0] es IH]; intros acc Hstale; cbn [applyUpdates].
  - destruct acc; cbn. by rewrite andb_true_r.
  - unfold applyUpdate. cbv zeta. cbn [fst snd]. fold (current (lVersions acc) h0 u0).
    rewrite (bool_decide_eq_false_2 (current (lVersions acc) h0 u0)) by (apply Hstale; left).
    rewrite IH by (intros h u Hin; apply Hstale; by right). cbn.
    by rewrite !andb_false_r.
Qed.

(** What the loop does to each hash: an update whose previous version is
    the current one of its hash is stored, and the version of the hash
    goes up by one; any other hash keeps its proof and its version. *)
Lemma applyUpdates_spec (es : list (string * @VoteUpdate Proof)) :
  NoDup es.*1 →
  ∀ (acc : @voteLoop Proof) (g : gmap string Proof),
    lProofs acc = Some g →
    ∃ l g',
      applyUpdates acc es = Some l
      ∧ lProofs l = Some g'
      ∧ (∀ h u, (h, u) ∈ es → current (lVersions acc) h u →
           g' !! h = Some (UProof u)
           ∧ gomap.get (lVersions l) h
             = Some (u32 (default 0 (gomap.get (lVersions acc) h) + 1)))
      ∧ (∀ h u, (h, u) ∈ es → ¬ current (lVersions acc) h u →
           g' !! h = g !! h
           ∧ gomap.get (lVersions l) h = gomap.get (lVersions acc) h)
      ∧ (∀ h, h ∉ es.*1 →
           g' !! h = g !! h
           ∧ gomap.get (lVersions l) h = gomap.get (lVersions acc) h)
      ∧ (allAccepted l = true
         ↔ allAccepted acc = true ∧ ∀ h u, (h, u) ∈ es → current (lVersions acc) h u)
      ∧ (anyAdded l = true
         ↔ anyAdded acc = true ∨ ∃ h u, (h, u) ∈ es ∧ current (lVersions acc) h u).
Proof using Type.
  induction es as [|[h0 u0] es IH]; intros Hnd acc g Hg.
  - exists acc, g. cbn. split_and!; try done;
      try (intros h u Hin; by apply elem_of_nil in Hin).
    + split; [|by intros [? _]]. intros ?. split; [done|].
      intros h u Hin. by apply elem_of_nil in Hin.
    + split; [by left|]. intros [?|(h & u & Hin & _)]; [done|].
      by apply elem_of_nil in Hin.
  - cbn [fmap list_fmap fst] in Hnd. apply NoDup_cons in Hnd as [Hh0 Hnd].
    assert (∀ h u, (h, u) ∈ es → h ≠ h0) as Hne.
    { intros h u Hin ->. apply Hh0. by eapply elem_of_fst. }
    cbn [applyUpdates]. unfold applyUpdate. cbv zeta. cbn [fst snd].
    fold (current (lVersions acc) h0 u0).
    case_bool_decide as Hcur.
    + rewrite Hg. cbn [gomap.set].
      set (acc1 := {| lProofs := Some (<[h0:=UProof u0]> g);
                      lVersions := Some (<[h0:=u32 (default 0 (gomap.get (lVersions acc) h0) + 1)]>
                                           (gomap.entries (lVersions acc)));
                      allAccepted := allAccepted acc; anyAdded := true |}).
      assert (∀ h, h ≠ h0 → gomap.get (lVersions acc1) h = gomap.get (lVersions acc) h) as Hv.
      { intros h Hh. cbn. rewrite lookup_insert_ne by done. by rewrite get_entries. }
      assert (∀ h (u : @VoteUpdate Proof), h ≠ h0 →
                current (lVersions acc1) h u ↔ current (lVersions acc) h u) as Hc1.
      { intros h u Hh. unfold current. by rewrite Hv. }
      destruct (IH Hnd acc1 _ eq_refl) as (l & g' & Hrun & Hl & Ha & Hb & Hc & Hd & He).
      rewrite Hrun. exists l, g'. split_and!; try done.
      * intros h u [[= -> ->]|Hin]%elem_of_cons Hcu.
        -- destruct (Hc h0 Hh0) as [Hp Hvv]. rewrite Hp, Hvv. cbn.
           by rewrite !lookup_insert_eq.
        -- pose proof (Hne _ _ Hin) as Hh.
           destruct (Ha h u Hin) as [Hp Hvv]; [by apply Hc1|].
           by rewrite Hp, Hvv, Hv.
      * intros h u [[= -> ->]|Hin]%elem_of_cons Hcu; [done|].
        pose proof (Hne _ _ Hin) as Hh.
        destruct (Hb h u Hin) as [Hp Hvv]; [by rewrite Hc1|].
        rewrite Hp, Hvv, Hv by done. cbn. by rewrite lookup_insert_ne.
      * intros h Hh. cbn [fmap list_fmap fst] in Hh.
        apply not_elem_of_cons in Hh as [Hh Hrest].
        destruct (Hc h Hrest) as [Hp Hvv].
        rewrite Hp, Hvv, Hv by done. cbn. by rewrite lookup_insert_ne.
      * rewrite Hd. cbn. split.
        -- intros [Hacc Hall]. split; [done|].
           intros h u [[= -> ->]|Hin]%elem_of_cons; [done|].
           apply Hc1; eauto.
        -- intros [Hacc Hall]. split; [done|].
           intros h u Hin. apply Hc1; [eauto|]. apply Hall. by right.
      * rewrite He. cbn. split; [|by left]. intros _. right.
        exists h0, u0. split; [left|done].
    + set (acc1 := {| lProofs := lProofs acc; lVersions := lVersions acc;
                      allAccepted := false; anyAdded := anyAdded acc |}).
      destruct (IH Hnd acc1 g Hg) as (l & g' & Hrun & Hl & Ha & Hb & Hc & Hd & He).
      rewrite Hrun. exists l, g'. cbn in *. split_and!; try done.
      * intros h u [[= -> ->]|Hin]%elem_of_cons Hcu; [done|]. by apply (Ha h u).
      * intros h u [[= -> ->]|Hin]%elem_of_cons Hcu; [by apply Hc|]. by apply (Hb h u).
      * intros h Hh. apply not_elem_of_cons in Hh as [Hh Hrest]. by apply Hc.
      * rewrite Hd. split; [by intros [? _]|].
        intros [_ Hall]. exfalso. apply Hcur. apply (Hall h0 u0). left.
      * rewrite He. split.
        -- intros [?|(h & u & Hin & Hcu)]; [by left|]. right. exists h, u. split; [by right|done].
        -- intros [?|(h & u & [[= -> ->]|Hin]%elem_of_cons & Hcu)]; [by left|done|].
           right. eauto.
Qed.

(** ** Votes for a view that is out of date *)

Lemma respond_run (ch : option Chan) (res : AddVoteResult) (w : @World Proof) :
  respond ch res w
  = Ok (tt, {| state := state w; trace := trace w ++ replyOn ch res;
               fetchRoom := fetchRoom w |}).
Proof using Type.
  destruct ch; cbn; [done|]. by rewrite app_nil_r, world_eta.
Qed.

Lemma addPrevote_out_of_date (req : AddPrevoteRequest) (w : @World Proof) :
  let st := fvStatus (FindView (state w) (PvH req) (PvR req) "(*Kernel).addPrevote") in
  st = ViewBeforeCommitting ∨ st = ViewOrphaned →
  addPrevote FindView newVoteDistribution k req w
  = Ok (tt, {| state := state w;
               trace := trace w ++ replyOn (PvResponse req) AddVoteOutOfDate;
               fetchRoom := fetchRoom w |}).
Proof using Type.
  intros st Hst. unfold addPrevote, ingestPrevotes, mbind, K_bind, bind at 1 2, getS.
  fold st. destruct Hst as [-> | ->];
    unfold bind; rewrite respond_run; reflexivity.
Qed.

Lemma addPrecommit_out_of_date (req : AddPrecommitRequest) (w : @World Proof) :
  let st := fvStatus (FindView (state w) (PcH req) (PcR req) "(*Kernel).addPrecommit") in
  st = ViewBeforeCommitting ∨ st = ViewOrphaned →
  addPrecommit FindView newVoteDistribution k req w
  = Ok (tt, {| state := state w;
               trace := trace w ++ replyOn (PcResponse req) AddVoteOutOfDate;
               fetchRoom := fetchRoom w |}).
Proof using Type.
  intros st Hst. unfold addPrecommit, ingestPrecommits, mbind, K_bind, bind at 1 2, getS.
  fold st. destruct Hst as [-> | ->];
    unfold bind; rewrite respond_run; reflexivity.
Qed.

(** ** Votes with stale versions *)

Lemma setViewAt_id (s : @kState Proof) (ref : ViewRef) :
  setViewAt s ref (withVRV (viewAt s ref) (VRV (viewAt s ref))) = s.
Proof using Type. destruct s as [[] [] [] ? ? ? ?], ref; reflexivity. Qed.

Lemma setPrevotes_id (vrv : VersionedRoundView Proof) :
  setPrevoteBlockVersions
    (withRV vrv (setPrevoteProofs (RV vrv) (PrevoteProofs (RV vrv))))
    (PrevoteBlockVersions vrv) = vrv.
Proof using Type. destruct vrv as [[] ? ? ? ? ?]; reflexivity. Qed.

Lemma setPrecommits_id (vrv : VersionedRoundView Proof) :
  setPrecommitBlockVersions
    (withRV vrv (setPrecommitProofs (RV vrv) (PrecommitProofs (RV vrv))))
    (PrecommitBlockVersions vrv) = vrv.
Proof using Type. destruct vrv as [[] ? ? ? ? ?]; reflexivity. Qed.

Lemma stale_range {V} (order : list string) (m : GoMap V) (P : string → V → Prop) :
  (∀ h u, gomap.get m h = Some u → P h u) →
  ∀ h u, (h, u) ∈ gomap.range order m → P h u.
Proof using Type. intros HP h u Hin. apply HP. by apply elem_of_range in Hin. Qed.

Lemma addPrevote_stale (req : AddPrevoteRequest) (ref : ViewRef) (w : @World Proof) :
  let s := state w in
  let fv := FindView s (PvH req) (PvR req) "(*Kernel).addPrevote" in
  let vrv := VRV (viewAt s ref) in
  fvStatus fv = ViewFound →
  knownViewID (fvID fv) = true →
  fvView fv = Some ref →
  gomap.entries (PrevoteUpdates req) ≠ ∅ →
  (∀ h u, gomap.get (PrevoteUpdates req) h = Some u →
          ¬ current (PrevoteBlockVersions vrv) h u) →
  gomap.len (PrevoteProofs (RV vrv)) ≠ 0%nat →
  ∃ w' t,
    addPrevote FindView newVoteDistribution k req w = Ok (tt, w')
    ∧ sameViews s (state w')
    ∧ trace w' = trace w ++ replyOn (PvResponse req) AddVoteConflict ++ t
    ∧ Forall isFetchEvent t.
Proof using Type.
  intros s fv vrv Hst Hid Href Hne Hstale Hlen.
  unfold addPrevote, ingestPrevotes, mbind, K_bind, bind at 1 2, getS.
  fold s. fold fv. rewrite Hst, Hid, Href. cbn [negb]. fold vrv.
  rewrite applyUpdates_stale by (cbn [lVersions]; by apply stale_range).
  cbn [lProofs lVersions allAccepted anyAdded andb].
  rewrite bool_decide_eq_false_2 by (by rewrite range_nil).
  rewrite setPrevotes_id. unfold vrv. rewrite setViewAt_id.
  unfold bind, putS, mret, K_ret, ret. cbn [resultOf allAccepted].
  rewrite respond_run. cbn [state trace fetchRoom].
  unfold afterPrevotes, mbind, K_bind, bind, getS. cbn [state].
  edestruct (checkMissingPBs_frame (PrevoteProofs (RV (VRV (viewAt s ref)))))
    as (w' & -> & [Hsame (t & Ht & Hfetch)]); [done|].
  cbn [andb bool_decide]. exists w', t. cbn in Ht, Hsame.
  split_and!; [done|done| |done]. by rewrite Ht, app_assoc.
Qed.

Lemma addPrecommit_stale (req : AddPrecommitRequest) (ref : ViewRef) (w : @World Proof) :
  let s := state w in
  let fv := FindView s (PcH req) (PcR req) "(*Kernel).addPrecommit" in
  let vrv := VRV (viewAt s ref) in
  fvStatus fv = ViewFound →
  knownViewID (fvID fv) = true →
  fvView fv = Some ref →
  gomap.entries (PrecommitUpdates req) ≠ ∅ →
  (∀ h u, gomap.get (PrecommitUpdates req) h = Some u →
          ¬ current (PrecommitBlockVersions vrv) h u) →
  gomap.len (PrecommitProofs (RV vrv)) ≠ 0%nat →
  ∃ w' t,
    addPrecommit FindView newVoteDistribution k req w = Ok (tt, w')
    ∧ sameViews s (state w')
    ∧ trace w' = trace w ++ replyOn (PcResponse req) AddVoteConflict ++ t
    ∧ Forall isFetchEvent t.
Proof using Type.
  intros s fv vrv Hst Hid Href Hne Hstale Hlen.
  unfold addPrecommit, ingestPrecommits, mbind, K_bind, bind at 1 2, getS.
  fold s. fold fv. rewrite Hst, Hid, Href. cbn [negb]. fold vrv.
  rewrite applyUpdates_stale by (cbn [lVersions]; by apply stale_range).
  cbn [lProofs lVersions allAccepted anyAdded andb].
  rewrite bool_decide_eq_false_2 by (by rewrite range_nil).
  rewrite setPrecommits_id. unfold vrv. rewrite setViewAt_id.
  unfold bind, putS, mret, K_ret, ret. cbn [resultOf allAccepted].
  rewrite respond_run. cbn [state trace fetchRoom].
  unfold afterPrecommits, mbind, K_bind, bind, getS. cbn [state].
  edestruct (checkMissingPBs_frame (PrecommitProofs (RV (VRV (viewAt s ref)))))
    as (w' & -> & [Hsame (t & Ht & Hfetch)]); [done|].
  cbn [negb bool_decide]. exists w', t. cbn in Ht, Hsame.
  split_and!; [done|done| |done]. by rewrite Ht, app_assoc.
Qed.

(** C5. A request to add prevotes, or precommits, on a found view, all
    of whose updates carry a previous version other than the current
    version of their hash, is answered Conflict, and leaves every view
    as it was: no proof is installed, no version changes, the vote
    summary and the outgoing copy are untouched.  Nothing is persisted:
    after the reply, the trace only grows by the fetch orchestration
    that follows every vote request.
    (The request has at least one update, and the proof map of the view
    has an entry, as every initialized view's has.) *)
Theorem stale_votes_conflict (pv : AddPrevoteRequest) (pc : AddPrecommitRequest)
    (ref : ViewRef) (w : @World Proof) :
  let s := state w in
  let vrv := VRV (viewAt s ref) in
  let pvLookup := FindView s (PvH pv) (PvR pv) "(*Kernel).addPrevote" in
  let pcLookup := FindView s (PcH pc) (PcR pc) "(*Kernel).addPrecommit" in
  (fvStatus pvLookup = ViewFound →
   knownViewID (fvID pvLookup) = true →
   fvView pvLookup = Some ref →
   gomap.entries (PrevoteUpdates pv) ≠ ∅ →
   (∀ h u, gomap.get (PrevoteUpdates pv) h = Some u →
           PrevVersion u ≠ default 0 (gomap.get (PrevoteBlockVersions vrv) h)) →
   gomap.len (PrevoteProofs (RV vrv)) ≠ 0%nat →
   ∃ w' t,
     addPrevote FindView newVoteDistribution k pv w = Ok (tt, w')
     ∧ sameViews s (state w')
     ∧ trace w' = trace w ++ replyOn (PvResponse pv) AddVoteConflict ++ t
     ∧ Forall isFetchEvent t)
  ∧ (fvStatus pcLookup = ViewFound →
     knownViewID (fvID pcLookup) = true →
     fvView pcLookup = Some ref →
     gomap.entries (PrecommitUpdates pc) ≠ ∅ →
     (∀ h u, gomap.get (PrecommitUpdates pc) h = Some u →
             PrevVersion u ≠ default 0 (gomap.get (PrecommitBlockVersions vrv) h)) →
     gomap.len (PrecommitProofs (RV vrv)) ≠ 0%nat →
     ∃ w' t,
       addPrecommit FindView newVoteDistribution k pc w = Ok (tt, w')
       ∧ sameViews s (state w')
       ∧ trace w' = trace w ++ replyOn (PcResponse pc) AddVoteConflict ++ t
       ∧ Forall isFetchEvent t).
Proof using Type.
  cbn zeta. split; intros; [by eapply addPrevote_stale|by eapply addPrecommit_stale].
Qed.

(** ** Duplicate proposed blocks *)

Lemma existsb_sameSignature (pb : ProposedBlock) (pbs : list ProposedBlock) :
  existsb (sameSignature pb) pbs = true
  ↔ ∃ have, have ∈ pbs ∧ Signature have = Signature pb.
Proof using Type.
  induction pbs as [|x pbs IH]; cbn.
  - split; [done|]. intros (have & Hin & _). by apply elem_of_nil in Hin.
  - rewrite orb_true_iff, IH. unfold sameSignature. rewrite bool_decide_eq_true. split.
    + intros [Hx|(have & Hin & Heq)]; [exists x; split; [left|done]|].
      exists have. split; [by right|done].
    + intros (have & [->|Hin]%elem_of_cons & Heq); [by left|]. right. eauto.
Qed.

(** C7. A proposed block handed to addPB whose height and round match a
    view, and whose signature is that of a proposed block already in
    that view, is dropped silently: all three views (proposed blocks,
    proofs, versions, outgoing copies) stay as they are, nothing is
    persisted and nothing is logged.  The only effect is the one addPB
    starts with: an outstanding fetch of the block is cancelled and
    forgotten. *)
Theorem addPB_duplicate (pb : ProposedBlock) (ref : ViewRef) (w : @World Proof) :
  let s := state w in
  let hash := Hash (PBBlock pb) in
  let s1 := setInFlightFetchPBs s (delete hash (InFlightFetchPBs s)) in
  fvView (FindView s1 (BHeight (PBBlock pb)) (PBRound pb) "(*Kernel).addPB") = Some ref →
  (∃ have, have ∈ ProposedBlocks (RV (VRV (viewAt s ref)))
           ∧ Signature have = Signature pb) →
  addPB FindView k pb w
  = Ok (tt,
        {| state := s1;
           trace := trace w ++ match InFlightFetchPBs s !! hash with
                               | Some cancel => [CallCancel cancel]
                               | None => []
                               end;
           fetchRoom := fetchRoom w |})
  ∧ sameViews s s1
  ∧ InFlightFetchPBs s1 !! hash = None.
Proof using Type.
  intros s hash s1 Hview Hdup. apply existsb_sameSignature in Hdup.
  split; [|split; [by repeat split|apply lookup_delete_eq]].
  unfold addPB, mbind, K_bind, bind at 1, getS. fold s. fold hash.
  destruct (InFlightFetchPBs s !! hash) as [cancel|] eqn:Hfl.
  - unfold bind, emit, putS, getS. cbn [state trace fetchRoom]. fold s1.
    rewrite Hview.
    replace (viewAt s1 ref) with (viewAt s ref) by (by destruct ref).
    by rewrite Hdup.
  - unfold bind, mret, K_ret, ret, getS. fold s.
    assert (s1 = s) as Hs1.
    { unfold s1. rewrite delete_id by done. apply setInFlight_id. }
    rewrite Hs1 in Hview. rewrite Hview, Hdup, Hs1, app_nil_r. unfold s. by rewrite world_eta.
Qed.

(** ** The check of state-machine actions *)

Lemma avoids_ret {A} (msgs : list string) (a : A) : avoids msgs (@ret Proof A a).
Proof using Type. by intros w msg. Qed.

Lemma avoids_bind {A B} (msgs : list string) (m : @K Proof A) (f : A → @K Proof B) :
  avoids msgs m → (∀ a, avoids msgs (f a)) → avoids msgs (bind m f).
Proof using Type.
  intros Hm Hf w msg. unfold bind. destruct (m w) as [[a w']|msg'] eqn:E.
  - apply Hf.
  - intros [= <-]. by eapply Hm.
Qed.

Lemma avoids_panic {A} (msgs : list string) (msg : string) :
  msg ∉ msgs → avoids msgs (@panic Proof A msg).
Proof using Type. by intros Hm w msg' [= <-]. Qed.

Lemma avoids_getS (msgs : list string) : avoids msgs (@getS Proof).
Proof using Type. by intros w msg. Qed.

Lemma avoids_putS (msgs : list string) (s : @kState Proof) : avoids msgs (putS s).
Proof using Type. by intros w msg. Qed.

Lemma avoids_emit (msgs : list string) (e : @Event Proof) : avoids msgs (emit e).
Proof using Type. by intros w msg. Qed.

Lemma avoids_getRoom (msgs : list string) : avoids msgs (@getRoom Proof).
Proof using Type. by intros w msg. Qed.

Lemma avoids_putRoom (msgs : list string) (n : nat) : avoids msgs (@putRoom Proof n).
Proof using Type. by intros w msg. Qed.

Lemma avoids_respond (msgs : list string) (ch : option Chan) (res : AddVoteResult) :
  avoids msgs (@respond Proof ch res).
Proof using Type. destruct ch; [apply avoids_emit|apply avoids_ret]. Qed.

Lemma other_panic (msg : string) : bool_decide (msg ∉ checkPanics) = true → msg ∉ checkPanics.
Proof using Type. apply bool_decide_eq_true_1. Qed.

(** One step of the walk through a kernel function. *)
Ltac avoids_step :=
  lazymatch goal with
  | |- avoids _ (bind _ _) => apply avoids_bind; [|intros ?]
  | |- avoids _ (ret _) => apply avoids_ret
  | |- avoids _ (mret _) => apply avoids_ret
  | |- avoids _ (mbind _ _) => unfold mbind, K_bind
  | |- avoids _ (panic _) => apply avoids_panic, other_panic; vm_compute; reflexivity
  | |- avoids _ getS => apply avoids_getS
  | |- avoids _ (putS _) => apply avoids_putS
  | |- avoids _ (emit _) => apply avoids_emit
  | |- avoids _ getRoom => apply avoids_getRoom
  | |- avoids _ (putRoom _) => apply avoids_putRoom
  | |- avoids _ (respond _ _) => apply avoids_respond
  | |- avoids _ (when ?b _) => destruct b; cbn [when]
  | |- avoids _ (logShiftError _ ?e) => destruct e; cbn [logShiftError]
  | |- avoids _ (if ?b then _ else _) => destruct b
  | |- avoids _ (match ?x with _ => _ end) => destruct x
  | |- avoids _ (let '(_, _) := ?x in _) => destruct x
  end.

Ltac avoids_walk := unfold mbind, K_bind, mret, K_ret; repeat avoids_step.

Lemma avoids_advanceVotingRound : avoids checkPanics (advanceVotingRound k).
Proof using Type. unfold advanceVotingRound. avoids_walk. Qed.

Lemma avoids_fetchLoop (dist : voteDistribution) (min : Z) (hs : list string) :
  avoids checkPanics (fetchLoop k dist min hs).
Proof using Type.
  induction hs as [|h hs IH]; cbn [fetchLoop]; avoids_walk; try exact IH.
Qed.

Lemma avoids_checkMissingPBs (proofs : GoMap Proof) :
  avoids checkPanics (checkMissingPBs newVoteDistribution k proofs).
Proof using Type. unfold checkMissingPBs. avoids_walk. apply avoids_fetchLoop. Qed.

Lemma avoids_checkVotingPrecommitViewShift :
  avoids checkPanics (checkVotingPrecommitViewShift k).
Proof using Type.
  unfold checkVotingPrecommitViewShift. avoids_walk; apply avoids_advanceVotingRound.
Qed.

Lemma avoids_checkNextRoundPrecommitViewShift :
  avoids checkPanics (checkNextRoundPrecommitViewShift newVoteDistribution k).
Proof using Type.
  unfold checkNextRoundPrecommitViewShift.
  avoids_walk; first [apply avoids_advanceVotingRound|apply avoids_checkMissingPBs].
Qed.

Lemma avoids_checkPrevoteViewShift (vID : ViewID) :
  avoids checkPanics (checkPrevoteViewShift newVoteDistribution k vID).
Proof using Type.
  unfold checkPrevoteViewShift.
  avoids_walk; first [apply avoids_advanceVotingRound|apply avoids_checkMissingPBs].
Qed.

Lemma avoids_backfill (pb : ProposedBlock) : avoids checkPanics (backfill k pb).
Proof using Type. unfold backfill. avoids_walk. Qed.

Lemma avoids_addPB (pb : ProposedBlock) : avoids checkPanics (addPB FindView k pb).
Proof using Type.
  unfold addPB.
  avoids_walk; first [apply avoids_backfill|apply avoids_checkVotingPrecommitViewShift].
Qed.

Lemma avoids_addPrevote (req : AddPrevoteRequest) :
  avoids checkPanics (addPrevote FindView newVoteDistribution k req).
Proof using Type.
  unfold addPrevote, ingestPrevotes, afterPrevotes.
  avoids_walk; first [apply avoids_checkMissingPBs|apply avoids_checkPrevoteViewShift].
Qed.

Lemma avoids_addPrecommit (req : AddPrecommitRequest) :
  avoids checkPanics (addPrecommit FindView newVoteDistribution k req).
Proof using Type.
  unfold addPrecommit, ingestPrecommits, afterPrecommits.
  avoids_walk;
    first [apply avoids_checkMissingPBs
          |apply avoids_checkVotingPrecommitViewShift
          |apply avoids_checkNextRoundPrecommitViewShift].
Qed.

(** C9, as the code has it.  handleStateMachineAction panics when the
    round action holds none of a proposed block, a prevote and a
    precommit, and when it holds a proposed block together with a
    prevote or a precommit.  When it holds a prevote and a precommit but
    no proposed block, it panics only if the state machine's height and
    round resolve to the voting or the committing view; otherwise the
    action is dropped with a log entry, before the check is reached.
    When exactly one of the three is present, none of the three panics
    of the check occurs. *)
Theorem action_check (act : StateMachineRoundAction) (w : @World Proof) :
  let s := state w in
  let fv := FindView s (smH (StateMachineView s)) (smR (StateMachineView s))
              "(*Kernel).handleStateMachineAction" in
  let run := handleStateMachineAction FindView newVoteDistribution k act w in
  (hasPB act = false → hasPrevote act = false → hasPrecommit act = false →
   run = Panic noActionMsg)
  ∧ (hasPB act = true → hasPrevote act || hasPrecommit act = true →
     run = Panic multiplePBMsg)
  ∧ (hasPB act = false → hasPrevote act = true → hasPrecommit act = true →
     run = if votingOrCommitting fv
           then Panic multipleVotesMsg
           else Ok (tt, {| state := s;
                           trace := trace w ++ [LogInfo droppedVoteMsg];
                           fetchRoom := fetchRoom w |}))
  ∧ ((hasPB act, hasPrevote act, hasPrecommit act)
       ∈ [(true, false, false); (false, true, false); (false, false, true)] →
     ∀ msg, run = Panic msg → msg ∉ checkPanics).
Proof using Type.
  intros s fv run. unfold run, handleStateMachineAction. split_and!.
  - by intros -> -> ->.
  - by intros -> ->.
  - intros -> -> ->. cbn [orb negb].
    unfold mbind, K_bind, bind, getS. fold s. fold fv. unfold votingOrCommitting.
    destruct (fvView fv) as [ref|]; [|done].
    rewrite (bool_decide_eq_true_2 (is_Some (Some ref))) by eauto. cbn [andb].
    destruct (fvID fv); cbn; done.
  - intros Hone msg.
    assert (avoids checkPanics (handleStateMachineAction FindView newVoteDistribution k act))
      as Hav; [|apply Hav].
    unfold handleStateMachineAction.
    repeat (apply elem_of_cons in Hone as [[= -> -> ->]|Hone]; [cbn [orb negb]|]);
      [| | |by apply elem_of_nil in Hone].
    + apply avoids_addPB.
    + avoids_walk; apply avoids_addPrevote.
    + avoids_walk; apply avoids_addPrecommit.
Qed.

(** ** Installing votes *)

Lemma applyUpdates_installed (order : list string) (updates : GoMap VoteUpdate)
    (g : gmap string Proof) (versions : GoMap Z) :
  ∃ l,
    applyUpdates
      {| lProofs := Some g; lVersions := versions; allAccepted := true; anyAdded := false |}
      (gomap.range order updates) = Some l
    ∧ installed updates (Some g) (lProofs l) versions (lVersions l)
    ∧ (allAccepted l = true ↔ allCurrent updates versions)
    ∧ (anyAdded l = true ↔ anyCurrent updates versions).
Proof using Type.
  destruct (applyUpdates_spec (gomap.range order updates) (NoDup_range order updates)
              {| lProofs := Some g; lVersions := versions;
                 allAccepted := true; anyAdded := false |} g eq_refl)
    as (l & g' & Hrun & Hl & Ha & Hb & Hc & Hd & He).
  cbn [lVersions allAccepted anyAdded] in *.
  exists l. split; [done|]. rewrite Hl. split_and!.
  - intros h. destruct (gomap.get updates h) as [u|] eqn:Hu.
    + apply (elem_of_range order) in Hu. case_decide; [by apply (Ha h u)|by apply (Hb h u)].
    + apply Hc. intros (e & Heq & Hin)%list_elem_of_fmap. destruct e as [h' u].
      cbn in Heq. subst h'. apply elem_of_range in Hin. congruence.
  - rewrite Hd. unfold allCurrent. split.
    + intros [_ Hall] h u Hu. apply Hall. by apply elem_of_range.
    + intros Hall. split; [done|]. intros h u Hin. apply Hall. by apply elem_of_range in Hin.
  - rewrite He. unfold anyCurrent. split.
    + intros [?|(h & u & Hin & Hcu)]; [done|]. exists h, u. by apply elem_of_range in Hin.
    + intros (h & u & Hu & Hcu). right. exists h, u. split; [|done]. by apply elem_of_range.
Qed.

Lemma ingestPrevotes_found (req : AddPrevoteRequest) (ref : ViewRef)
    (g : gmap string Proof) (w : @World Proof) :
  let s := state w in
  let fv := FindView s (PvH req) (PvR req) "(*Kernel).addPrevote" in
  let view := viewAt s ref in
  let vrv := VRV view in
  fvStatus fv = ViewFound →
  knownViewID (fvID fv) = true →
  fvView fv = Some ref →
  PrevoteProofs (RV vrv) = Some g →
  ∃ proofs' versions' res view' persisted,
    let vrv' :=
      setPrevoteBlockVersions (withRV vrv (setPrevoteProofs (RV vrv) proofs')) versions' in
    ingestPrevotes FindView k req w
    = Ok (Some (ref, fvID fv, res),
          {| state := setViewAt s ref view';
             trace := trace w ++ persisted ++ replyOn (PvResponse req) res;
             fetchRoom := fetchRoom w |})
    ∧ installed (PrevoteUpdates req) (PrevoteProofs (RV vrv)) proofs'
        (PrevoteBlockVersions vrv) versions'
    ∧ (res = AddVoteAccepted ↔ allCurrent (PrevoteUpdates req) (PrevoteBlockVersions vrv))
    ∧ (res = AddVoteConflict ↔ ¬ allCurrent (PrevoteUpdates req) (PrevoteBlockVersions vrv))
    ∧ ((anyCurrent (PrevoteUpdates req) (PrevoteBlockVersions vrv)
        ∧ view' = UpdateOutgoing (withVRV view (withPrevotePowers vrv'))
        ∧ persisted
          = OverwritePrevoteProofs (PvH req) (PvR req) proofs'
            :: (if OverwritePrevoteProofsFails k (PvH req) (PvR req) proofs'
                then [LogWarn savePrevotesFailedMsg]
                else []))
       ∨ (¬ anyCurrent (PrevoteUpdates req) (PrevoteBlockVersions vrv)
          ∧ view' = withVRV view vrv'
          ∧ persisted = [])).
Proof using Type.
  intros s fv view vrv Hst Hid Href Hg.
  unfold ingestPrevotes, mbind, K_bind, bind at 1, getS.
  fold s. fold fv. rewrite Hst, Hid, Href. cbn [negb]. fold view. fold vrv. rewrite Hg.
  destruct (applyUpdates_installed (rangeOrder k) (PrevoteUpdates req) g
              (PrevoteBlockVersions vrv)) as (l & -> & Hinst & Hall & Hany).
  assert (resultOf l = AddVoteAccepted ↔ allCurrent (PrevoteUpdates req) (PrevoteBlockVersions vrv))
    as Hacc.
  { rewrite <- Hall. unfold resultOf. by destruct (allAccepted l). }
  assert (resultOf l = AddVoteConflict ↔ ¬ allCurrent (PrevoteUpdates req) (PrevoteBlockVersions vrv))
    as Hcon.
  { rewrite <- Hall. unfold resultOf. by destruct (allAccepted l). }
  exists (lProofs l), (lVersions l), (resultOf l).
  set (vrv' := setPrevoteBlockVersions
                 (withRV vrv (setPrevoteProofs (RV vrv) (lProofs l))) (lVersions l)).
  destruct (anyAdded l) eqn:Hadded.
  - exists (UpdateOutgoing (withVRV view (withPrevotePowers vrv'))),
           (OverwritePrevoteProofs (PvH req) (PvR req) (lProofs l)
            :: (if OverwritePrevoteProofsFails k (PvH req) (PvR req) (lProofs l)
                then [LogWarn savePrevotesFailedMsg] else [])).
    cbn zeta. split; [|split_and!; [done|done|done|]].
    + unfold bind, putS, emit, when, mret, K_ret, ret.
      change (PrevoteProofs (RV (withRV vrv' _))) with (lProofs l).
      cbn [state trace fetchRoom].
      destruct (OverwritePrevoteProofsFails k (PvH req) (PvR req) (lProofs l));
        rewrite respond_run; cbn [state trace fetchRoom app]; by rewrite <- !app_assoc.
    + left. split; [by apply Hany|]. done.
  - exists (withVRV view vrv'), []. cbn zeta. split; [|split_and!; [done|done|done|]].
    + unfold bind, putS, mret, K_ret, ret.
      cbn [state trace fetchRoom]. rewrite respond_run. done.
    + right. split; [|done]. intros Hc. by apply Hany in Hc.
Qed.

Lemma ingestPrecommits_found (req : AddPrecommitRequest) (ref : ViewRef)
    (g : gmap string Proof) (w : @World Proof) :
  let s := state w in
  let fv := FindView s (PcH req) (PcR req) "(*Kernel).addPrecommit" in
  let view := viewAt s ref in
  let vrv := VRV view in
  fvStatus fv = ViewFound →
  knownViewID (fvID fv) = true →
  fvView fv = Some ref →
  PrecommitProofs (RV vrv) = Some g →
  ∃ proofs' versions' res view' persisted,
    let vrv' :=
      setPrecommitBlockVersions (withRV vrv (setPrecommitProofs (RV vrv) proofs')) versions' in
    ingestPrecommits FindView k req w
    = Ok (Some (ref, fvID fv, res),
          {| state := setViewAt s ref view';
             trace := trace w ++ persisted ++ replyOn (PcResponse req) res;
             fetchRoom := fetchRoom w |})
    ∧ installed (PrecommitUpdates req) (PrecommitProofs (RV vrv)) proofs'
        (PrecommitBlockVersions vrv) versions'
    ∧ (res = AddVoteAccepted ↔ allCurrent (PrecommitUpdates req) (PrecommitBlockVersions vrv))
    ∧ (res = AddVoteConflict ↔ ¬ allCurrent (PrecommitUpdates req) (PrecommitBlockVersions vrv))
    ∧ ((anyCurrent (PrecommitUpdates req) (PrecommitBlockVersions vrv)
        ∧ view' = UpdateOutgoing (withVRV view (withPrecommitPowers vrv'))
        ∧ persisted
          = OverwritePrecommitProofs (PcH req) (PcR req) proofs'
            :: (if OverwritePrecommitProofsFails k (PcH req) (PcR req) proofs'
                then [LogWarn savePrecommitsFailedMsg]
                else []))
       ∨ (¬ anyCurrent (PrecommitUpdates req) (PrecommitBlockVersions vrv)
          ∧ view' = withVRV view vrv'
          ∧ persisted = [])).
Proof using Type.
  intros s fv view vrv Hst Hid Href Hg.
  unfold ingestPrecommits, mbind, K_bind, bind at 1, getS.
  fold s. fold fv. rewrite Hst, Hid, Href. cbn [negb]. fold view. fold vrv. rewrite Hg.
  destruct (applyUpdates_installed (rangeOrder k) (PrecommitUpdates req) g
              (PrecommitBlockVersions vrv)) as (l & -> & Hinst & Hall & Hany).
  assert (resultOf l = AddVoteAccepted ↔ allCurrent (PrecommitUpdates req) (PrecommitBlockVersions vrv))
    as Hacc.
  { rewrite <- Hall. unfold resultOf. by destruct (allAccepted l). }
  assert (resultOf l = AddVoteConflict ↔ ¬ allCurrent (PrecommitUpdates req) (PrecommitBlockVersions vrv))
    as Hcon.
  { rewrite <- Hall. unfold resultOf. by destruct (allAccepted l). }
  exists (lProofs l), (lVersions l), (resultOf l).
  set (vrv' := setPrecommitBlockVersions
                 (withRV vrv (setPrecommitProofs (RV vrv) (lProofs l))) (lVersions l)).
  destruct (anyAdded l) eqn:Hadded.
  - exists (UpdateOutgoing (withVRV view (withPrecommitPowers vrv'))),
           (OverwritePrecommitProofs (PcH req) (PcR req) (lProofs l)
            :: (if OverwritePrecommitProofsFails k (PcH req) (PcR req) (lProofs l)
                then [LogWarn savePrecommitsFailedMsg] else [])).
    cbn zeta. split; [|split_and!; [done|done|done|]].
    + unfold bind, putS, emit, when, mret, K_ret, ret.
      change (PrecommitProofs (RV (withRV vrv' _))) with (lProofs l).
      cbn [state trace fetchRoom].
      destruct (OverwritePrecommitProofsFails k (PcH req) (PcR req) (lProofs l));
        rewrite respond_run; cbn [state trace fetchRoom app]; by rewrite <- !app_assoc.
    + left. split; [by apply Hany|]. done.
  - exists (withVRV view vrv'), []. cbn zeta. split; [|split_and!; [done|done|done|]].
    + unfold bind, putS, mret, K_ret, ret.
      cbn [state trace fetchRoom]. rewrite respond_run. done.
    + right. split; [|done]. intros Hc. by apply Hany in Hc.
Qed.

(** X30. On a request to add prevotes (and likewise precommits) whose
    height and round resolve to a found view with an allocated proof
    map, each update is installed exactly when its previous version is
    the current version of its hash in the view; an installed update is
    stored as the proof of its hash and raises the version of that hash
    by one (in 32 bits), and every other hash keeps its proof and its
    version; the reply on the response channel is Accepted when every
    update was installed and Conflict otherwise.  When an update was
    installed the vote summary is recomputed, the view is handed to
    UpdateOutgoing and the whole proof map is persisted; when none was,
    nothing is persisted and the view is not handed to UpdateOutgoing.
    The fetch of missing blocks and the view shift follow. *)
Theorem vote_updates_installed (pv : AddPrevoteRequest) (pc : AddPrecommitRequest)
    (ref : ViewRef) (g : gmap string Proof) (w : @World Proof) :
  let s := state w in
  let view := viewAt s ref in
  let vrv := VRV view in
  let pvLookup := FindView s (PvH pv) (PvR pv) "(*Kernel).addPrevote" in
  let pcLookup := FindView s (PcH pc) (PcR pc) "(*Kernel).addPrecommit" in
  (fvStatus pvLookup = ViewFound →
   knownViewID (fvID pvLookup) = true →
   fvView pvLookup = Some ref →
   PrevoteProofs (RV vrv) = Some g →
   ∃ proofs' versions' res view' persisted,
     let vrv' :=
       setPrevoteBlockVersions (withRV vrv (setPrevoteProofs (RV vrv) proofs')) versions' in
     let w' := {| state := setViewAt s ref view';
                  trace := trace w ++ persisted ++ replyOn (PvResponse pv) res;
                  fetchRoom := fetchRoom w |} in
     addPrevote FindView newVoteDistribution k pv w
     = afterPrevotes newVoteDistribution k (Some (ref, fvID pvLookup, res)) w'
     ∧ installed (PrevoteUpdates pv) (PrevoteProofs (RV vrv)) proofs'
         (PrevoteBlockVersions vrv) versions'
     ∧ (res = AddVoteAccepted ↔ allCurrent (PrevoteUpdates pv) (PrevoteBlockVersions vrv))
     ∧ (res = AddVoteConflict ↔ ¬ allCurrent (PrevoteUpdates pv) (PrevoteBlockVersions vrv))
     ∧ ((anyCurrent (PrevoteUpdates pv) (PrevoteBlockVersions vrv)
         ∧ view' = UpdateOutgoing (withVRV view (withPrevotePowers vrv'))
         ∧ persisted
           = OverwritePrevoteProofs (PvH pv) (PvR pv) proofs'
             :: (if OverwritePrevoteProofsFails k (PvH pv) (PvR pv) proofs'
                 then [LogWarn savePrevotesFailedMsg]
                 else []))
        ∨ (¬ anyCurrent (PrevoteUpdates pv) (PrevoteBlockVersions vrv)
           ∧ view' = withVRV view vrv'
           ∧ persisted = [])))
  ∧ (fvStatus pcLookup = ViewFound →
     knownViewID (fvID pcLookup) = true →
     fvView pcLookup = Some ref →
     PrecommitProofs (RV vrv) = Some g →
     ∃ proofs' versions' res view' persisted,
       let vrv' :=
         setPrecommitBlockVersions (withRV vrv (setPrecommitProofs (RV vrv) proofs')) versions' in
       let w' := {| state := setViewAt s ref view';
                    trace := trace w ++ persisted ++ replyOn (PcResponse pc) res;
                    fetchRoom := fetchRoom w |} in
       addPrecommit FindView newVoteDistribution k pc w
       = afterPrecommits newVoteDistribution k (Some (ref, fvID pcLookup, res)) w'
       ∧ installed (PrecommitUpdates pc) (PrecommitProofs (RV vrv)) proofs'
           (PrecommitBlockVersions vrv) versions'
       ∧ (res = AddVoteAccepted ↔ allCurrent (PrecommitUpdates pc) (PrecommitBlockVersions vrv))
       ∧ (res = AddVoteConflict ↔ ¬ allCurrent (PrecommitUpdates pc) (PrecommitBlockVersions vrv))
       ∧ ((anyCurrent (PrecommitUpdates pc) (PrecommitBlockVersions vrv)
           ∧ view' = UpdateOutgoing (withVRV view (withPrecommitPowers vrv'))
           ∧ persisted
             = OverwritePrecommitProofs (PcH pc) (PcR pc) proofs'
               :: (if OverwritePrecommitProofsFails k (PcH pc) (PcR pc) proofs'
                   then [LogWarn savePrecommitsFailedMsg]
                   else []))
          ∨ (¬ anyCurrent (PrecommitUpdates pc) (PrecommitBlockVersions vrv)
             ∧ view' = withVRV view vrv'
             ∧ persisted = []))).
Proof using Type.
  cbn zeta. split; intros Hst Hid Href Hg.
  - destruct (ingestPrevotes_found pv ref g w Hst Hid Href Hg)
      as (proofs' & versions' & res & view' & persisted & Hrun & Hinst & Hacc & Hcon & Hcase).
    exists proofs', versions', res, view', persisted.
    split_and!; try done.
    unfold addPrevote, mbind, K_bind, bind. by rewrite Hrun.
  - destruct (ingestPrecommits_found pc ref g w Hst Hid Href Hg)
      as (proofs' & versions' & res & view' & persisted & Hrun & Hinst & Hacc & Hcon & Hcase).
    exists proofs', versions', res, view', persisted.
    split_and!; try done.
    unfold addPrecommit, mbind, K_bind, bind. by rewrite Hrun.
Qed.

End Properties.

Section OutOfDate.
Context {Proof : Type} {collab : Collaborators Proof}.
Variable newVoteDistribution : GoMap Proof → list Validator → voteDistribution.
Variable k : @Kernel Proof.

Lemma FindViewSpec_below_committing (s : @kState Proof) (h r : Z) (reason : string) :
  h < Height (RV (VRV (Committing s))) →
  fvStatus (FindViewSpec s h r reason) = ViewBeforeCommitting.
Proof using Type.
  intros Hlt. unfold FindViewSpec.
  by destruct (Z.ltb_spec h (Height (RV (VRV (Committing s))))); [|lia].
Qed.

(** C6. A request to add prevotes or precommits whose height and round
    resolve to the status BeforeCommitting or Orphaned is answered
    OutOfDate on its response channel, and changes nothing in the
    kernel: nothing is installed, persisted or logged.  In particular,
    with the lookup of the specification, so is every vote for a height
    below the committing height. *)
Theorem out_of_date_votes
    (FindView : @kState Proof → Z → Z → string → FindViewResult)
    (pv : AddPrevoteRequest) (pc : AddPrecommitRequest) (w : @World Proof) :
  let answered (ch : option Chan) :=
    Ok (tt, {| state := state w;
               trace := trace w ++ replyOn ch AddVoteOutOfDate;
               fetchRoom := fetchRoom w |}) in
  let pvStatus := fvStatus (FindView (state w) (PvH pv) (PvR pv) "(*Kernel).addPrevote") in
  let pcStatus := fvStatus (FindView (state w) (PcH pc) (PcR pc) "(*Kernel).addPrecommit") in
  (pvStatus = ViewBeforeCommitting ∨ pvStatus = ViewOrphaned →
   addPrevote FindView newVoteDistribution k pv w = answered (PvResponse pv))
  ∧ (pcStatus = ViewBeforeCommitting ∨ pcStatus = ViewOrphaned →
     addPrecommit FindView newVoteDistribution k pc w = answered (PcResponse pc))
  ∧ (PvH pv < Height (RV (VRV (Committing (state w)))) →
     addPrevote FindViewSpec newVoteDistribution k pv w = answered (PvResponse pv))
  ∧ (PcH pc < Height (RV (VRV (Committing (state w)))) →
     addPrecommit FindViewSpec newVoteDistribution k pc w = answered (PcResponse pc)).
Proof using Type.
  cbn zeta. split_and!.
  - apply addPrevote_out_of_date.
  - apply addPrecommit_out_of_date.
  - intros Hlt. apply addPrevote_out_of_date. left. by apply FindViewSpec_below_committing.
  - intros Hlt. apply addPrecommit_out_of_date. left. by apply FindViewSpec_below_committing.
Qed.

End OutOfDate.

(** * Further properties of the kernel *)

Section More.
Context {Proof : Type} {collab : Collaborators Proof}.
Variable FindView : @kState Proof → Z → Z → string → FindViewResult.
Variable newVoteDistribution : GoMap Proof → list Validator → voteDistribution.
Variable k : @Kernel Proof.

Lemma get_cloneProofs (m : GoMap Proof) (h : string) :
  gomap.get (cloneProofs m) h = ProofClone <$> gomap.get m h.
Proof using Type.
  unfold cloneProofs. destruct m as [g|]; cbn; [|done].
  destruct (size g) eqn:E; cbn.
  - apply map_size_empty_iff in E. subst g. by rewrite lookup_empty.
  - by rewrite lookup_fmap.
Qed.

Lemma cloneProofs_nil (m : GoMap Proof) :
  cloneProofs m = None ↔ gomap.len m = 0%nat.
Proof using Type.
  unfold cloneProofs. destruct (gomap.len m); cbn; split; done.
Qed.

(** X1. A clone of a versioned round view has the height, round, validators,
    hashes, proposed blocks and versions of the source, and for every
    hash the clone of the source's proof.  Its proof maps are nil
    exactly when the source's have no entry (nil or empty): storing
    into the clone then panics. *)
Theorem Clone_proofs (v : VersionedRoundView Proof) (h : string) (p : Proof) :
  let c := VersionedRoundView_Clone v in
  (Height (RV c), Round (RV c), RVValidators (RV c), ValidatorPubKeyHash (RV c),
   ValidatorVotePowerHash (RV c), ProposedBlocks (RV c))
  = (Height (RV v), Round (RV v), RVValidators (RV v), ValidatorPubKeyHash (RV v),
     ValidatorVotePowerHash (RV v), ProposedBlocks (RV v))
  ∧ (Version c, PrevoteVersion c, PrecommitVersion c,
     PrevoteBlockVersions c, PrecommitBlockVersions c)
    = (Version v, PrevoteVersion v, PrecommitVersion v,
       PrevoteBlockVersions v, PrecommitBlockVersions v)
  ∧ gomap.get (PrevoteProofs (RV c)) h = ProofClone <$> gomap.get (PrevoteProofs (RV v)) h
  ∧ gomap.get (PrecommitProofs (RV c)) h = ProofClone <$> gomap.get (PrecommitProofs (RV v)) h
  ∧ (gomap.set (PrevoteProofs (RV c)) h p = None ↔ gomap.len (PrevoteProofs (RV v)) = 0%nat)
  ∧ (gomap.set (PrecommitProofs (RV c)) h p = None ↔ gomap.len (PrecommitProofs (RV v)) = 0%nat).
Proof using Type.
  cbn zeta. split_and!; try done; try apply get_cloneProofs.
  - cbn. rewrite <- cloneProofs_nil. by destruct (cloneProofs _).
  - cbn. rewrite <- cloneProofs_nil. by destruct (cloneProofs _).
Qed.

(** X2. Reset zeroes the height, the round, the hashes and the three overall
    versions, empties the validators and the proposed blocks, and
    clears the four maps in place: each has no entry afterwards, and is
    nil exactly when it was nil before, so that storing into it panics
    only then. *)
Theorem Reset_frame (v : VersionedRoundView Proof) (h : string) (p : Proof) :
  let r := VersionedRoundView_Reset v in
  (Height (RV r), Round (RV r), RVValidators (RV r), ValidatorPubKeyHash (RV r),
   ValidatorVotePowerHash (RV r), ProposedBlocks (RV r))
  = (0, 0, [], "", "", [])
  ∧ (Version r, PrevoteVersion r, PrecommitVersion r) = (0, 0, 0)
  ∧ VoteSummaryOf (RV r)
    = VoteSummaryReset (VoteSummaryResetForSameHeight (VoteSummaryOf (RV v)))
  ∧ (gomap.len (PrevoteProofs (RV r)), gomap.len (PrecommitProofs (RV r)),
     gomap.len (PrevoteBlockVersions r), gomap.len (PrecommitBlockVersions r))
    = (0, 0, 0, 0)%nat
  ∧ (PrevoteProofs (RV r) = None ↔ PrevoteProofs (RV v) = None)
  ∧ (PrecommitProofs (RV r) = None ↔ PrecommitProofs (RV v) = None)
  ∧ (PrevoteBlockVersions r = None ↔ PrevoteBlockVersions v = None)
  ∧ (PrecommitBlockVersions r = None ↔ PrecommitBlockVersions v = None)
  ∧ (gomap.set (PrevoteProofs (RV r)) h p = None ↔ PrevoteProofs (RV v) = None)
  ∧ (gomap.set (PrecommitProofs (RV r)) h p = None ↔ PrecommitProofs (RV v) = None).
Proof using Type.
  cbn zeta. destruct v as [[? ? ? ? ? ? pv pc ?] ? ? ? pbv pcv]; cbn.
  split_and!; try done.
  - by destruct pv, pc, pbv, pcv.
  - by destruct pv.
  - by destruct pc.
  - by destruct pbv.
  - by destruct pcv.
  - by destruct pv.
  - by destruct pc.
Qed.

Lemma checkMissingPBs_cases (proofs : GoMap Proof) (w : @World Proof) :
  checkMissingPBs newVoteDistribution k proofs w = Panic makesliceCap
  ∨ ∃ w', checkMissingPBs newVoteDistribution k proofs w = Ok (tt, w') ∧ fetchOnly w w'.
Proof using Type.
  destruct (decide (gomap.len proofs = 0%nat)) as [Hlen|Hlen].
  - left. unfold checkMissingPBs, mbind, K_bind, bind, getS.
    by rewrite bool_decide_eq_true_2.
  - right. by apply checkMissingPBs_frame.
Qed.

(** X3. checkMissingPBs panics in [make] when the proof map has no entry, nil
    or empty; with an entry it returns, and changes nothing but the
    in-flight fetches, the trace and the room of the fetch channel. *)
Theorem checkMissingPBs_empty (proofs : GoMap Proof) (w : @World Proof) :
  (gomap.len proofs = 0%nat →
   checkMissingPBs newVoteDistribution k proofs w = Panic makesliceCap)
  ∧ (gomap.len proofs ≠ 0%nat →
     ∃ w', checkMissingPBs newVoteDistribution k proofs w = Ok (tt, w') ∧ fetchOnly w w').
Proof using Type.
  split.
  - intros Hlen. unfold checkMissingPBs, mbind, K_bind, bind, getS.
    by rewrite bool_decide_eq_true_2.
  - apply checkMissingPBs_frame.
Qed.










Section Keeps.
Variable I : @kState Proof → Prop.
Variable E : @Event Proof → Prop.

Lemma keeps_ret {A} (a : A) : keeps I E (@ret Proof A a).
Proof using Type.
  intros w a' w' HI [= <- <-]. split_and!; [done|done|]. exists []. by rewrite app_nil_r.
Qed.

Lemma keeps_panic {A} (msg : string) : keeps I E (@panic Proof A msg).
Proof using Type. by intros w a w' HI. Qed.

Lemma keeps_bind {A B} (m : @K Proof A) (f : A → @K Proof B) :
  keeps I E m → (∀ a, keeps I E (f a)) → keeps I E (bind m f).
Proof using Type.
  intros Hm Hf w b w' HI. unfold bind. destruct (m w) as [[a w1]|msg] eqn:Em; [|done].
  intros Hrun. destruct (Hm _ _ _ HI Em) as (HI1 & Hr1 & t1 & Ht1 & HE1).
  destruct (Hf a _ _ _ HI1 Hrun) as (HI2 & Hr2 & t2 & Ht2 & HE2).
  split_and!; [done|congruence|]. exists (t1 ++ t2).
  rewrite Ht2, Ht1, app_assoc. split; [done|]. by apply Forall_app.
Qed.

Lemma keeps_getS {A} (f : @kState Proof → @K Proof A) :
  (∀ s, I s → keeps I E (f s)) → keeps I E (bind getS f).
Proof using Type. intros Hf w a w' HI. unfold bind, getS. by apply Hf. Qed.

Lemma keeps_putS (s : @kState Proof) : I s → keeps I E (putS s).
Proof using Type.
  intros Hs w a w' HI [= <- <-]. split_and!; [done|done|]. exists []. by rewrite app_nil_r.
Qed.

Lemma keeps_emit (e : @Event Proof) : E e → keeps I E (emit e).
Proof using Type.
  intros He w a w' HI [= <- <-]. split_and!; [done|done|]. exists [e]. split; [done|].
  by constructor.
Qed.

End Keeps.

Ltac keeps_step :=
  lazymatch goal with
  | |- keeps _ _ (bind getS _) => apply keeps_getS; intros ? ?
  | |- keeps _ _ (bind _ _) => apply keeps_bind; [|intros ?]
  | |- keeps _ _ (ret _) => apply keeps_ret
  | |- keeps _ _ (mret _) => apply keeps_ret
  | |- keeps _ _ (panic _) => apply keeps_panic
  | |- keeps _ _ (putS _) => apply keeps_putS
  | |- keeps _ _ (emit _) => apply keeps_emit
  | |- keeps _ _ (when ?b _) => destruct b; cbn [when]
  | |- keeps _ _ (if ?b then _ else _) => destruct b
  | |- keeps _ _ (match ?x with _ => _ end) => destruct x
  | |- keeps _ _ (let '(_, _) := ?x in _) => destruct x
  end.

Ltac keeps_walk := unfold mbind, K_bind, mret, K_ret; repeat keeps_step.

Lemma keeps_advanceVotingRound (m : gmap string CancelFunc) :
  keeps (inFlightIs m) quietEvent (advanceVotingRound k).
Proof using Type.
  unfold advanceVotingRound. keeps_walk; try done.
Qed.

Lemma keeps_checkVotingPrecommitViewShift (m : gmap string CancelFunc) :
  keeps (inFlightIs m) quietEvent (checkVotingPrecommitViewShift k).
Proof using Type.
  unfold checkVotingPrecommitViewShift.
  keeps_walk; try done; try apply keeps_advanceVotingRound.
Qed.

Lemma keeps_backfill (m : gmap string CancelFunc) (pb : ProposedBlock) :
  keeps (inFlightIs m) quietEvent (backfill k pb).
Proof using Type.
  unfold backfill. keeps_walk; try done.
Qed.


Lemma run_getS {A} (f : @kState Proof → @K Proof A) (w : @World Proof) :
  bind getS f w = f (state w) w.
Proof using Type. done. Qed.

Lemma run_emit {A} (e : @Event Proof) (f : unit → @K Proof A) (w : @World Proof) :
  bind (emit e) f w
  = f tt {| state := state w; trace := trace w ++ [e]; fetchRoom := fetchRoom w |}.
Proof using Type. done. Qed.

Lemma run_putS {A} (s : @kState Proof) (f : unit → @K Proof A) (w : @World Proof) :
  bind (putS s) f w = f tt {| state := s; trace := trace w; fetchRoom := fetchRoom w |}.
Proof using Type. done. Qed.

Lemma run_ret {A B} (a : A) (f : A → @K Proof B) (w : @World Proof) :
  bind (ret a) f w = f a w.
Proof using Type. done. Qed.

Lemma run_assoc {A B C} (m : @K Proof A) (f : A → @K Proof B) (g : B → @K Proof C)
    (w : @World Proof) :
  bind (bind m f) g w = bind m (λ a, bind (f a) g) w.
Proof using Type. unfold bind. by destruct (m w) as [[a w']|msg]. Qed.

Ltac keeps_addPB_rest Hrun m0 :=
  lazymatch type of Hrun with
  | ?m _ = _ =>
    let Hk := fresh "Hk" in
    assert (keeps (inFlightIs m0) quietEvent m) as Hk;
    [ keeps_walk; try done;
      try apply keeps_backfill; try apply keeps_checkVotingPrecommitViewShift;
      match goal with v : ViewRef |- _ => by destruct v end
    | apply Hk in Hrun; [|done] ]
  end.

(** X5. Whenever addPB returns, the block's hash is no longer among the
    in-flight fetches and every other in-flight fetch is as before; the
    room of the fetch channel is unchanged; and the trace grows by the
    call of the cancel function of the block's fetch, if one was
    outstanding, followed by events none of which cancels or requests a
    fetch. *)
Theorem addPB_fetch_lifecycle (pb : ProposedBlock) (w w' : @World Proof) :
  addPB FindView k pb w = Ok (tt, w') →
  let hash := Hash (PBBlock pb) in
  InFlightFetchPBs (state w') = delete hash (InFlightFetchPBs (state w))
  ∧ fetchRoom w' = fetchRoom w
  ∧ ∃ t,
      trace w'
      = trace w ++ match InFlightFetchPBs (state w) !! hash with
                   | Some cancel => [CallCancel cancel]
                   | None => []
                   end ++ t
      ∧ Forall quietEvent t.
Proof using Type.
  intros Hrun hash.
  unfold addPB, mbind, K_bind, mret, K_ret in Hrun. fold hash in Hrun.
  rewrite run_getS in Hrun.
  destruct (InFlightFetchPBs (state w) !! hash) as [cancel|] eqn:Hfl.
  - rewrite run_assoc, run_emit, run_putS in Hrun.
    keeps_addPB_rest Hrun (delete hash (InFlightFetchPBs (state w))).
    destruct Hrun as (HI & Hroom & t & Ht & HE). cbn in Ht, Hroom.
    split_and!; [done|done|]. exists t. by rewrite Ht, <- app_assoc.
  - rewrite run_ret in Hrun.
    keeps_addPB_rest Hrun (InFlightFetchPBs (state w)).
    destruct Hrun as (HI & Hroom & t & Ht & HE).
    split_and!; [|done|by exists t]. rewrite delete_id by done. done.
Qed.




Lemma forgetFetch_id (s : @kState Proof) (hash : string) :
  InFlightFetchPBs s !! hash = None → forgetFetch s hash = s.
Proof using Type.
  intros Hno. unfold forgetFetch. rewrite delete_id by done. apply setInFlight_id.
Qed.

(** addPB first cancels an outstanding fetch of the block; it then goes
    on as it does when there is none. *)
Lemma addPB_cancel (pb : ProposedBlock) (w : @World Proof) :
  let s := state w in
  let hash := Hash (PBBlock pb) in
  addPB FindView k pb w
  = addPB FindView k pb
      {| state := forgetFetch s hash;
         trace := trace w ++ cancelFetch s hash;
         fetchRoom := fetchRoom w |}.
Proof using Type.
  intros s hash. unfold cancelFetch.
  destruct (InFlightFetchPBs s !! hash) as [cancel|] eqn:Hfl.
  - unfold addPB, mbind, K_bind, mret, K_ret. rewrite !run_getS. fold s. fold hash.
    cbn [state forgetFetch setInFlightFetchPBs InFlightFetchPBs].
    rewrite Hfl, lookup_delete_eq.
    by rewrite run_assoc, run_emit, run_putS, run_ret.
  - rewrite forgetFetch_id, app_nil_r by done. unfold s. by rewrite world_eta.
Qed.

(** X6. A proposed block whose height and round match no view is dropped:
    addPB cancels and forgets an outstanding fetch of it, logs the
    drop, and leaves every view as it was. *)
Theorem addPB_untracked (pb : ProposedBlock) (w : @World Proof) :
  let s := state w in
  let hash := Hash (PBBlock pb) in
  fvView (FindView (forgetFetch s hash) (BHeight (PBBlock pb)) (PBRound pb) "(*Kernel).addPB")
  = None →
  addPB FindView k pb w
  = Ok (tt,
        {| state := forgetFetch s hash;
           trace := trace w ++ cancelFetch s hash ++ [LogInfo dropMsg];
           fetchRoom := fetchRoom w |})
  ∧ sameViews s (forgetFetch s hash).
Proof using Type.
  intros s hash Hview. split; [|by repeat split].
  rewrite addPB_cancel. fold s. fold hash.
  unfold addPB, mbind, K_bind, mret, K_ret. rewrite run_getS.
  cbn [state forgetFetch setInFlightFetchPBs InFlightFetchPBs]. fold hash.
  rewrite lookup_delete_eq, run_ret, run_getS. cbn [state]. fold (forgetFetch s hash).
  rewrite Hview. unfold emit. cbn. by rewrite <- app_assoc.
Qed.

Lemma existsb_sameSignature_false (pb : ProposedBlock) (pbs : list ProposedBlock) :
  existsb (sameSignature pb) pbs = false
  ↔ ∀ have, have ∈ pbs → Signature have ≠ Signature pb.
Proof using Type.
  rewrite <- not_true_iff_false, existsb_sameSignature. split.
  - intros Hno have Hin Heq. apply Hno. eauto.
  - intros Hall (have & Hin & Heq). by eapply Hall.
Qed.

Lemma addPB_known (pb : ProposedBlock) (ref : ViewRef) (w : @World Proof) :
  let s := state w in
  let hash := Hash (PBBlock pb) in
  InFlightFetchPBs s !! hash = None →
  fvView (FindView s (BHeight (PBBlock pb)) (PBRound pb) "(*Kernel).addPB") = Some ref →
  existsb (sameSignature pb) (ProposedBlocks (RV (VRV (viewAt s ref)))) = true →
  addPB FindView k pb w = Ok (tt, w).
Proof using Type.
  intros s hash Hfl Href Hdup.
  unfold addPB, mbind, K_bind, mret, K_ret. rewrite run_getS. fold s. fold hash.
  rewrite Hfl, run_ret, run_getS. fold s. by rewrite Href, Hdup.
Qed.

(** X7. A proposed block with a new signature for a view other than the
    voting and the next-round view (the committing view) is appended
    to the proposed blocks of that view and handed to the round store (a failure of the store is logged, not returned), the
    outgoing copy of the view is refreshed, and nothing else changes.
    Handing the same block over again then changes nothing. *)
Theorem addPB_appends (pb : ProposedBlock) (ref : ViewRef) (w : @World Proof) :
  let s := state w in
  let hash := Hash (PBBlock pb) in
  let s1 := forgetFetch s hash in
  let fv := FindView s1 (BHeight (PBBlock pb)) (PBRound pb) "(*Kernel).addPB" in
  let w1 :=
    {| state := setViewAt s1 ref (withProposedBlock (viewAt s ref) pb);
       trace := trace w ++ cancelFetch s hash
                ++ SaveProposedBlock pb
                   :: (if SaveProposedBlockFails k pb then [LogWarn saveFailedMsg] else []);
       fetchRoom := fetchRoom w |} in
  fvView fv = Some ref →
  fvID fv ≠ ViewIDVoting →
  fvID fv ≠ ViewIDNextRound →
  (∀ have, have ∈ ProposedBlocks (RV (VRV (viewAt s ref))) →
           Signature have ≠ Signature pb) →
  addPB FindView k pb w = Ok (tt, w1)
  ∧ (fvView (FindView (state w1) (BHeight (PBBlock pb)) (PBRound pb) "(*Kernel).addPB")
     = Some ref →
     addPB FindView k pb w1 = Ok (tt, w1)).
Proof using Type.
  intros s hash s1 fv w1 Href Hv Hn Hnew.
  apply existsb_sameSignature_false in Hnew.
  assert (viewAt s1 ref = viewAt s ref) as Hview by (by destruct ref).
  split.
  - rewrite addPB_cancel. fold s. fold hash. fold s1.
    unfold addPB, mbind, K_bind, mret, K_ret. rewrite run_getS.
    cbn [state]. fold hash.
    replace (InFlightFetchPBs s1 !! hash) with (@None CancelFunc)
      by (symmetry; apply lookup_delete_eq).
    rewrite run_ret, run_getS. cbn [state]. fold fv.
    rewrite Href, Hview, Hnew, run_emit. unfold when.
    rewrite (bool_decide_eq_true_2 _ Hv), (bool_decide_eq_true_2 _ Hn). cbn [andb].
    unfold w1, withProposedBlock, saveFailedMsg.
    destruct (SaveProposedBlockFails k pb).
    + rewrite run_emit. unfold putS, bind, ret. cbn. by rewrite <- !app_assoc.
    + rewrite run_ret. unfold putS, bind, ret. cbn. by rewrite <- !app_assoc.
  - intros Href'. apply (addPB_known pb ref); [| exact Href' |].
    + unfold w1, s1. cbn [state]. destruct ref; apply lookup_delete_eq.
    + unfold w1. cbn [state].
      assert (viewAt (setViewAt s1 ref (withProposedBlock (viewAt s ref) pb)) ref
              = withProposedBlock (viewAt s ref) pb) as -> by (by destruct ref).
      cbn. rewrite existsb_app. cbn. unfold sameSignature at 2.
      rewrite bool_decide_eq_true_2 by done. by rewrite orb_true_r.
Qed.




Lemma backfillStep_lookup (pk : string) (acc acc' : gmap string Proof * bool)
    (e : string * list SparseSignature) :
  backfillStep pk acc e = Some acc' →
  ∃ target,
    acc.1 !! e.1 = Some target
    ∧ acc'.1 = <[e.1 := (MergeSparse target {| SSPPubKeyHash := pk; SSPSignatures := e.2 |}).1]> acc.1
    ∧ acc'.2 = acc.2 || (MergeSparse target {| SSPPubKeyHash := pk; SSPSignatures := e.2 |}).2.
Proof using Type.
  unfold backfillStep. destruct (acc.1 !! e.1) as [target|]; [|done].
  intros [= <-]. by exists target.
Qed.

Lemma backfillLoop_None (pk : string) (es : list (string * list SparseSignature))
    (acc : gmap string Proof * bool) :
  backfillLoop pk acc es = None ↔ ∃ e, e ∈ es ∧ acc.1 !! e.1 = None.
Proof using Type.
  revert acc. induction es as [|e es IH]; intros acc; cbn [backfillLoop].
  - split; [done|]. intros (e & Hin & _). by apply elem_of_nil in Hin.
  - destruct (backfillStep pk acc e) as [acc'|] eqn:Hstep.
    + apply backfillStep_lookup in Hstep as (target & Hl & Hacc & _).
      rewrite IH. rewrite Hacc.
      assert (∀ h, <[e.1:=(MergeSparse target {| SSPPubKeyHash := pk; SSPSignatures := e.2 |}).1]> acc.1 !! h = None
                   ↔ acc.1 !! h = None) as Hdom.
      { intros h. destruct (decide (h = e.1)) as [->|Hne].
        - rewrite lookup_insert_eq, Hl. done.
        - by rewrite lookup_insert_ne. }
      split.
      * intros (e' & Hin & Hno). exists e'. split; [by right|]. by apply Hdom.
      * intros (e' & [->|Hin]%elem_of_cons & Hno); [congruence|].
        exists e'. split; [done|]. by apply Hdom.
    + split; [|done]. intros _. exists e. split; [left|].
      unfold backfillStep in Hstep. by destruct (acc.1 !! e.1).
Qed.

Lemma backfillLoop_Some (pk : string) (es : list (string * list SparseSignature)) :
  NoDup es.*1 →
  ∀ acc acc',
    backfillLoop pk acc es = Some acc' →
    (∀ h, h ∉ es.*1 → acc'.1 !! h = acc.1 !! h)
    ∧ (∀ h sigs, (h, sigs) ∈ es →
         ∃ target,
           acc.1 !! h = Some target
           ∧ acc'.1 !! h
             = Some (MergeSparse target {| SSPPubKeyHash := pk; SSPSignatures := sigs |}).1)
    ∧ (acc'.2 = true
       ↔ acc.2 = true
         ∨ ∃ h sigs target,
             (h, sigs) ∈ es ∧ acc.1 !! h = Some target
             ∧ (MergeSparse target {| SSPPubKeyHash := pk; SSPSignatures := sigs |}).2 = true).
Proof using Type.
  induction es as [|[h0 sigs0] es IH]; intros Hnd acc acc'; cbn [backfillLoop].
  - intros [= <-]. split_and!; [done| |].
    + intros h sigs Hin. by apply elem_of_nil in Hin.
    + split; [by left|]. intros [?|(h & sigs & t & Hin & _)]; [done|].
      by apply elem_of_nil in Hin.
  - cbn [fmap list_fmap fst] in Hnd. apply NoDup_cons in Hnd as [Hh0 Hnd].
    destruct (backfillStep pk acc (h0, sigs0)) as [acc1|] eqn:Hstep; [|done].
    apply backfillStep_lookup in Hstep as (target & Hl & Hacc & Hany). cbn [fst snd] in *.
    intros Hrun. destruct (IH Hnd _ _ Hrun) as (Hother & Hmerged & Hflag).
    assert (∀ h, h ≠ h0 → acc1.1 !! h = acc.1 !! h) as Hne.
    { intros h Hh. rewrite Hacc. by rewrite lookup_insert_ne. }
    assert (∀ h sigs, (h, sigs) ∈ es → h ≠ h0) as Hdiff.
    { intros h sigs Hin ->. apply Hh0. by eapply elem_of_fst. }
    split_and!.
    + intros h Hh. apply not_elem_of_cons in Hh as [Hh Hrest].
      rewrite Hother by done. by apply Hne.
    + intros h sigs [[= -> ->]|Hin]%elem_of_cons.
      * exists target. split; [done|]. rewrite Hother by done.
        rewrite Hacc. by rewrite lookup_insert_eq.
      * destruct (Hmerged h sigs Hin) as (t & Ht & Ht'). exists t.
        split; [|done]. rewrite <- Hne; [done|]. by eapply Hdiff.
    + rewrite Hflag, Hany, orb_true_iff. split.
      * intros [[?|Hm]|(h & sigs & t & Hin & Ht & Hm)].
        -- by left.
        -- right. exists h0, sigs0, target. split; [left|done].
        -- right. exists h, sigs, t. split; [by right|].
           split; [|done]. rewrite <- Hne; [done|]. by eapply Hdiff.
      * intros [?|(h & sigs & t & [[= -> ->]|Hin]%elem_of_cons & Ht & Hm)].
        -- by left; left.
        -- left; right. congruence.
        -- right. exists h, sigs, t. split; [done|]. split; [|done].
           rewrite Hne; [done|]. by eapply Hdiff.
Qed.


Lemma backfill_unknown (pb : ProposedBlock) (w : @World Proof) (h : string) :
  let commit := PrevCommitProof (PBBlock pb) in
  let old := PrecommitProofs (RV (VRV (Committing (state w)))) in
  is_Some (gomap.get (Proofs commit) h) →
  gomap.get old h = None →
  backfill k pb w = Panic backfillPanic.
Proof using Type.
  intros commit old [sigs Hsigs] Hold.
  unfold backfill, mbind, K_bind. rewrite run_getS. fold commit. fold old.
  assert (backfillLoop (CPPubKeyHash commit) (gomap.entries old, false)
            (gomap.range (rangeOrder k) (Proofs commit)) = None) as ->; [|done].
  apply backfillLoop_None. exists (h, sigs). split; [by apply elem_of_range|].
  cbn. by rewrite <- get_entries.
Qed.

(** X8. The backfill of the previous commit carried by a proposed block: it
    panics when the block carries signatures for a hash the committing
    view has no precommit proof for; otherwise every proof of the
    committing view is merged with the signatures carried for its hash,
    nothing but the committing view changes, and the proofs are
    persisted and the outgoing copy refreshed exactly when some merge
    added a signature. *)
Theorem backfill_merges (pb : ProposedBlock) (w : @World Proof) :
  let s := state w in
  let commit := PrevCommitProof (PBBlock pb) in
  let vrv := VRV (Committing s) in
  let old := PrecommitProofs (RV vrv) in
  ((∃ h, is_Some (gomap.get (Proofs commit) h) ∧ gomap.get old h = None) →
   backfill k pb w = Panic backfillPanic)
  ∧ ((∀ h, is_Some (gomap.get (Proofs commit) h) → is_Some (gomap.get old h)) →
     ∃ s' proofs' persisted,
       backfill k pb w
       = Ok (tt, {| state := s'; trace := trace w ++ persisted; fetchRoom := fetchRoom w |})
       ∧ (∀ h, gomap.get proofs' h = mergedProof commit old h)
       ∧ VRV (Committing s') = withRV vrv (setPrecommitProofs (RV vrv) proofs')
       ∧ s' = setCommitting s (Committing s')
       ∧ ((increases commit old
           ∧ Outgoing (Committing s') = Outgoing (UpdateOutgoing (Committing s'))
           ∧ persisted
             = OverwritePrecommitProofs (u64 (BHeight (PBBlock pb) - 1)) (CPRound commit) proofs'
               :: (if OverwritePrecommitProofsFails k (u64 (BHeight (PBBlock pb) - 1))
                        (CPRound commit) proofs'
                   then [LogWarn backfillFailedMsg] else []))
          ∨ (¬ increases commit old
             ∧ Outgoing (Committing s') = Outgoing (Committing s)
             ∧ persisted = []))).
Proof using Type.
  intros s commit vrv old.
  set (es := gomap.range (rangeOrder k) (Proofs commit)).
  assert (∀ h sigs, (h, sigs) ∈ es ↔ gomap.get (Proofs commit) h = Some sigs) as Hes.
  { intros h sigs. apply elem_of_range. }
  split.
  - intros (h & Hsigs & Hold). by apply (backfill_unknown pb w h).
  - intros Hknown.
    unfold backfill, mbind, K_bind. rewrite run_getS. fold s. fold commit. fold vrv. fold old.
    fold es.
    destruct (backfillLoop (CPPubKeyHash commit) (gomap.entries old, false) es)
      as [[merged mergedAny]|] eqn:Hloop.
    2: { apply backfillLoop_None in Hloop as ([h sigs] & Hin & Hno).
         apply Hes in Hin. destruct (Hknown h) as [t Ht]; [eauto|].
         cbn in Hno. rewrite <- get_entries in Hno. congruence. }
    destruct (backfillLoop_Some (CPPubKeyHash commit) es (NoDup_range _ _) _ _ Hloop)
      as (Hother & Hmerged & Hflag). cbn [fst snd] in *.
    set (proofs' := match es with [] => old | _ => Some merged end).
    assert (∀ h, gomap.get proofs' h = mergedProof commit old h) as Hproofs.
    { intros h. unfold mergedProof. destruct (gomap.get (Proofs commit) h) as [sigs|] eqn:Hc.
      - apply Hes in Hc. destruct (Hmerged h sigs Hc) as (t & Ht & Ht').
        rewrite (get_entries old), Ht. unfold proofs'.
        destruct es; [by apply elem_of_nil in Hc|done].
      - assert (h ∉ es.*1) as Hno.
        { intros (e & -> & Hin)%list_elem_of_fmap. destruct e as [h' sigs].
          apply Hes in Hin. cbn in Hc. congruence. }
        unfold proofs'. destruct es; [by destruct (gomap.get old h)|].
        cbn [gomap.get]. rewrite (Hother h Hno), <- get_entries.
        by destruct (gomap.get old h). }
    assert (mergedAny = true ↔ increases commit old) as Hinc.
    { rewrite Hflag. unfold increases. split.
      - intros [?|(h & sigs & t & Hin & Ht & Hm)]; [done|].
        exists h, sigs, t. rewrite (get_entries old). split_and!; [by apply Hes|done|done].
      - intros (h & sigs & t & Hc & Ht & Hm). right. exists h, sigs, t.
        rewrite <- (get_entries old). split_and!; [by apply Hes|done|done]. }
    fold proofs'. rewrite run_putS. unfold when.
    destruct mergedAny.
    + rewrite run_emit. cbn [state trace fetchRoom].
      destruct (OverwritePrecommitProofsFails k _ _ proofs') eqn:Hfail.
      * rewrite run_emit. unfold putS. cbn [state trace fetchRoom].
        eexists _, proofs', _. rewrite <- !app_assoc. split; [reflexivity|].
        split_and!; [done|done|done|]. left. split; [by apply Hinc|]. by rewrite Hfail.
      * rewrite run_ret. unfold putS. cbn [state trace fetchRoom].
        eexists _, proofs', _. split; [reflexivity|].
        split_and!; [done|done|done|]. left. split; [by apply Hinc|]. by rewrite Hfail.
    + unfold mret, K_ret, ret. eexists _, proofs', []. rewrite app_nil_r.
      split; [reflexivity|]. split_and!; [done|done|done|]. right.
      split; [|done]. intros Hi. apply Hinc in Hi. done.
Qed.

(** X9. addPB panics on a new proposed block for the voting or the next
    round that carries previous-commit signatures for a hash the
    committing view has no precommit proof for. *)
Theorem addPB_backfill_unknown (pb : ProposedBlock) (ref : ViewRef) (w : @World Proof)
    (h : string) :
  let s := state w in
  let hash := Hash (PBBlock pb) in
  let fv := FindView (forgetFetch s hash) (BHeight (PBBlock pb)) (PBRound pb)
              "(*Kernel).addPB" in
  fvView fv = Some ref →
  fvID fv = ViewIDVoting ∨ fvID fv = ViewIDNextRound →
  (∀ have, have ∈ ProposedBlocks (RV (VRV (viewAt s ref))) →
           Signature have ≠ Signature pb) →
  is_Some (gomap.get (Proofs (PrevCommitProof (PBBlock pb))) h) →
  gomap.get (PrecommitProofs (RV (VRV (Committing s)))) h = None →
  addPB FindView k pb w = Panic backfillPanic.
Proof using Type.
  intros s hash fv Href Hid Hnew Hsigs Hold.
  apply existsb_sameSignature_false in Hnew.
  set (s1 := forgetFetch s hash) in *.
  assert (viewAt s1 ref = viewAt s ref) as Hview by (by destruct ref).
  rewrite addPB_cancel. fold s. fold hash. fold s1.
  unfold addPB, mbind, K_bind, mret, K_ret. rewrite run_getS.
  cbn [state]. fold hash.
  replace (InFlightFetchPBs s1 !! hash) with (@None CancelFunc)
    by (symmetry; apply lookup_delete_eq).
  rewrite run_ret, run_getS. cbn [state]. fold fv.
  rewrite Href, Hview, Hnew, run_emit.
  assert (bool_decide (fvID fv ≠ ViewIDVoting) && bool_decide (fvID fv ≠ ViewIDNextRound)
          = false) as Hgate.
  { destruct Hid as [-> | ->]; done. }
  unfold when.
  destruct (SaveProposedBlockFails k pb).
  - rewrite run_emit, run_putS, Hgate. unfold bind at 1.
    rewrite (backfill_unknown pb _ h); [done|done|]. cbn [state]. by destruct ref.
  - rewrite run_ret, run_putS, Hgate. unfold bind at 1.
    rewrite (backfill_unknown pb _ h); [done|done|]. cbn [state]. by destruct ref.
Qed.

(** X10. A prevote or precommit request for another round of the committing
    height is answered as out of date, with a warning logged and the
    state unchanged; a request for a round further ahead than the
    kernel tracks makes the kernel panic. *)
Theorem votes_for_untracked_rounds (pv : AddPrevoteRequest) (pc : AddPrecommitRequest)
    (w : @World Proof) :
  let s := state w in
  let pvStatus := fvStatus (FindView s (PvH pv) (PvR pv) "(*Kernel).addPrevote") in
  let pcStatus := fvStatus (FindView s (PcH pc) (PcR pc) "(*Kernel).addPrecommit") in
  (pvStatus = ViewWrongCommit →
   addPrevote FindView newVoteDistribution k pv w
   = Ok (tt, {| state := s;
                trace := trace w ++ LogWarn wrongCommitMsg
                         :: replyOn (PvResponse pv) AddVoteOutOfDate;
                fetchRoom := fetchRoom w |}))
  ∧ (pvStatus = ViewFutureNotYetTracked →
     addPrevote FindView newVoteDistribution k pv w = Panic untrackedPrevotePanic)
  ∧ (pcStatus = ViewWrongCommit →
     addPrecommit FindView newVoteDistribution k pc w
     = Ok (tt, {| state := s;
                  trace := trace w ++ LogWarn wrongCommitMsg
                           :: replyOn (PcResponse pc) AddVoteOutOfDate;
                  fetchRoom := fetchRoom w |}))
  ∧ (pcStatus = ViewFutureNotYetTracked →
     addPrecommit FindView newVoteDistribution k pc w = Panic untrackedPrecommitPanic).
Proof using Type.
  intros s pvStatus pcStatus. split_and!; intros Hst.
  - unfold addPrevote, ingestPrevotes, mbind, K_bind. rewrite run_assoc, run_getS.
    fold s. fold pvStatus. rewrite Hst. rewrite !run_assoc, run_emit.
    unfold bind. rewrite respond_run. cbn. by rewrite <- app_assoc.
  - unfold addPrevote, ingestPrevotes, mbind, K_bind. rewrite run_assoc, run_getS.
    fold s. fold pvStatus. by rewrite Hst.
  - unfold addPrecommit, ingestPrecommits, mbind, K_bind. rewrite run_assoc, run_getS.
    fold s. fold pcStatus. rewrite Hst. rewrite !run_assoc, run_emit.
    unfold bind. rewrite respond_run. cbn. by rewrite <- app_assoc.
  - unfold addPrecommit, ingestPrecommits, mbind, K_bind. rewrite run_assoc, run_getS.
    fold s. fold pcStatus. by rewrite Hst.
Qed.

(** X11. checkNextRoundPrecommitViewShift panics on a majority precommit
    for the next round exactly when the precommits of the next round
    reach the Byzantine minority, its most voted precommit hash has a
    Byzantine majority, and advancing the voting round succeeds. *)
Theorem nextRound_majority_panics (w : @World Proof) :
  let ns := VoteSummaryOf (RV (VRV (NextRound (state w)))) in
  let maxPow :=
    default 0 (gomap.get (PrecommitBlockPower ns) (MostVotedPrecommitHash ns)) in
  checkNextRoundPrecommitViewShift newVoteDistribution k w = Panic nextRoundMajorityPanic
  ↔ ByzantineMinority (AvailablePower ns) ≤ TotalPrecommitPower ns
    ∧ ByzantineMajority (AvailablePower ns) ≤ maxPow
    ∧ ∃ w1, advanceVotingRound k w = Ok (None, w1).
Proof using Type.
  intros ns maxPow.
  unfold checkNextRoundPrecommitViewShift, mbind, K_bind. rewrite run_getS. fold ns.
  destruct (Z.ltb_spec (TotalPrecommitPower ns) (ByzantineMinority (AvailablePower ns)))
    as [Hlt|Hge].
  { split; [done|]. intros (? & _). lia. }
  unfold bind at 1.
  destruct (advanceVotingRound k w) as [[[e|] w1]|msg] eqn:Hadv.
  - split; [done|]. by intros (_ & _ & w1' & [=]).
  - rewrite run_emit. fold maxPow.
    destruct (Z.leb_spec (ByzantineMajority (AvailablePower ns)) maxPow) as [Hmaj|Hmaj].
    + split; [|done]. intros _. split_and!; [done|done|by exists w1].
    + split; [|intros (_ & ? & _); lia].
      destruct (ByzantineMinority (AvailablePower ns) <=? maxPow).
      * rewrite run_assoc, run_getS. unfold bind. cbn [state].
        destruct (checkMissingPBs_cases (PrecommitProofs (RV (VRV (Voting (state w1)))))
                    {| state := state w1;
                       trace := trace w1
                                ++ [LogInfo "Shifting voting round due to minority precommit"];
                       fetchRoom := fetchRoom w1 |})
          as [->|(w' & -> & _)]; done.
      * done.
  - split; [|by intros (_ & _ & w1' & [=])].
    intros [= ->]. exfalso.
    revert Hadv. unfold advanceVotingRound, mbind, K_bind. rewrite run_getS, run_putS.
    repeat case_match; try done; unfold panic; intros [=].
Qed.

Lemma ownUpdate_allCurrent (p : Proof) (versions : GoMap Z) (hash : string) :
  allCurrent (ownUpdate p versions hash) versions.
Proof using Type.
  intros h u Hu. cbn in Hu. apply lookup_singleton_Some in Hu as [<- <-]. done.
Qed.

Lemma ownUpdate_installed (p : Proof) (versions versions' : GoMap Z) (hash : string)
    (proofs proofs' : GoMap Proof) :
  installed (ownUpdate p versions hash) proofs proofs' versions versions' →
  gomap.get proofs' hash = Some p
  ∧ gomap.get versions' hash = Some (u32 (default 0 (gomap.get versions hash) + 1))
  ∧ ∀ h, h ≠ hash →
         gomap.get proofs' h = gomap.get proofs h
         ∧ gomap.get versions' h = gomap.get versions h.
Proof using Type.
  intros Hinst. split_and!.
  - specialize (Hinst hash). cbn in Hinst. rewrite lookup_singleton_eq in Hinst.
    rewrite decide_True in Hinst by done. by destruct Hinst.
  - specialize (Hinst hash). cbn in Hinst. rewrite lookup_singleton_eq in Hinst.
    rewrite decide_True in Hinst by done. by destruct Hinst.
  - intros h Hne. specialize (Hinst h). cbn in Hinst.
    by rewrite lookup_singleton_ne in Hinst.
Qed.

(** X12. A prevote (precommit) of the state machine for a round the kernel is
    voting on or committing: its signature is added to a clone of the
    proof the view has for the hash, or to a new proof, and the result
    is installed as a vote update of that view with the current
    version: the proof of the hash is replaced, its version incremented
    in 32 bits, the other hashes kept, and the proofs persisted. *)
Theorem own_votes_accepted (act : StateMachineRoundAction) (ref : ViewRef)
    (g : gmap string Proof) (p p' : Proof) (w : @World Proof) :
  let s := state w in
  let h := smH (StateMachineView s) in
  let r := smR (StateMachineView s) in
  let fv := FindView s h r "(*Kernel).handleStateMachineAction" in
  let view := viewAt s ref in
  let vrv := VRV view in
  hasPB act = false →
  fvView fv = Some ref →
  fvID fv = ViewIDVoting ∨ fvID fv = ViewIDCommitting →
  (hasPrevote act = true → hasPrecommit act = false →
   let fv' := FindView s h r "(*Kernel).addPrevote" in
   let hash := TargetHash (ActPrevote act) in
   fvStatus fv' = ViewFound → knownViewID (fvID fv') = true → fvView fv' = Some ref →
   PrevoteProofs (RV vrv) = Some g →
   startVote k s (g !! hash) (SignContent (ActPrevote act)) = Some p →
   AddSignature p (SSig (ActPrevote act)) (smPubKey (StateMachineView s)) = Some p' →
   ∃ proofs' versions' w1,
     let vrv' :=
       setPrevoteBlockVersions (withRV vrv (setPrevoteProofs (RV vrv) proofs')) versions' in
     handleStateMachineAction FindView newVoteDistribution k act w
     = afterPrevotes newVoteDistribution k (Some (ref, fvID fv', AddVoteAccepted)) w1
     ∧ state w1 = setViewAt s ref (UpdateOutgoing (withVRV view (withPrevotePowers vrv')))
     ∧ trace w1
       = trace w ++ OverwritePrevoteProofs h r proofs'
                    :: (if OverwritePrevoteProofsFails k h r proofs'
                        then [LogWarn savePrevotesFailedMsg] else [])
     ∧ fetchRoom w1 = fetchRoom w
     ∧ gomap.get proofs' hash = Some p'
     ∧ gomap.get versions' hash
       = Some (u32 (default 0 (gomap.get (PrevoteBlockVersions vrv) hash) + 1))
     ∧ ∀ h', h' ≠ hash →
             gomap.get proofs' h' = g !! h'
             ∧ gomap.get versions' h' = gomap.get (PrevoteBlockVersions vrv) h')
  ∧ (hasPrevote act = false → hasPrecommit act = true →
     let fv' := FindView s h r "(*Kernel).addPrecommit" in
     let hash := TargetHash (ActPrecommit act) in
     fvStatus fv' = ViewFound → knownViewID (fvID fv') = true → fvView fv' = Some ref →
     PrecommitProofs (RV vrv) = Some g →
     startVote k s (g !! hash) (SignContent (ActPrecommit act)) = Some p →
     AddSignature p (SSig (ActPrecommit act)) (smPubKey (StateMachineView s)) = Some p' →
     ∃ proofs' versions' w1,
       let vrv' :=
         setPrecommitBlockVersions (withRV vrv (setPrecommitProofs (RV vrv) proofs')) versions' in
       handleStateMachineAction FindView newVoteDistribution k act w
       = afterPrecommits newVoteDistribution k (Some (ref, fvID fv', AddVoteAccepted)) w1
       ∧ state w1 = setViewAt s ref (UpdateOutgoing (withVRV view (withPrecommitPowers vrv')))
       ∧ trace w1
         = trace w ++ OverwritePrecommitProofs h r proofs'
                      :: (if OverwritePrecommitProofsFails k h r proofs'
                          then [LogWarn savePrecommitsFailedMsg] else [])
       ∧ fetchRoom w1 = fetchRoom w
       ∧ gomap.get proofs' hash = Some p'
       ∧ gomap.get versions' hash
         = Some (u32 (default 0 (gomap.get (PrecommitBlockVersions vrv) hash) + 1))
       ∧ ∀ h', h' ≠ hash →
               gomap.get proofs' h' = g !! h'
               ∧ gomap.get versions' h' = gomap.get (PrecommitBlockVersions vrv) h').
Proof using Type.
  intros s h r fv view vrv HnoPB Href Hid.
  assert (bool_decide (fvID fv ≠ ViewIDVoting) && bool_decide (fvID fv ≠ ViewIDCommitting)
          = false) as Hgate.
  { destruct Hid as [-> | ->]; done. }
  split.
  - intros Hpv Hpc fv' hash Hst Hknown Href' Hg Hstart Hsig.
    set (req := {| PvH := h; PvR := r;
                   PrevoteUpdates := ownUpdate p' (PrevoteBlockVersions vrv) hash;
                   PvResponse := None |}).
    assert (handleStateMachineAction FindView newVoteDistribution k act w
            = addPrevote FindView newVoteDistribution k req w) as ->.
    { unfold handleStateMachineAction. rewrite HnoPB, Hpv, Hpc. cbn [orb negb].
      unfold mbind, K_bind. rewrite run_getS. fold s. fold h. fold r. fold fv.
      rewrite Href, Hgate. pose proof Hg as Hg'. unfold vrv, view in Hg'.
      rewrite Hg'. cbn [gomap.get]. fold hash.
      by rewrite Hstart, Hsig. }
    destruct (ingestPrevotes_found FindView k req ref g w Hst Hknown Href' Hg)
      as (proofs' & versions' & res & view' & persisted & Hrun & Hinst & Hacc & _ & Hcase).
    assert (res = AddVoteAccepted) as ->.
    { apply Hacc. apply ownUpdate_allCurrent. }
    destruct Hcase as [(_ & -> & ->)|[Hnone _]].
    2: { exfalso. apply Hnone. exists hash, {| UProof := p'; PrevVersion := default 0 (gomap.get (PrevoteBlockVersions vrv) hash) |}.
         split; [apply lookup_singleton_eq|done]. }
    apply ownUpdate_installed in Hinst as (Hp & Hv & Hother).
    eexists proofs', versions', _. split.
    { unfold addPrevote, mbind, K_bind, bind at 1. cbv zeta in Hrun. rewrite Hrun. reflexivity. }
    cbn [state trace fetchRoom replyOn]. rewrite app_nil_r.
    split_and!; try done. intros h' Hne. destruct (Hother h' Hne) as [-> ->].
    fold s. fold view. fold vrv. by rewrite Hg.
  - intros Hpv Hpc fv' hash Hst Hknown Href' Hg Hstart Hsig.
    set (req := {| PcH := h; PcR := r;
                   PrecommitUpdates := ownUpdate p' (PrecommitBlockVersions vrv) hash;
                   PcResponse := None |}).
    assert (handleStateMachineAction FindView newVoteDistribution k act w
            = addPrecommit FindView newVoteDistribution k req w) as ->.
    { unfold handleStateMachineAction. rewrite HnoPB, Hpv, Hpc. cbn [orb negb].
      unfold mbind, K_bind. rewrite run_getS. fold s. fold h. fold r. fold fv.
      rewrite Href, Hgate. pose proof Hg as Hg'. unfold vrv, view in Hg'.
      rewrite Hg'. cbn [gomap.get]. fold hash.
      by rewrite Hstart, Hsig. }
    destruct (ingestPrecommits_found FindView k req ref g w Hst Hknown Href' Hg)
      as (proofs' & versions' & res & view' & persisted & Hrun & Hinst & Hacc & _ & Hcase).
    assert (res = AddVoteAccepted) as ->.
    { apply Hacc. apply ownUpdate_allCurrent. }
    destruct Hcase as [(_ & -> & ->)|[Hnone _]].
    2: { exfalso. apply Hnone. exists hash, {| UProof := p'; PrevVersion := default 0 (gomap.get (PrecommitBlockVersions vrv) hash) |}.
         split; [apply lookup_singleton_eq|done]. }
    apply ownUpdate_installed in Hinst as (Hp & Hv & Hother).
    eexists proofs', versions', _. split.
    { unfold addPrecommit, mbind, K_bind, bind at 1. cbv zeta in Hrun. rewrite Hrun. reflexivity. }
    cbn [state trace fetchRoom replyOn]. rewrite app_nil_r.
    split_and!; try done. intros h' Hne. destruct (Hother h' Hne) as [-> ->].
    fold s. fold view. fold vrv. by rewrite Hg.
Qed.

End More.

Section RespondersProps.
Context {Proof : Type} {collab : Collaborators Proof}.
Variable FindView : @kState Proof → Z → Z → string → FindViewResult.
Variable k : @Kernel Proof.
Variable PubKeyEqual : PubKey → PubKey → bool.

Lemma storeAll_Some {V W} (f : V → W) (g : gmap string W) (es : list (string * V)) :
  storeAll f (Some g) es = Some (Some (foldl (λ g e, <[e.1 := f e.2]> g) g es)).
Proof using Type.
  revert g. induction es as [|e es IH]; intros g; cbn; [done|]. apply IH.
Qed.

Lemma lookup_stored {V W} (f : V → W) (es : list (string * V)) (h : string) :
  NoDup es.*1 →
  ∀ g : gmap string W,
    foldl (λ g e, <[e.1 := f e.2]> g) g es !! h
    = match list_find (λ e, e.1 = h) es with
      | Some (_, e) => Some (f e.2)
      | None => g !! h
      end.
Proof using Type.
  induction es as [|e es IH]; intros Hnd g; cbn; [done|].
  cbn [fmap list_fmap] in Hnd. apply NoDup_cons in Hnd as [He Hnd].
  rewrite IH by done. case_decide as Heq.
  - cbn. destruct (list_find (λ e, e.1 = h) es) as [[i e']|] eqn:Hfind.
    + exfalso. apply list_find_Some in Hfind as (Hi & He' & _).
      apply He. apply list_elem_of_fmap. exists e'. split; [congruence|].
      by eapply list_elem_of_lookup_2.
    + cbn. subst h. by rewrite lookup_insert_eq.
  - destruct (list_find (λ e, e.1 = h) es) as [[i e']|] eqn:Hfind; cbn; [done|].
    by rewrite lookup_insert_ne.
Qed.

Lemma lookup_stored_range {V W} (f : V → W) (order : list string) (m : GoMap V)
    (g : gmap string W) (h : string) :
  foldl (λ g e, <[e.1 := f e.2]> g) g (gomap.range order m) !! h
  = match gomap.get m h with
    | Some v => Some (f v)
    | None => g !! h
    end.
Proof using Type.
  rewrite lookup_stored by apply NoDup_range.
  destruct (list_find _ _) as [[i [h' v]]|] eqn:Hfind.
  - apply list_find_Some in Hfind as (Hi & Heq & _). cbn in Heq. subst h'.
    apply list_elem_of_lookup_2 in Hi. apply elem_of_range in Hi. by rewrite Hi.
  - destruct (gomap.get m h) as [v|] eqn:Hm; [|done].
    apply (elem_of_range order) in Hm. apply list_elem_of_lookup_1 in Hm as [i Hi].
    eapply list_find_None in Hfind. rewrite Forall_forall in Hfind.
    exfalso. apply (Hfind (h, v)); [by eapply list_elem_of_lookup_2|done].
Qed.

Lemma copyProofs_spec (order : list string) (src dst : GoMap Proof) (want : bool) :
  ∃ m,
    copyProofs order src dst want = Some m
    ∧ (∀ h, gomap.get m h = if want then ProofClone <$> gomap.get src h else None)
    ∧ (m = None ↔ want = false ∧ dst = None).
Proof using Type.
  unfold copyProofs. destruct want.
  - assert (∃ g, match gomap.clear dst with None => Some ∅ | Some _ => gomap.clear dst end
                 = Some g ∧ g = ∅) as (g & -> & ->).
    { destruct dst; cbn; eauto. }
    rewrite storeAll_Some. eexists. split; [done|]. split.
    + intros h. cbn [gomap.get]. rewrite lookup_stored_range, lookup_empty.
      by destruct (gomap.get src h).
    + split; [done|]. by intros [? _].
  - eexists. split; [done|]. split.
    + intros h. by rewrite get_entries, entries_clear, lookup_empty.
    + destruct dst; cbn; split; try done. by intros [_ ?].
Qed.

Lemma storeAll_nil {V W} (f : V → W) (order : list string) (m : GoMap V) :
  gomap.len m = 0%nat → storeAll f None (gomap.range order m) = Some None.
Proof using Type.
  intros Hlen. assert (gomap.range order m = []) as ->; [|done].
  apply range_nil. destruct m as [g|]; cbn in *; [|done]. by apply map_size_empty_iff.
Qed.

Lemma get_len_0 {V} (m : GoMap V) (h : string) : gomap.len m = 0%nat → gomap.get m h = None.
Proof using Type.
  destruct m as [g|]; cbn; [|done]. intros ->%map_size_empty_iff. apply lookup_empty.
Qed.

Lemma copyVersions_spec (order : list string) (src dst : GoMap Z) (want : bool) :
  ∃ m,
    copyVersions order src dst want = Some m
    ∧ (∀ h, gomap.get m h = if want then gomap.get src h else None)
    ∧ (m = None ↔ dst = None ∧ (want = false ∨ gomap.len src = 0%nat)).
Proof using Type.
  unfold copyVersions. destruct want.
  - destruct dst as [d|]; cbn [gomap.clear].
    + rewrite storeAll_Some. eexists. split; [done|]. split.
      * intros h. cbn [gomap.get]. rewrite (lookup_stored_range (λ v : Z, v)), lookup_empty.
        by destruct (gomap.get src h).
      * split; [done|]. by intros [? _].
    + destruct (gomap.len src) eqn:Hlen; cbn.
      * rewrite storeAll_nil by done. exists None. split; [done|]. split.
        -- intros h. cbn. symmetry. by apply get_len_0.
        -- split; [|done]. intros _. split; [done|by right].
      * rewrite storeAll_Some. eexists. split; [done|]. split.
        -- intros h. cbn [gomap.get]. rewrite (lookup_stored_range (λ v : Z, v)), lookup_empty.
           by destruct (gomap.get src h).
        -- split; [done|]. intros [_ [?|?]]; done.
  - eexists. split; [done|]. split.
    + intros h. by rewrite get_entries, entries_clear, lookup_empty.
    + destruct dst; cbn; split; try done; [by intros [? _]|]. intros _. split; [done|by left].
Qed.

Lemma copyPowers_spec (order : list string) (src dst : GoMap Z) :
  ∃ m,
    copyPowers order src dst = Some m
    ∧ ∀ h, gomap.get m h
           = match gomap.get src h with
             | Some v => Some v
             | None => gomap.get dst h
             end.
Proof using Type.
  unfold copyPowers. destruct dst as [d|].
  - rewrite storeAll_Some. eexists. split; [done|]. intros h. cbn [gomap.get].
    by rewrite (lookup_stored_range (λ v : Z, v)).
  - eexists. split; [done|]. intros h. unfold gomap.clone. cbn.
    by destruct (gomap.get src h).
Qed.


(** What a lookup in a copied map gives. *)
Lemma copyVoteSummary_spec (order : list string) (src dst : VoteSummary) (want : bool) :
  ∃ vs,
    copyVoteSummary order src dst want = Some vs
    ∧ if want
      then (AvailablePower vs, TotalPrevotePower vs, TotalPrecommitPower vs,
            MostVotedPrevoteHash vs, MostVotedPrecommitHash vs)
           = (AvailablePower src, TotalPrevotePower src, TotalPrecommitPower src,
              MostVotedPrevoteHash src, MostVotedPrecommitHash src)
           ∧ (∀ h, gomap.get (PrevoteBlockPower vs) h
                   = match gomap.get (PrevoteBlockPower src) h with
                     | Some v => Some v
                     | None => gomap.get (PrevoteBlockPower (VoteSummaryReset dst)) h
                     end)
           ∧ (∀ h, gomap.get (PrecommitBlockPower vs) h
                   = match gomap.get (PrecommitBlockPower src) h with
                     | Some v => Some v
                     | None => gomap.get (PrecommitBlockPower (VoteSummaryReset dst)) h
                     end)
      else vs = VoteSummaryReset dst.
Proof using Type.
  unfold copyVoteSummary. destruct want; [|by eexists].
  destruct (copyPowers_spec order (PrevoteBlockPower src)
              (PrevoteBlockPower (VoteSummaryReset dst))) as (pv & -> & Hpv).
  destruct (copyPowers_spec order (PrecommitBlockPower src)
              (PrecommitBlockPower (VoteSummaryReset dst))) as (pc & -> & Hpc).
  cbn. eexists. split; [done|]. cbn. done.
Qed.

Lemma copySnapshotView_run (src dst : VersionedRoundView Proof) (fields : RVFieldFlags) :
  ∃ pv pvv pc pcv vs,
    copyProofs (rangeOrder k) (PrevoteProofs (RV src)) (PrevoteProofs (RV dst))
      (WantPrevotes fields) = Some pv
    ∧ copyVersions (rangeOrder k) (PrevoteBlockVersions src) (PrevoteBlockVersions dst)
        (WantPrevotes fields) = Some pvv
    ∧ copyProofs (rangeOrder k) (PrecommitProofs (RV src)) (PrecommitProofs (RV dst))
        (WantPrecommits fields) = Some pc
    ∧ copyVersions (rangeOrder k) (PrecommitBlockVersions src) (PrecommitBlockVersions dst)
        (WantPrecommits fields) = Some pcv
    ∧ copyVoteSummary (rangeOrder k) (VoteSummaryOf (RV src)) (VoteSummaryOf (RV dst))
        (WantVoteSummary fields) = Some vs
    ∧ copySnapshotView k src dst fields
      = Ok {| RV :=
                {| Height := Height (RV src);
                   Round := Round (RV src);
                   RVValidators :=
                     if WantValidators fields then RVValidators (RV src) else [];
                   ValidatorPubKeyHash :=
                     if WantValidators fields then ValidatorPubKeyHash (RV src) else "";
                   ValidatorVotePowerHash :=
                     if WantValidators fields then ValidatorVotePowerHash (RV src) else "";
                   ProposedBlocks :=
                     if WantProposedBlocks fields then ProposedBlocks (RV src) else [];
                   PrevoteProofs := pv;
                   PrecommitProofs := pc;
                   VoteSummaryOf := vs |};
              Version := Version src;
              PrevoteVersion := PrevoteVersion dst;
              PrecommitVersion := PrecommitVersion dst;
              PrevoteBlockVersions := pvv;
              PrecommitBlockVersions := pcv |}.
Proof using Type.
  unfold copySnapshotView. cbv zeta.
  destruct (copyProofs_spec (rangeOrder k) (PrevoteProofs (RV src)) (PrevoteProofs (RV dst))
              (WantPrevotes fields)) as (pv & Hpv & _).
  destruct (copyVersions_spec (rangeOrder k) (PrevoteBlockVersions src)
              (PrevoteBlockVersions dst) (WantPrevotes fields)) as (pvv & Hpvv & _).
  destruct (copyProofs_spec (rangeOrder k) (PrecommitProofs (RV src)) (PrecommitProofs (RV dst))
              (WantPrecommits fields)) as (pc & Hpc & _).
  destruct (copyVersions_spec (rangeOrder k) (PrecommitBlockVersions src)
              (PrecommitBlockVersions dst) (WantPrecommits fields)) as (pcv & Hpcv & _).
  destruct (copyVoteSummary_spec (rangeOrder k) (VoteSummaryOf (RV src))
              (VoteSummaryOf (RV dst)) (WantVoteSummary fields)) as (vs & Hvs & _).
  exists pv, pvv, pc, pcv, vs. rewrite Hpv, Hpvv, Hpc, Hpcv, Hvs. done.
Qed.

Lemma copySnapshotView_total (src dst : VersionedRoundView Proof) (fields : RVFieldFlags) :
  ∃ dst', copySnapshotView k src dst fields = Ok dst'.
Proof using Type.
  destruct (copySnapshotView_run src dst fields) as (? & ? & ? & ? & ? & _ & _ & _ & _ & _ & ->).
  by eexists.
Qed.

(** X13. copySnapshotView never panics.  The copy has the height, round and
    version of the source and keeps the vote versions of the
    destination; each group of fields holds the source's values when
    the flags ask for it and is empty otherwise; proofs are cloned; a
    nil proof map of the destination is made when the votes are asked
    for, a nil version map only when the source has a version. *)
Theorem copySnapshotView_copies (src dst : VersionedRoundView Proof) (fields : RVFieldFlags) :
  ∃ dst',
    copySnapshotView k src dst fields = Ok dst'
    ∧ (Height (RV dst'), Round (RV dst'), Version dst')
      = (Height (RV src), Round (RV src), Version src)
    ∧ (PrevoteVersion dst', PrecommitVersion dst') = (PrevoteVersion dst, PrecommitVersion dst)
    ∧ (RVValidators (RV dst'), ValidatorPubKeyHash (RV dst'), ValidatorVotePowerHash (RV dst'))
      = (if WantValidators fields
         then (RVValidators (RV src), ValidatorPubKeyHash (RV src),
               ValidatorVotePowerHash (RV src))
         else ([], "", ""))
    ∧ ProposedBlocks (RV dst')
      = (if WantProposedBlocks fields then ProposedBlocks (RV src) else [])
    ∧ (∀ h, gomap.get (PrevoteProofs (RV dst')) h
            = if WantPrevotes fields
              then ProofClone <$> gomap.get (PrevoteProofs (RV src)) h else None)
    ∧ (∀ h, gomap.get (PrevoteBlockVersions dst') h
            = if WantPrevotes fields then gomap.get (PrevoteBlockVersions src) h else None)
    ∧ (∀ h, gomap.get (PrecommitProofs (RV dst')) h
            = if WantPrecommits fields
              then ProofClone <$> gomap.get (PrecommitProofs (RV src)) h else None)
    ∧ (∀ h, gomap.get (PrecommitBlockVersions dst') h
            = if WantPrecommits fields then gomap.get (PrecommitBlockVersions src) h else None)
    ∧ (PrevoteProofs (RV dst') = None
       ↔ WantPrevotes fields = false ∧ PrevoteProofs (RV dst) = None)
    ∧ (PrecommitProofs (RV dst') = None
       ↔ WantPrecommits fields = false ∧ PrecommitProofs (RV dst) = None)
    ∧ (PrevoteBlockVersions dst' = None
       ↔ PrevoteBlockVersions dst = None
         ∧ (WantPrevotes fields = false ∨ gomap.len (PrevoteBlockVersions src) = 0%nat))
    ∧ (PrecommitBlockVersions dst' = None
       ↔ PrecommitBlockVersions dst = None
         ∧ (WantPrecommits fields = false ∨ gomap.len (PrecommitBlockVersions src) = 0%nat)).
Proof using Type.
  destruct (copySnapshotView_run src dst fields)
    as (pv & pvv & pc & pcv & vs & Hpv & Hpvv & Hpc & Hpcv & _ & ->).
  destruct (copyProofs_spec (rangeOrder k) (PrevoteProofs (RV src)) (PrevoteProofs (RV dst))
              (WantPrevotes fields)) as (pv' & Hpv' & Hpvl & Hpvn).
  destruct (copyVersions_spec (rangeOrder k) (PrevoteBlockVersions src)
              (PrevoteBlockVersions dst) (WantPrevotes fields)) as (pvv' & Hpvv' & Hpvvl & Hpvvn).
  destruct (copyProofs_spec (rangeOrder k) (PrecommitProofs (RV src)) (PrecommitProofs (RV dst))
              (WantPrecommits fields)) as (pc' & Hpc' & Hpcl & Hpcn).
  destruct (copyVersions_spec (rangeOrder k) (PrecommitBlockVersions src)
              (PrecommitBlockVersions dst) (WantPrecommits fields)) as (pcv' & Hpcv' & Hpcvl & Hpcvn).
  simplify_eq. eexists. split; [done|]. cbn.
  split_and!; try done; by destruct (WantValidators fields).
Qed.

(** X14. The vote summary of a snapshot: the destination's summary after
    Reset when the flags do not ask for it; otherwise the powers and
    most voted hashes of the source, and block powers that are the
    source's wherever the source has an entry. *)
Theorem copySnapshotView_summary (src dst : VersionedRoundView Proof) (fields : RVFieldFlags) :
  ∃ dst',
    copySnapshotView k src dst fields = Ok dst'
    ∧ let vs := VoteSummaryOf (RV dst') in
      let from := VoteSummaryOf (RV src) in
      let reset := VoteSummaryReset (VoteSummaryOf (RV dst)) in
      if WantVoteSummary fields
      then (AvailablePower vs, TotalPrevotePower vs, TotalPrecommitPower vs,
            MostVotedPrevoteHash vs, MostVotedPrecommitHash vs)
           = (AvailablePower from, TotalPrevotePower from, TotalPrecommitPower from,
              MostVotedPrevoteHash from, MostVotedPrecommitHash from)
           ∧ (∀ h, gomap.get (PrevoteBlockPower vs) h
                   = match gomap.get (PrevoteBlockPower from) h with
                     | Some v => Some v
                     | None => gomap.get (PrevoteBlockPower reset) h
                     end)
           ∧ (∀ h, gomap.get (PrecommitBlockPower vs) h
                   = match gomap.get (PrecommitBlockPower from) h with
                     | Some v => Some v
                     | None => gomap.get (PrecommitBlockPower reset) h
                     end)
      else vs = reset.
Proof using Type.
  destruct (copySnapshotView_run src dst fields)
    as (pv & pvv & pc & pcv & vs & _ & _ & _ & _ & Hvs & ->).
  destruct (copyVoteSummary_spec (rangeOrder k) (VoteSummaryOf (RV src))
              (VoteSummaryOf (RV dst)) (WantVoteSummary fields)) as (vs' & Hvs' & Hspec).
  simplify_eq. eexists. split; [done|]. cbn. done.
Qed.

(** X15. sendSnapshotResponse fills the views the request points to, the
    voting one from the voting view and the committing one from the
    committing view, and leaves a nil pointer nil. *)
Theorem sendSnapshotResponse_fills (s : @kState Proof) (req : SnapshotRequest) :
  ∃ snap,
    sendSnapshotResponse k s req = Ok snap
    ∧ match SnapVoting (ReqSnapshot req) with
      | None => SnapVoting snap = None
      | Some dst =>
        ∃ dst', SnapVoting snap = Some dst'
                ∧ copySnapshotView k (VRV (Voting s)) dst (ReqFields req) = Ok dst'
                ∧ (Height (RV dst'), Round (RV dst'), Version dst')
                  = (Height (RV (VRV (Voting s))), Round (RV (VRV (Voting s))),
                     Version (VRV (Voting s)))
      end
    ∧ match SnapCommitting (ReqSnapshot req) with
      | None => SnapCommitting snap = None
      | Some dst =>
        ∃ dst', SnapCommitting snap = Some dst'
                ∧ copySnapshotView k (VRV (Committing s)) dst (ReqFields req) = Ok dst'
                ∧ (Height (RV dst'), Round (RV dst'), Version dst')
                  = (Height (RV (VRV (Committing s))), Round (RV (VRV (Committing s))),
                     Version (VRV (Committing s)))
      end.
Proof using Type.
  unfold sendSnapshotResponse, copyInto.
  destruct (SnapVoting (ReqSnapshot req)) as [dv|], (SnapCommitting (ReqSnapshot req)) as [dc|].
  - destruct (copySnapshotView_run (VRV (Voting s)) dv (ReqFields req))
      as (? & ? & ? & ? & ? & _ & _ & _ & _ & _ & Hv).
    destruct (copySnapshotView_run (VRV (Committing s)) dc (ReqFields req))
      as (? & ? & ? & ? & ? & _ & _ & _ & _ & _ & Hc).
    rewrite Hv, Hc. eexists. split; [done|]. cbn. split; eexists; done.
  - destruct (copySnapshotView_run (VRV (Voting s)) dv (ReqFields req))
      as (? & ? & ? & ? & ? & _ & _ & _ & _ & _ & Hv).
    rewrite Hv. eexists. split; [done|]. cbn. split; [eexists|]; done.
  - destruct (copySnapshotView_run (VRV (Committing s)) dc (ReqFields req))
      as (? & ? & ? & ? & ? & _ & _ & _ & _ & _ & Hc).
    rewrite Hc. eexists. split; [done|]. cbn. split; [|eexists]; done.
  - eexists. split; [done|]. done.
Qed.

(** X16. sendViewLookupResponse panics on an empty reason; otherwise it
    replies with the ID and status of the lookup, after copying the
    view found into the request, which panics on a nil pointer; when no
    view is found the view of the request is left as it is. *)
Theorem sendViewLookupResponse_replies (s : @kState Proof) (req : ViewLookupRequest) :
  let fv := FindView s (VLH req) (VLR req) (VLReason req) in
  let run := sendViewLookupResponse FindView k s req in
  (VLReason req = "" → run = Panic emptyReasonPanic)
  ∧ (VLReason req ≠ "" → fvView fv = None →
     run = Ok (VLVRV req, {| RespID := fvID fv; RespStatus := fvStatus fv |}))
  ∧ (VLReason req ≠ "" → ∀ ref dst,
       fvView fv = Some ref → VLVRV req = Some dst →
       ∃ dst',
         copySnapshotView k (VRV (viewAt s ref)) dst (VLFields req) = Ok dst'
         ∧ run = Ok (Some dst', {| RespID := fvID fv; RespStatus := fvStatus fv |}))
  ∧ (VLReason req ≠ "" → is_Some (fvView fv) → VLVRV req = None → run = Panic nilDeref).
Proof using Type.
  intros fv run. unfold run, sendViewLookupResponse. fold fv. split_and!.
  - intros ->. done.
  - intros Hne ->. by rewrite bool_decide_eq_false_2.
  - intros Hne ref dst -> ->. rewrite bool_decide_eq_false_2 by done.
    destruct (copySnapshotView_total (VRV (viewAt s ref)) dst (VLFields req)) as [dst' Hrun].
    exists dst'. by rewrite Hrun.
  - intros Hne [ref ->] ->. by rewrite bool_decide_eq_false_2.
Qed.

(** The verdicts of setPBCheckStatus. *)
Lemma setPBCheckStatus_cases (pb : ProposedBlock) (resp : PBCheckResponse)
    (vrv : VersionedRoundView Proof) :
  let resp' := setPBCheckStatus PubKeyEqual pb resp vrv in
  let known := ∃ have, have ∈ ProposedBlocks (RV vrv) ∧ Signature have = Signature pb in
  let signer val := PubKeyEqual (ProposerPubKey pb) (ValPubKey val) = true in
  VotingRoundView resp' = VotingRoundView resp
  ∧ ((Status resp' = PBCheckAlreadyHaveSignature ∧ known
      ∧ RespProposerPubKey resp' = RespProposerPubKey resp)
     ∨ (Status resp' = PBCheckSignerUnrecognized ∧ ¬ known
        ∧ (∀ val, val ∈ RVValidators (RV vrv) → ¬ signer val)
        ∧ RespProposerPubKey resp' = RespProposerPubKey resp)
     ∨ (Status resp' = PBCheckAcceptable ∧ ¬ known
        ∧ ∃ i val,
            RVValidators (RV vrv) !! i = Some val ∧ signer val
            ∧ (∀ j other, RVValidators (RV vrv) !! j = Some other → (j < i)%nat →
                          ¬ signer other)
            ∧ RespProposerPubKey resp' = Some (ValPubKey val))).
Proof using Type.
  cbv zeta. unfold setPBCheckStatus.
  destruct (existsb (sameSignature pb) (ProposedBlocks (RV vrv))) eqn:Hdup.
  - apply existsb_sameSignature in Hdup. split; [done|]. left. done.
  - assert (¬ ∃ have, have ∈ ProposedBlocks (RV vrv) ∧ Signature have = Signature pb) as Hno.
    { intros Hk. apply existsb_sameSignature in Hk. congruence. }
    destruct (find _ (RVValidators (RV vrv))) as [val|] eqn:Hfind.
    + split; [done|]. right; right. split_and!; [done|done|].
      revert Hfind. generalize (RVValidators (RV vrv)). intros vals.
      induction vals as [|v vals IH]; cbn; [done|].
      destruct (PubKeyEqual (ProposerPubKey pb) (ValPubKey v)) eqn:Hv.
      * intros [= ->]. exists 0%nat, val. split_and!; [done|done| |done].
        intros j other _ Hj. lia.
      * intros Hf. destruct (IH Hf) as (i & val' & Hi & Hs & Hfirst & Hk).
        exists (S i), val'. split_and!; [done|done| |done].
        intros [|j] other Hj Hlt; cbn in Hj.
        -- injection Hj as <-. by rewrite Hv.
        -- apply (Hfirst j other Hj). lia.
    + split; [done|]. right; left. split_and!; [done|done| |done].
      intros val Hin Hs.
      assert (∀ vals : list Validator,
                find (λ val, PubKeyEqual (ProposerPubKey pb) (ValPubKey val)) vals = None →
                val ∈ vals → False) as Hgen; [|by eapply Hgen].
      induction vals as [|v vals IH]; cbn.
      * intros _ Hv. by apply elem_of_nil in Hv.
      * destruct (PubKeyEqual (ProposerPubKey pb) (ValPubKey v)) eqn:Hv; [done|].
        intros Hf [->|Hv']%elem_of_cons; [congruence|]. by apply IH.
Qed.

(** X17. The verdict on a proposed block against a view: the signature is
    already known exactly when a proposed block of the view has it;
    otherwise the block is acceptable exactly when some validator of
    the view has the proposer's key, and the key reported is that of
    the first such validator; otherwise the signer is unrecognized and
    the reported key is left as it was. *)
Theorem setPBCheckStatus_verdict (pb : ProposedBlock) (resp : PBCheckResponse)
    (vrv : VersionedRoundView Proof) :
  let resp' := setPBCheckStatus PubKeyEqual pb resp vrv in
  let known := ∃ have, have ∈ ProposedBlocks (RV vrv) ∧ Signature have = Signature pb in
  let signer val := PubKeyEqual (ProposerPubKey pb) (ValPubKey val) = true in
  (Status resp' = PBCheckAlreadyHaveSignature ↔ known)
  ∧ (Status resp' = PBCheckAcceptable
     ↔ ¬ known ∧ ∃ val, val ∈ RVValidators (RV vrv) ∧ signer val)
  ∧ (Status resp' = PBCheckSignerUnrecognized
     ↔ ¬ known ∧ ∀ val, val ∈ RVValidators (RV vrv) → ¬ signer val)
  ∧ (Status resp' = PBCheckAcceptable →
     ∃ i val,
       RVValidators (RV vrv) !! i = Some val ∧ signer val
       ∧ (∀ j other, RVValidators (RV vrv) !! j = Some other → (j < i)%nat → ¬ signer other)
       ∧ RespProposerPubKey resp' = Some (ValPubKey val))
  ∧ (Status resp' ≠ PBCheckAcceptable → RespProposerPubKey resp' = RespProposerPubKey resp)
  ∧ (Status resp' = PBCheckAlreadyHaveSignature
     ↔ existsb (sameSignature pb) (ProposedBlocks (RV vrv)) = true).
Proof using Type.
  cbv zeta.
  destruct (setPBCheckStatus_cases pb resp vrv)
    as (_ & [(Hst & Hk & Hkey)|[(Hst & Hk & Hs & Hkey)|(Hst & Hk & i & val & Hi & Hs & Hfirst & Hkey)]]);
    rewrite Hst; split_and!; try done;
    try (by rewrite existsb_sameSignature);
    try (split; [intros [=]|intros [Hn _]; done]).
  - split; [intros [=]|]. intros [_ (val & Hin & Hv)]. by destruct (Hs val Hin).
  - split; [done|]. exists val. split; [|done]. by eapply list_elem_of_lookup_2.
  - split; [intros [=]|]. intros [_ Hall]. exfalso. eapply Hall; [|exact Hs].
    by eapply list_elem_of_lookup_2.
  - intros _. by exists i, val.
Qed.

Lemma setPBCheckStatus_valid (pb : ProposedBlock) (vrv : VersionedRoundView Proof) :
  Status (setPBCheckStatus PubKeyEqual pb zeroPBCheckResponse vrv) ≠ PBCheckInvalid.
Proof using Type.
  destruct (setPBCheckStatus_cases pb zeroPBCheckResponse vrv)
    as (_ & [(-> & _)|[(-> & _)|(-> & _)]]); done.
Qed.

Ltac pb_cases :=
  repeat match goal with
         | |- context [?a <? ?b] => destruct (Z.ltb_spec a b)
         | |- context [?a =? ?b] => destruct (Z.eqb_spec a b)
         end.

(** X18. sendPBCheckResponse never reaches its panic for an undetermined
    status.  It panics exactly for a block of the committing height in
    a round after the committing round, and for a block of the voting
    height in a round after the voting round other than the next
    round. *)
Theorem sendPBCheckResponse_panics (s : @kState Proof) (pb : ProposedBlock) :
  let pbHeight := BHeight (PBBlock pb) in
  let pbRound := PBRound pb in
  let votingHeight := Height (RV (VRV (Voting s))) in
  let votingRound := Round (RV (VRV (Voting s))) in
  let committingHeight := Height (RV (VRV (Committing s))) in
  let committingRound := Round (RV (VRV (Committing s))) in
  let run := sendPBCheckResponse PubKeyEqual s pb in
  run ≠ Panic undeterminedPanic
  ∧ (run = Panic beyondCommittingPanic
     ↔ pbHeight = committingHeight ∧ committingRound < pbRound)
  ∧ (run = Panic beyondVotingPanic
     ↔ committingHeight < pbHeight ∧ pbHeight = votingHeight
       ∧ votingRound < pbRound ∧ pbRound ≠ u32 (votingRound + 1))
  ∧ ∀ msg, run = Panic msg → msg = beyondCommittingPanic ∨ msg = beyondVotingPanic.
Proof using Type.
  cbv zeta. unfold sendPBCheckResponse. cbv zeta.
  pose proof (setPBCheckStatus_valid pb) as Hset.
  pb_cases; cbn [withStatus Status]; rewrite ?(bool_decide_eq_false_2 _ (Hset _));
    cbn; (split_and!; [done| | |]);
    try (split; [done|intros ?; lia]);
    try (split; [intros _; lia|done]);
    try (split; [done|intros (? & ? & ? & ?); first [lia|done]]);
    try (intros msg [=]; auto).
Qed.

(** X19. The status sendPBCheckResponse replies with: too old below the
    committing height or round, or below the voting round; next height
    one above the voting height, with a clone of the voting round view
    attached to that reply only; too far in the future beyond that; and
    for the committing, voting and next round, the verdict of
    setPBCheckStatus against that view. *)
Theorem sendPBCheckResponse_status (s : @kState Proof) (pb : ProposedBlock)
    (resp : PBCheckResponse) :
  let pbHeight := BHeight (PBBlock pb) in
  let pbRound := PBRound pb in
  let votingHeight := Height (RV (VRV (Voting s))) in
  let votingRound := Round (RV (VRV (Voting s))) in
  let committingHeight := Height (RV (VRV (Committing s))) in
  let committingRound := Round (RV (VRV (Committing s))) in
  sendPBCheckResponse PubKeyEqual s pb = Ok resp →
  (Status resp = PBCheckRoundTooOld
   ↔ pbHeight < committingHeight
     ∨ (pbHeight = committingHeight ∧ pbRound < committingRound)
     ∨ (committingHeight < pbHeight ∧ pbHeight = votingHeight ∧ pbRound < votingRound))
  ∧ (Status resp = PBCheckNextHeight
     ↔ committingHeight < pbHeight ∧ pbHeight ≠ votingHeight
       ∧ pbHeight = u64 (votingHeight + 1))
  ∧ (Status resp = PBCheckRoundTooFarInFuture
     ↔ committingHeight < pbHeight ∧ pbHeight ≠ votingHeight
       ∧ pbHeight ≠ u64 (votingHeight + 1))
  ∧ VotingRoundView resp
    = (if decide (Status resp = PBCheckNextHeight)
       then Some (RoundView_Clone (RV (VRV (Voting s)))) else None)
  ∧ (pbHeight = committingHeight → pbRound = committingRound →
     resp = setPBCheckStatus PubKeyEqual pb zeroPBCheckResponse (VRV (Committing s)))
  ∧ (committingHeight < pbHeight → pbHeight = votingHeight → pbRound = votingRound →
     resp = setPBCheckStatus PubKeyEqual pb zeroPBCheckResponse (VRV (Voting s)))
  ∧ (committingHeight < pbHeight → pbHeight = votingHeight → votingRound < pbRound →
     resp = setPBCheckStatus PubKeyEqual pb zeroPBCheckResponse (VRV (NextRound s))).
Proof using Type.
  cbv zeta. unfold sendPBCheckResponse. cbv zeta.
  pose proof (setPBCheckStatus_valid pb) as Hset.
  assert (∀ vrv : VersionedRoundView Proof,
            let r := setPBCheckStatus PubKeyEqual pb zeroPBCheckResponse vrv in
            Status r ≠ PBCheckRoundTooOld ∧ Status r ≠ PBCheckNextHeight
            ∧ Status r ≠ PBCheckRoundTooFarInFuture ∧ VotingRoundView r = None) as Hthree.
  { intros vrv.
    destruct (setPBCheckStatus_cases pb zeroPBCheckResponse vrv)
      as (Hv & [(Hst & _)|[(Hst & _)|(Hst & _)]]); cbn zeta; rewrite Hst, Hv; done. }
  pb_cases; cbn [withStatus Status]; rewrite ?(bool_decide_eq_false_2 _ (Hset _));
    cbn [bool_decide decide_rel]; try done; intros [= <-];
    try (destruct (Hthree (VRV (Committing s))) as (? & ? & ? & ?));
    try (destruct (Hthree (VRV (Voting s))) as (? & ? & ? & ?));
    try (destruct (Hthree (VRV (NextRound s))) as (? & ? & ? & ?));
    cbn [Status VotingRoundView zeroPBCheckResponse];
    (split_and!;
     [ first [by (split; [intros _; lia|done])
             |split; [done|intros [?|[[? ?]|[? [? ?]]]]; lia]]
     | first [by (split; [intros _; lia|done])
             |split; [done|intros (? & ? & ?); first [lia|done]]]
     | first [by (split; [intros _; lia|done])
             |split; [done|intros (? & ? & ?); first [lia|done]]]
     | first [by rewrite decide_True|rewrite decide_False; done]
     | intros; first [done|lia]
     | intros; first [done|lia]
     | intros; first [done|lia] ]).
Qed.

End RespondersProps.

Section OutputsProps.
Context {Proof : Type} {collab : Collaborators Proof}.
Variable chans : OutputChannels.
Variable SignatureBitSetNone : Proof → bool.
Variable k : @Kernel Proof.

Lemma get_del {V} (m : GoMap V) (h h' : string) :
  gomap.get (gomap.del m h) h' = if decide (h' = h) then None else gomap.get m h'.
Proof using Type.
  destruct m as [g|]; cbn; [|by case_decide].
  case_decide as Heq; [subst; apply lookup_delete_eq|by apply lookup_delete_ne].
Qed.

Lemma stripNil_spec (proofs : GoMap Proof) :
  match gomap.get proofs "" with
  | None => stripNil SignatureBitSetNone proofs = Panic nilDeref
  | Some p =>
    ∃ proofs',
      stripNil SignatureBitSetNone proofs = Ok proofs'
      ∧ gomap.get proofs' "" = (if SignatureBitSetNone p then None else Some p)
      ∧ ∀ h, h ≠ "" → gomap.get proofs' h = gomap.get proofs h
  end.
Proof using Type.
  unfold stripNil. destruct (gomap.get proofs "") as [p|] eqn:Hp; [|done].
  eexists. split; [done|]. destruct (SignatureBitSetNone p).
  - split; [by rewrite get_del, decide_True|].
    intros h Hne. by rewrite get_del, decide_False.
  - done.
Qed.

Lemma stripEmptyNilVotes_strips_lemma (vrv : VersionedRoundView Proof) :
  let prevotes := PrevoteProofs (RV vrv) in
  let precommits := PrecommitProofs (RV vrv) in
  let kept (p : Proof) := if SignatureBitSetNone p then None else Some p in
  match gomap.get prevotes "", gomap.get precommits "" with
  | Some pv, Some pc =>
    ∃ vrv',
      stripEmptyNilVotes SignatureBitSetNone vrv = Ok vrv'
      ∧ gomap.get (PrevoteProofs (RV vrv')) "" = kept pv
      ∧ gomap.get (PrecommitProofs (RV vrv')) "" = kept pc
      ∧ (∀ h, h ≠ "" →
           gomap.get (PrevoteProofs (RV vrv')) h = gomap.get prevotes h
           ∧ gomap.get (PrecommitProofs (RV vrv')) h = gomap.get precommits h)
      ∧ vrv' = withRV vrv (setPrecommitProofs
                             (setPrevoteProofs (RV vrv) (PrevoteProofs (RV vrv')))
                             (PrecommitProofs (RV vrv')))
  | _, _ => stripEmptyNilVotes SignatureBitSetNone vrv = Panic nilDeref
  end.
Proof using Type.
  cbv zeta. unfold stripEmptyNilVotes.
  pose proof (stripNil_spec (PrevoteProofs (RV vrv))) as Hpv.
  pose proof (stripNil_spec (PrecommitProofs (RV vrv))) as Hpc.
  destruct (gomap.get (PrevoteProofs (RV vrv)) "") as [pv|].
  - destruct Hpv as (pv' & -> & Hpv0 & Hpvh).
    destruct (gomap.get (PrecommitProofs (RV vrv)) "") as [pc|].
    + destruct Hpc as (pc' & -> & Hpc0 & Hpch).
      eexists. split; [done|]. cbn. split_and!; try done.
      intros h Hne. split; [by apply Hpvh|by apply Hpch].
    + by rewrite Hpc.
  - by rewrite Hpv.
Qed.

(** X20. stripEmptyNilVotes panics when the prevotes or the precommits have no
    nil proof.  Otherwise each nil proof is removed exactly when it
    holds no signature, and nothing else is changed. *)
Theorem stripEmptyNilVotes_strips (vrv : VersionedRoundView Proof) :
  let prevotes := PrevoteProofs (RV vrv) in
  let precommits := PrecommitProofs (RV vrv) in
  let kept (p : Proof) := if SignatureBitSetNone p then None else Some p in
  match gomap.get prevotes "", gomap.get precommits "" with
  | Some pv, Some pc =>
    ∃ vrv',
      stripEmptyNilVotes SignatureBitSetNone vrv = Ok vrv'
      ∧ gomap.get (PrevoteProofs (RV vrv')) "" = kept pv
      ∧ gomap.get (PrecommitProofs (RV vrv')) "" = kept pc
      ∧ (∀ h, h ≠ "" →
           gomap.get (PrevoteProofs (RV vrv')) h = gomap.get prevotes h
           ∧ gomap.get (PrecommitProofs (RV vrv')) h = gomap.get precommits h)
      ∧ vrv' = withRV vrv (setPrecommitProofs
                             (setPrevoteProofs (RV vrv) (PrevoteProofs (RV vrv')))
                             (PrecommitProofs (RV vrv')))
  | _, _ => stripEmptyNilVotes SignatureBitSetNone vrv = Panic nilDeref
  end.
Proof using Type. apply stripEmptyNilVotes_strips_lemma. Qed.

(** What is offered for one view. *)
Lemma unsentView_spec (o : @OutgoingView Proof) (val : option (VersionedRoundView Proof)) :
  unsentView SignatureBitSetNone o = Ok val →
  (is_Some val ↔ HasBeenSent o = false)
  ∧ ∀ v, val = Some v →
      stripEmptyNilVotes SignatureBitSetNone (VersionedRoundView_Clone (OutVRV o)) = Ok v
      ∧ (∀ p, gomap.get (PrevoteProofs (RV v)) "" = Some p → SignatureBitSetNone p = false)
      ∧ (∀ p, gomap.get (PrecommitProofs (RV v)) "" = Some p → SignatureBitSetNone p = false)
      ∧ (∀ h, h ≠ "" →
           gomap.get (PrevoteProofs (RV v)) h
           = ProofClone <$> gomap.get (PrevoteProofs (RV (OutVRV o))) h
           ∧ gomap.get (PrecommitProofs (RV v)) h
             = ProofClone <$> gomap.get (PrecommitProofs (RV (OutVRV o))) h).
Proof using Type.
  unfold unsentView. destruct (HasBeenSent o); cbn [negb].
  - intros [= <-]. split; [|done]. split; [by intros [? ?]|done].
  - destruct (stripEmptyNilVotes _ _) as [v|msg] eqn:Hstrip; [|done].
    intros [= <-]. split; [split; [done|by eexists]|].
    intros v' [= <-]. split; [done|].
    pose proof (stripEmptyNilVotes_strips_lemma (VersionedRoundView_Clone (OutVRV o))) as Hs.
    cbv zeta in Hs.
    destruct (gomap.get (PrevoteProofs (RV (VersionedRoundView_Clone (OutVRV o)))) "")
      as [pv|]; [|congruence].
    destruct (gomap.get (PrecommitProofs (RV (VersionedRoundView_Clone (OutVRV o)))) "")
      as [pc|]; [|congruence].
    destruct Hs as (v' & Hrun & Hpv & Hpc & Hother & _).
    rewrite Hstrip in Hrun. injection Hrun as <-.
    split_and!.
    + intros p. rewrite Hpv. by destruct (SignatureBitSetNone pv) eqn:E; intros [= <-].
    + intros p. rewrite Hpc. by destruct (SignatureBitSetNone pc) eqn:E; intros [= <-].
    + intros h Hne. destruct (Hother h Hne) as [-> ->]. cbn.
      by rewrite !get_cloneProofs.
Qed.

(** X21. gossipStrategyOutput offers a view exactly when its outgoing copy
    was not sent, which is when viewOutputs offers it; the value is a
    clone of the outgoing copy without empty nil proofs; the nil-voted
    round is passed on; and the output channel is nil exactly when
    nothing is offered. *)
Theorem gossipStrategyOutput_offers (s : @kState Proof) (o : gossipStrategyOut) :
  gossipStrategyOutput chans SignatureBitSetNone s = Ok o →
  let views :=
    [(Voting s, NVUVoting (GsVal o), VotingCh (Kernel_viewOutputs chans s));
     (Committing s, NVUCommitting (GsVal o), CommittingCh (Kernel_viewOutputs chans s));
     (NextRound s, NVUNextRound (GsVal o), NextRoundCh (Kernel_viewOutputs chans s))] in
  GsCh o = (if bool_decide (Forall (λ x, HasBeenSent (Outgoing x.1.1) = true) views
                            ∧ NilVotedRound s = None)
            then None else Some (gossipOutCh chans))
  ∧ NVUNilVotedRound (GsVal o) = NilVotedRound s
  ∧ ∀ view val ch, (view, val, ch) ∈ views →
      (is_Some val ↔ HasBeenSent (Outgoing view) = false)
      ∧ (is_Some val ↔ is_Some ch)
      ∧ ∀ v, val = Some v →
          stripEmptyNilVotes SignatureBitSetNone
            (VersionedRoundView_Clone (OutVRV (Outgoing view))) = Ok v
          ∧ (∀ p, gomap.get (PrevoteProofs (RV v)) "" = Some p → SignatureBitSetNone p = false)
          ∧ (∀ p, gomap.get (PrecommitProofs (RV v)) "" = Some p →
                  SignatureBitSetNone p = false)
          ∧ (∀ h, h ≠ "" →
               gomap.get (PrevoteProofs (RV v)) h
               = ProofClone <$> gomap.get (PrevoteProofs (RV (OutVRV (Outgoing view)))) h
               ∧ gomap.get (PrecommitProofs (RV v)) h
                 = ProofClone <$> gomap.get (PrecommitProofs (RV (OutVRV (Outgoing view)))) h).
Proof using Type.
  unfold gossipStrategyOutput.
  destruct (unsentView _ (Outgoing (Voting s))) as [v|] eqn:Hv; [|done].
  destruct (unsentView _ (Outgoing (Committing s))) as [c|] eqn:Hc; [|done].
  destruct (unsentView _ (Outgoing (NextRound s))) as [n|] eqn:Hn; [|done].
  intros [= <-]. cbv zeta.
  cbn [GsCh GsVal NVUVoting NVUCommitting NVUNextRound NVUNilVotedRound].
  apply unsentView_spec in Hv as [Hv1 Hv2], Hc as [Hc1 Hc2], Hn as [Hn1 Hn2].
  split_and!.
  - assert (∀ (o : @OutgoingView Proof) (x : option (VersionedRoundView Proof)),
              (is_Some x ↔ HasBeenSent o = false) →
              HasBeenSent o = true ↔ x = None) as Hsent.
    { intros o x Hx. destruct x as [x|], (HasBeenSent o); split; try done.
      - intros _. exfalso. destruct Hx as [Hx _]. by discriminate Hx.
      - intros _. destruct Hx as [_ Hx]. by destruct (Hx eq_refl). }
    match goal with
    | |- _ = (if bool_decide ?P then _ else _) =>
      destruct (decide P) as [Hall|Hall];
        [rewrite (bool_decide_eq_true_2 P Hall)|rewrite (bool_decide_eq_false_2 P Hall)]
    end.
    + destruct Hall as [Hf ->]. rewrite !Forall_cons in Hf. cbn [fst] in Hf.
      destruct Hf as (H1 & H2 & H3 & _).
      apply (Hsent _ _ Hv1) in H1. apply (Hsent _ _ Hc1) in H2. apply (Hsent _ _ Hn1) in H3.
      by subst.
    + destruct v as [v|], c as [c|], n as [n|], (NilVotedRound s) as [nv|]; try done.
      exfalso. apply Hall. split; [|done]. rewrite !Forall_cons. cbn [fst].
      split_and!; [by eapply Hsent|by eapply Hsent|by eapply Hsent|done].
  - done.
  - intros view val ch Hin.
    repeat (apply elem_of_cons in Hin as [[= -> -> ->]|Hin]);
      [| | |by apply elem_of_nil in Hin]; cbn.
    + split_and!; [done| |done].
      rewrite Hv1. destruct (HasBeenSent (Outgoing (Voting s))); cbn; split; try done;
        by intros [? ?].
    + split_and!; [done| |done].
      rewrite Hc1. destruct (HasBeenSent (Outgoing (Committing s))); cbn; split; try done;
        by intros [? ?].
    + split_and!; [done| |done].
      rewrite Hn1. destruct (HasBeenSent (Outgoing (NextRound s))); cbn; split; try done;
        by intros [? ?].
Qed.

(** X22. After the output to the gossip strategy was sent and marked as sent,
    neither gossipStrategyOutput nor viewOutputs has anything to
    offer, the nil-voted round is cleared, and the views and their
    outgoing copies hold what they held. *)
Theorem gossip_sent_once (s : @kState Proof) (o : gossipStrategyOut) :
  gossipStrategyOutput chans SignatureBitSetNone s = Ok o →
  let s' := gossipStrategyOut_MarkSent o s in
  gossipStrategyOutput chans SignatureBitSetNone s'
  = Ok {| GsCh := None;
          GsVal := {| NVUVoting := None; NVUCommitting := None; NVUNextRound := None;
                      NVUNilVotedRound := None |} |}
  ∧ (VotingCh (Kernel_viewOutputs chans s'), CommittingCh (Kernel_viewOutputs chans s'),
     NextRoundCh (Kernel_viewOutputs chans s')) = (None, None, None)
  ∧ NilVotedRound s' = None
  ∧ (VRV (Voting s'), VRV (Committing s'), VRV (NextRound s'))
    = (VRV (Voting s), VRV (Committing s), VRV (NextRound s))
  ∧ (OutVRV (Outgoing (Voting s')), OutVRV (Outgoing (Committing s')),
     OutVRV (Outgoing (NextRound s')))
    = (OutVRV (Outgoing (Voting s)), OutVRV (Outgoing (Committing s)),
       OutVRV (Outgoing (NextRound s)))
  ∧ (CommittingBlock s', InFlightFetchPBs s', StateMachineView s')
    = (CommittingBlock s, InFlightFetchPBs s, StateMachineView s).
Proof using Type.
  intros Hrun s'.
  unfold gossipStrategyOutput in Hrun.
  destruct (unsentView _ (Outgoing (Voting s))) as [v|] eqn:Hv; [|done].
  destruct (unsentView _ (Outgoing (Committing s))) as [c|] eqn:Hc; [|done].
  destruct (unsentView _ (Outgoing (NextRound s))) as [n|] eqn:Hn; [|done].
  injection Hrun as <-.
  apply unsentView_spec in Hv as [Hv1 _], Hc as [Hc1 _], Hn as [Hn1 _].
  assert (HasBeenSent (Outgoing (Voting s')) = true) as Hvs.
  { unfold s'. cbn. case_bool_decide as Hd; [done|].
    destruct (HasBeenSent (Outgoing (Voting s))) eqn:E; [done|]. exfalso. by apply Hd, Hv1. }
  assert (HasBeenSent (Outgoing (Committing s')) = true) as Hcs.
  { unfold s'. cbn. case_bool_decide as Hd; [done|].
    destruct (HasBeenSent (Outgoing (Committing s))) eqn:E; [done|]. exfalso. by apply Hd, Hc1. }
  assert (HasBeenSent (Outgoing (NextRound s')) = true) as Hns.
  { unfold s'. cbn. case_bool_decide as Hd; [done|].
    destruct (HasBeenSent (Outgoing (NextRound s))) eqn:E; [done|]. exfalso. by apply Hd, Hn1. }
  split_and!.
  - unfold gossipStrategyOutput, unsentView. rewrite Hvs, Hcs, Hns. done.
  - unfold Kernel_viewOutputs. cbn [VotingCh CommittingCh NextRoundCh].
    by rewrite Hvs, Hcs, Hns.
  - done.
  - unfold s'. cbn. by repeat case_bool_decide.
  - unfold s'. cbn. by repeat case_bool_decide.
  - done.
Qed.

End OutputsProps.

Section RoundUpdateProps.
Context {Proof : Type} {collab : Collaborators Proof}.
Variable smvReset : @stateMachineView Proof → StateMachineRoundActionSet → @stateMachineView Proof.
Variable MarkFirstSentVersion : @stateMachineView Proof → Z → @stateMachineView Proof.
Variable LoadBlock : Z → option CommittedBlock.
Variable FindView : @kState Proof → Z → Z → string → FindViewResult.

(** X23. handleStateMachineRoundUpdate panics exactly when the round matches
    no view and is not before the committing one or its block cannot be
    loaded, or when it matches a view other than the voting and the
    committing one.  Otherwise it replies with the committed block
    loaded from the block store, or with the view found and the hash of
    the block before it; the three views are unchanged. *)
Theorem handleStateMachineRoundUpdate_replies (s : @kState Proof)
    (actions : StateMachineRoundActionSet) :
  let smv := smvReset (StateMachineView s) actions in
  let fv := FindView (setStateMachineView s smv) (ASH actions) (ASR actions)
              "(*Kernel).handleStateMachineRoundUpdate" in
  let run := handleStateMachineRoundUpdate smvReset MarkFirstSentVersion LoadBlock FindView
               s actions in
  ((∃ msg, run = Panic msg)
   ↔ match fvView fv with
     | None => fvStatus fv ≠ ViewBeforeCommitting ∨ LoadBlock (ASH actions) = None
     | Some _ => fvID fv ≠ ViewIDVoting ∧ fvID fv ≠ ViewIDCommitting
     end)
  ∧ ∀ su s',
      run = Ok (su, s') →
      sameViews s (setStateMachineView s' (StateMachineView s))
      ∧ InFlightFetchPBs s' = InFlightFetchPBs s
      ∧ match fvView fv with
        | None =>
          LoadBlock (ASH actions) = Some (SUCB su)
          ∧ SUVRV su = zeroVersionedRoundView
          ∧ SUPrevBlockHash su = ""
          ∧ StateMachineView s' = smv
        | Some ref =>
          SUVRV su = VRV (viewAt s ref)
          ∧ SUCB su = zeroCommittedBlock
          ∧ SUPrevBlockHash su
            = (if decide (fvID fv = ViewIDVoting)
               then Hash (CommittingBlock s) else PrevBlockHash (CommittingBlock s))
          ∧ StateMachineView s' = MarkFirstSentVersion smv (Version (VRV (viewAt s ref)))
        end.
Proof using Type.
  intros smv fv run. unfold run, handleStateMachineRoundUpdate. fold smv. fold fv.
  destruct (fvView fv) as [ref|].
  - assert (viewAt (setStateMachineView s smv) ref = viewAt s ref) as -> by (by destruct ref).
    destruct (fvID fv) eqn:Hid; cbn [setStateMachineView CommittingBlock StateMachineView];
      (split;
       [ first [ by (split; [done|by eexists])
               | split; [by intros [? ?]|intros [? ?]; done] ]
       | first [ by intros su s' [=]
               | intros su s' [= <- <-]; cbn; split_and!; try done; by repeat split ] ]).
  - case_bool_decide as Hst.
    + destruct (LoadBlock (ASH actions)) as [cb|]; split.
      * split; [by intros [? ?]|]. intros [?|?]; done.
      * intros su s' [= <- <-]. cbn. split_and!; try done.
      * split; [by right|by eexists].
      * intros su s' [=].
    + split; [split; [by left|by eexists]|]. intros su s' [=].
Qed.

End RoundUpdateProps.

Section StartupProps.
Context {Proof : Type} {collab : Collaborators Proof} {S : Type}.
Variable newVoteDistribution : GoMap Proof → list Validator → voteDistribution.
Variable k : @Kernel Proof.
Variable initialVals : list Validator.
Variable stores : @Stores Proof S.
Variable newStateMachineView : @stateMachineView Proof.

Lemma ensureNilProof_spec (signBytes : VoteTarget → option Bytes) (bytesErr proofErr : string)
    (h r : Z) (keys : list PubKey) (pkh : string) (proofs : GoMap Proof) :
  match gomap.get proofs "" with
  | Some p => ensureNilProof k signBytes bytesErr proofErr h r keys pkh proofs
              = inl (Some (gomap.entries proofs))
  | None =>
    match signBytes {| VTHeight := h; VTRound := r; VTBlockHash := "" |} with
    | None =>
      ensureNilProof k signBytes bytesErr proofErr h r keys pkh proofs
      = inr (OtherError bytesErr)
    | Some content =>
      match cmspNew k content keys pkh with
      | None =>
        ensureNilProof k signBytes bytesErr proofErr h r keys pkh proofs
        = inr (OtherError proofErr)
      | Some p =>
        ensureNilProof k signBytes bytesErr proofErr h r keys pkh proofs
        = inl (Some (<["" := p]> (gomap.entries proofs)))
      end
    end
  end.
Proof using Type.
  unfold ensureNilProof. destruct proofs as [g|]; cbn.
  - destruct (g !! "") eqn:E; [done|].
    destruct (signBytes _); [|done]. by destruct (cmspNew _ _ _ _).
  - rewrite lookup_empty. destruct (signBytes _); [|done]. by destruct (cmspNew _ _ _ _).
Qed.

Lemma ensureNilProof_ok (signBytes : VoteTarget → option Bytes) (bytesErr proofErr : string)
    (h r : Z) (keys : list PubKey) (pkh : string) (proofs proofs' : GoMap Proof) :
  ensureNilProof k signBytes bytesErr proofErr h r keys pkh proofs = inl proofs' →
  is_Some (gomap.get proofs' "")
  ∧ (∀ hash, hash ≠ "" → gomap.get proofs' hash = gomap.get proofs hash)
  ∧ (∀ hash p, gomap.get proofs hash = Some p → gomap.get proofs' hash = Some p)
  ∧ (gomap.get proofs "" = None →
     ∃ content,
       signBytes {| VTHeight := h; VTRound := r; VTBlockHash := "" |} = Some content
       ∧ gomap.get proofs' "" = cmspNew k content keys pkh)
  ∧ gomap.len proofs' ≠ 0%nat.
Proof using Type.
  intros Hrun.
  pose proof (ensureNilProof_spec signBytes bytesErr proofErr h r keys pkh proofs) as Hs.
  assert (∀ m : GoMap Proof, is_Some (gomap.get m "") → gomap.len m ≠ 0%nat) as Hlen.
  { intros [g|] [p Hp]; cbn in *; [|done]. intros ->%map_size_empty_iff.
    by rewrite lookup_empty in Hp. }
  destruct (gomap.get proofs "") as [p|] eqn:Hnil.
  - rewrite Hs in Hrun. injection Hrun as <-.
    assert (∀ hash, gomap.get (Some (gomap.entries proofs)) hash = gomap.get proofs hash) as Hsame.
    { intros hash. cbn. by rewrite <- get_entries. }
    split_and!.
    + by rewrite Hsame, Hnil.
    + intros. apply Hsame.
    + intros hash p' Hp. by rewrite Hsame.
    + done.
    + apply Hlen. by rewrite Hsame, Hnil.
  - destruct (signBytes _) as [content|]; [|by rewrite Hs in Hrun].
    destruct (cmspNew k content keys pkh) as [p|] eqn:Hnew; [|by rewrite Hs in Hrun].
    rewrite Hs in Hrun. injection Hrun as <-.
    split_and!.
    + cbn. rewrite lookup_insert_eq. by eexists.
    + intros hash Hne. cbn. rewrite lookup_insert_ne by done. by rewrite <- get_entries.
    + intros hash p' Hp. cbn. destruct (decide (hash = "")) as [->|Hne]; [congruence|].
      rewrite lookup_insert_ne by done. by rewrite <- get_entries.
    + intros _. exists content. split; [done|]. cbn. by rewrite lookup_insert_eq.
    + apply Hlen. cbn. rewrite lookup_insert_eq. by eexists.
Qed.

(** The errors of the stores that loadInitialView takes for success. *)
Lemma failsOtherThan_false (expected : StoreError) (err : option StoreError) :
  failsOtherThan expected err = false ↔ err = None ∨ err = Some expected.
Proof using Type.
  unfold failsOtherThan. destruct err as [e|]; [|by split; [left|]].
  rewrite negb_false_iff, bool_decide_eq_true.
  split; [by intros ->; right|by intros [|[= ->]]].
Qed.

Lemma loadInitialView_inl (st st' : S) (h r : Z) (vals : list Validator) (rv : RoundView Proof) :
  loadInitialView k stores st h r vals = (inl rv, st') →
  ∃ rs e1 st1 pkh e2 st2 vph e3 pv pc,
    LoadRoundState stores st h r = (rs, e1, st1)
    ∧ failsOtherThan (RoundUnknownError h r) e1 = false
    ∧ SavePubKeys stores st1 (ValidatorsToPubKeys vals) = (pkh, e2, st2)
    ∧ failsOtherThan PubKeysAlreadyExistError e2 = false
    ∧ SaveVotePowers stores st2 vals = (vph, e3, st')
    ∧ failsOtherThan VotePowersAlreadyExistError e3 = false
    ∧ ensureNilProof k (PrevoteSignBytes k)
        "failed to get initial nil prevote sign bytes"
        "failed to get initial nil prevote proof"
        h r (ValidatorsToPubKeys vals) pkh (RSPrevotes rs) = inl pv
    ∧ ensureNilProof k (PrecommitSignBytes k)
        "failed to get initial nil precommit sign bytes"
        "failed to get initial nil precommit proof"
        h r (ValidatorsToPubKeys vals) pkh (RSPrecommits rs) = inl pc
    ∧ rv = {| Height := h; Round := r; RVValidators := vals;
              ValidatorPubKeyHash := pkh; ValidatorVotePowerHash := vph;
              ProposedBlocks := RSProposedBlocks rs;
              PrevoteProofs := pv; PrecommitProofs := pc;
              VoteSummaryOf := SetAvailablePower NewVoteSummary vals |}.
Proof using Type.
  unfold loadInitialView.
  destruct (LoadRoundState stores st h r) as [[rs e1] st1] eqn:Hload.
  destruct (failsOtherThan (RoundUnknownError h r) e1) eqn:H1; [done|].
  destruct (SavePubKeys stores st1 (ValidatorsToPubKeys vals)) as [[pkh e2] st2] eqn:Hkeys.
  destruct (failsOtherThan PubKeysAlreadyExistError e2) eqn:H2; [done|].
  destruct (SaveVotePowers stores st2 vals) as [[vph e3] st3] eqn:Hpow.
  destruct (failsOtherThan VotePowersAlreadyExistError e3) eqn:H3; [done|].
  destruct (ensureNilProof k (PrevoteSignBytes k) _ _ h r _ pkh (RSPrevotes rs))
    as [pv|] eqn:Hpv; [|done].
  destruct (ensureNilProof k (PrecommitSignBytes k) _ _ h r _ pkh (RSPrecommits rs))
    as [pc|] eqn:Hpc; [|done].
  intros [= <- <-]. by eexists rs, e1, st1, pkh, e2, st2, vph, e3, pv, pc.
Qed.

(** X24. A view loaded at start-up has the height, round and validators asked
    for, the proposed blocks and every proof of the round store, and a
    nil prevote proof and a nil precommit proof: the stored one, or a
    new one made by the proof scheme. *)
Theorem loadInitialView_nil_proofs (st st' : S) (h r : Z) (vals : list Validator)
    (rv : RoundView Proof) :
  loadInitialView k stores st h r vals = (inl rv, st') →
  let rs := (LoadRoundState stores st h r).1.1 in
  let nilVT := {| VTHeight := h; VTRound := r; VTBlockHash := "" |} in
  (Height rv, Round rv, RVValidators rv, ProposedBlocks rv)
  = (h, r, vals, RSProposedBlocks rs)
  ∧ VoteSummaryOf rv = SetAvailablePower NewVoteSummary vals
  ∧ is_Some (gomap.get (PrevoteProofs rv) "")
  ∧ is_Some (gomap.get (PrecommitProofs rv) "")
  ∧ (∀ hash p, gomap.get (RSPrevotes rs) hash = Some p →
               gomap.get (PrevoteProofs rv) hash = Some p)
  ∧ (∀ hash p, gomap.get (RSPrecommits rs) hash = Some p →
               gomap.get (PrecommitProofs rv) hash = Some p)
  ∧ (∀ hash, hash ≠ "" →
             gomap.get (PrevoteProofs rv) hash = gomap.get (RSPrevotes rs) hash
             ∧ gomap.get (PrecommitProofs rv) hash = gomap.get (RSPrecommits rs) hash)
  ∧ (gomap.get (RSPrevotes rs) "" = None →
     ∃ content,
       PrevoteSignBytes k nilVT = Some content
       ∧ gomap.get (PrevoteProofs rv) ""
         = cmspNew k content (ValidatorsToPubKeys vals) (ValidatorPubKeyHash rv))
  ∧ (gomap.get (RSPrecommits rs) "" = None →
     ∃ content,
       PrecommitSignBytes k nilVT = Some content
       ∧ gomap.get (PrecommitProofs rv) ""
         = cmspNew k content (ValidatorsToPubKeys vals) (ValidatorPubKeyHash rv)).
Proof using Type.
  intros (rs & e1 & st1 & pkh & e2 & st2 & vph & e3 & pv & pc
          & Hload & _ & _ & _ & _ & _ & Hpv & Hpc & ->)%loadInitialView_inl.
  rewrite Hload. cbn.
  apply ensureNilProof_ok in Hpv as (Hpv1 & Hpv2 & Hpv3 & Hpv4 & _).
  apply ensureNilProof_ok in Hpc as (Hpc1 & Hpc2 & Hpc3 & Hpc4 & _).
  split_and!; try done. intros hash Hne. by split; [apply Hpv2|apply Hpc2].
Qed.

(** X25. loadInitialView succeeds exactly when the round store fails at most
    with RoundUnknownError for this very round, the validator store at
    most with its already-exist errors, and the nil proofs are stored
    or can be made.  Another error of the round store is returned as it
    is, before the validator store is called. *)
Theorem loadInitialView_tolerates (st st1 st2 st3 : S) (h r : Z) (vals : list Validator)
    (rs : RoundState) (pkh vph : string) (e1 e2 e3 : option StoreError) :
  let keys := ValidatorsToPubKeys vals in
  let nilVT := {| VTHeight := h; VTRound := r; VTBlockHash := "" |} in
  let nilProof (signBytes : VoteTarget → option Bytes) (proofs : GoMap Proof) :=
    is_Some (gomap.get proofs "")
    ∨ ∃ content, signBytes nilVT = Some content ∧ is_Some (cmspNew k content keys pkh) in
  LoadRoundState stores st h r = (rs, e1, st1) →
  SavePubKeys stores st1 keys = (pkh, e2, st2) →
  SaveVotePowers stores st2 vals = (vph, e3, st3) →
  ((∃ rv, loadInitialView k stores st h r vals = (inl rv, st3))
   ↔ (e1 = None ∨ e1 = Some (RoundUnknownError h r))
     ∧ (e2 = None ∨ e2 = Some PubKeysAlreadyExistError)
     ∧ (e3 = None ∨ e3 = Some VotePowersAlreadyExistError)
     ∧ nilProof (PrevoteSignBytes k) (RSPrevotes rs)
     ∧ nilProof (PrecommitSignBytes k) (RSPrecommits rs))
  ∧ (∀ e, e1 = Some e → e ≠ RoundUnknownError h r →
          loadInitialView k stores st h r vals = (inr e, st1)).
Proof using Type.
  intros keys nilVT nilProof Hload Hkeys Hpow.
  assert (∀ signBytes bytesErr proofErr proofs,
            (∃ proofs', ensureNilProof k signBytes bytesErr proofErr h r keys pkh proofs
                        = inl proofs')
            ↔ nilProof signBytes proofs) as Hnil.
  { intros signBytes bytesErr proofErr proofs. unfold nilProof.
    pose proof (ensureNilProof_spec signBytes bytesErr proofErr h r keys pkh proofs) as Hs.
    fold nilVT in Hs.
    destruct (gomap.get proofs "") as [p|].
    { rewrite Hs. split; [intros _; left; by eexists|by eexists]. }
    destruct (signBytes nilVT) as [content|].
    - destruct (cmspNew k content keys pkh) as [p|] eqn:Hnew; rewrite Hs.
      + split; [|by eexists]. intros _. right. exists content. split; [done|].
        rewrite Hnew. by eexists.
      + split; [by intros [? ?]|].
        intros [[? ?]|(c & [= <-] & [? Hc])]; [done|]. by rewrite Hnew in Hc.
    - rewrite Hs. split; [by intros [? ?]|].
      intros [[? ?]|(c & ? & _)]; done. }
  split.
  - pose proof (Hnil (PrevoteSignBytes k) "failed to get initial nil prevote sign bytes"
                  "failed to get initial nil prevote proof" (RSPrevotes rs)) as Hpv.
    pose proof (Hnil (PrecommitSignBytes k) "failed to get initial nil precommit sign bytes"
                  "failed to get initial nil precommit proof" (RSPrecommits rs)) as Hpc.
    rewrite <- !failsOtherThan_false, <- Hpv, <- Hpc.
    unfold loadInitialView. rewrite Hload. fold keys.
    destruct (failsOtherThan (RoundUnknownError h r) e1);
      [split; [by intros [? ?]|by intros (? & _)]|].
    rewrite Hkeys.
    destruct (failsOtherThan PubKeysAlreadyExistError e2);
      [split; [by intros [? ?]|by intros (_ & ? & _)]|].
    rewrite Hpow.
    destruct (failsOtherThan VotePowersAlreadyExistError e3);
      [split; [by intros [? ?]|by intros (_ & _ & ? & _)]|].
    destruct (ensureNilProof k (PrevoteSignBytes k) _ _ h r keys pkh (RSPrevotes rs))
      as [pv|];
      [|split; [by intros [? ?]|by intros (_ & _ & _ & [? ?] & _)]].
    destruct (ensureNilProof k (PrecommitSignBytes k) _ _ h r keys pkh (RSPrecommits rs))
      as [pc|];
      [|split; [by intros [? ?]|by intros (_ & _ & _ & _ & [? ?])]].
    split; [|by eexists]. intros _. split_and!; try done; by eexists.
  - intros e -> Hne. unfold loadInitialView. rewrite Hload. cbn.
    by rewrite bool_decide_eq_false_2.
Qed.

Lemma highestPower_from (es : list (string * Z)) (acc : Z * string) :
  let r := foldl (λ acc e, if acc.1 <? e.2 then (e.2, e.1) else acc) acc es in
  acc.1 ≤ r.1
  ∧ (∀ e, e ∈ es → e.2 ≤ r.1)
  ∧ (r = acc ∨ (acc.1 < r.1 ∧ (r.2, r.1) ∈ es)).
Proof using Type.
  revert acc. induction es as [|[h p] es IH]; intros acc; cbn.
  { split_and!; [lia| |by left]. intros e He. by apply elem_of_nil in He. }
  destruct (Z.ltb_spec acc.1 p) as [Hlt|Hge].
  - destruct (IH (p, h)) as (Hle & Hall & Hwho). cbn in *.
    split_and!; [lia| |].
    + intros e [->|He]%elem_of_cons; [done|by apply Hall].
    + right. destruct Hwho as [->|[Hlt' Hin]]; cbn.
      * split; [done|left].
      * split; [lia|by right].
  - destruct (IH acc) as (Hle & Hall & Hwho).
    split_and!; [done| |].
    + intros e [->|He]%elem_of_cons; [cbn; lia|by apply Hall].
    + destruct Hwho as [->|[Hlt' Hin]]; [by left|]. right. split; [done|by right].
Qed.

Lemma highestPower_spec (order : list string) (m : GoMap Z) :
  let r := highestPower (gomap.range order m) in
  (∀ h p, gomap.get m h = Some p → p ≤ r.1)
  ∧ (r = (0, "") ∨ (0 < r.1 ∧ gomap.get m r.2 = Some r.1)).
Proof using Type.
  destruct (highestPower_from (gomap.range order m) (0, "")) as (_ & Hall & Hwho).
  cbn zeta. unfold highestPower. split.
  - intros h p Hget. by apply (Hall (h, p)), elem_of_range.
  - destruct Hwho as [->|[Hlt Hin]]; [by left|]. right. split; [done|].
    by apply elem_of_range in Hin.
Qed.

Lemma loadInitialCommittingView_block_run (st : S) (s : @kState Proof) :
  let h := Height (RV (VRV (Committing s))) in
  let r := Round (RV (VRV (Committing s))) in
  let run := loadInitialCommittingView newVoteDistribution k initialVals stores st s in
  (h ≠ initialHeight k → h ≠ u64 (initialHeight k + 1) → run = Panic beyondInitialPanic)
  ∧ run ≠ Panic noPrecommitsPanic
  ∧ (∀ e s' st', run = Ok (Some e, s', st') →
       s' = s ∧ loadInitialView k stores st h r initialVals = (inr e, st'))
  ∧ (∀ s' st', run = Ok (None, s', st') →
       let vrv := VRV (Committing s') in
       let powers :=
         BlockVotePower
           (newVoteDistribution (PrecommitProofs (RV vrv)) (RVValidators (RV vrv))) in
       loadInitialView k stores st h r initialVals = (inl (RV vrv), st')
       ∧ (Version vrv, PrevoteVersion vrv, PrecommitVersion vrv)
         = (Version (VRV (Committing s)), 1, 1)
       ∧ (Voting s', NextRound s', NilVotedRound s', InFlightFetchPBs s', StateMachineView s')
         = (Voting s, NextRound s, NilVotedRound s, InFlightFetchPBs s, StateMachineView s)
       ∧ Hash (CommittingBlock s') ≠ ""
       ∧ (CommittingBlock s' = CommittingBlock s
          ∨ ∃ pb pow,
              pb ∈ ProposedBlocks (RV vrv)
              ∧ CommittingBlock s' = PBBlock pb
              ∧ gomap.get powers (Hash (PBBlock pb)) = Some pow
              ∧ 0 < pow
              ∧ ∀ h' pow', gomap.get powers h' = Some pow' → pow' ≤ pow)).
Proof using Type.
  intros h r run. unfold run, loadInitialCommittingView. fold h. fold r.
  unfold atInitialHeight.
  destruct (decide (h = initialHeight k)) as [Hh|Hh];
    [rewrite (bool_decide_eq_true_2 _ Hh)|rewrite (bool_decide_eq_false_2 _ Hh)]; cbn [orb negb];
    [|destruct (decide (h = u64 (initialHeight k + 1))) as [Hh'|Hh'];
      [rewrite (bool_decide_eq_true_2 _ Hh')|rewrite (bool_decide_eq_false_2 _ Hh')];
      cbn [orb negb]].
  3: { split_and!; done. }
  all: (destruct (loadInitialView k stores st h r initialVals) as [[rv|e] st1] eqn:Hrv;
    [|split_and!; [done|done|by intros e' s' st' [= <- <- <-]|done]]).
  all: pose proof Hrv as Hinv;
    apply loadInitialView_inl in Hinv
      as (rs & e1 & st0 & pkh & e2 & st2 & vph & e3 & pv & pc
          & _ & _ & _ & _ & _ & _ & _ & Hpc & Hrveq);
    apply ensureNilProof_ok in Hpc as (_ & _ & _ & _ & Hlen);
    assert (gomap.len (PrecommitProofs rv) ≠ 0%nat) as Hlen' by (by rewrite Hrveq);
    rewrite (bool_decide_eq_false_2 _ Hlen');
    set (powers := BlockVotePower (newVoteDistribution (PrecommitProofs rv) (RVValidators rv)));
    destruct (highestPower_spec (rangeOrder k) powers) as [Hmax Hwho];
    set (best := highestPower (gomap.range (rangeOrder k) powers)) in *;
    destruct (find (hasHash best.2) (ProposedBlocks rv)) as [pb|] eqn:Hfind.
  all: cbn [CommittingBlock setCommittingBlock setCommitting].
  all: match goal with
       | |- context [bool_decide (?P)] => destruct (decide P) as [Hz|Hnz];
           [rewrite (bool_decide_eq_true_2 _ Hz)|rewrite (bool_decide_eq_false_2 _ Hnz)]
       end.
  all: split_and!; try done.
  all: intros s' st' [= <- <-]; cbn.
  all: split_and!; try done.
  all: try (by left).
  all: right; apply find_some in Hfind as [Hin Hhash];
    apply bool_decide_eq_true in Hhash; exists pb, best.1;
    destruct Hwho as [Hzero|[Hpos Hget]];
    [rewrite Hzero in Hhash; cbn in Hhash; congruence|];
    split_and!; [by apply list_elem_of_In|done|by rewrite Hhash|done|done].
Qed.

(** X26. loadInitialCommittingView panics beyond the initial height and the
    one after, and never for a lack of precommits.  An error leaves the
    kernel state unchanged.  On success the committing view is the one
    loaded, with vote versions 1, and the committing block has a hash:
    it is the one the state had, or a proposed block of the view whose
    hash has the highest precommit power, above zero. *)
Theorem loadInitialCommittingView_block (st : S) (s : @kState Proof) :
  let h := Height (RV (VRV (Committing s))) in
  let r := Round (RV (VRV (Committing s))) in
  let run := loadInitialCommittingView newVoteDistribution k initialVals stores st s in
  (h ≠ initialHeight k → h ≠ u64 (initialHeight k + 1) → run = Panic beyondInitialPanic)
  ∧ run ≠ Panic noPrecommitsPanic
  ∧ (∀ e s' st', run = Ok (Some e, s', st') →
       s' = s ∧ loadInitialView k stores st h r initialVals = (inr e, st'))
  ∧ (∀ s' st', run = Ok (None, s', st') →
       let vrv := VRV (Committing s') in
       let powers :=
         BlockVotePower
           (newVoteDistribution (PrecommitProofs (RV vrv)) (RVValidators (RV vrv))) in
       loadInitialView k stores st h r initialVals = (inl (RV vrv), st')
       ∧ (Version vrv, PrevoteVersion vrv, PrecommitVersion vrv)
         = (Version (VRV (Committing s)), 1, 1)
       ∧ (Voting s', NextRound s', NilVotedRound s', InFlightFetchPBs s', StateMachineView s')
         = (Voting s, NextRound s, NilVotedRound s, InFlightFetchPBs s, StateMachineView s)
       ∧ Hash (CommittingBlock s') ≠ ""
       ∧ (CommittingBlock s' = CommittingBlock s
          ∨ ∃ pb pow,
              pb ∈ ProposedBlocks (RV vrv)
              ∧ CommittingBlock s' = PBBlock pb
              ∧ gomap.get powers (Hash (PBBlock pb)) = Some pow
              ∧ 0 < pow
              ∧ ∀ h' pow', gomap.get powers h' = Some pow' → pow' ≤ pow)).
Proof using Type. apply loadInitialCommittingView_block_run. Qed.

Lemma loadInitialView_loadedAt (st st' : S) (h r : Z) (vals : list Validator)
    (rv : RoundView Proof) (view : @View Proof) :
  loadInitialView k stores st h r vals = (inl rv, st') →
  loadedAt (VRV (installView view rv)) h r vals.
Proof using Type.
  intros (rs & e1 & st1 & pkh & e2 & st2 & vph & e3 & pv & pc
          & _ & _ & _ & _ & _ & _ & Hpv & Hpc & ->)%loadInitialView_inl.
  apply ensureNilProof_ok in Hpv as (Hpv & _).
  apply ensureNilProof_ok in Hpc as (Hpc & _).
  by split_and!.
Qed.

Lemma loadInitialVotingView_views_run (st : S) (s : @kState Proof) :
  let h := Height (RV (VRV (Voting s))) in
  let r := Round (RV (VRV (Voting s))) in
  let vals :=
    if bool_decide (h = initialHeight k ∨ h = u64 (initialHeight k + 1))
    then initialVals else Validators (CommittingBlock s) in
  let run := loadInitialVotingView k initialVals stores st s in
  (vals = [] → run = Panic noValidatorsPanic)
  ∧ (vals ≠ [] → ∃ err s' st', run = Ok (err, s', st'))
  ∧ (∀ s' st', run = Ok (None, s', st') →
       loadedAt (VRV (Voting s')) h r vals
       ∧ loadedAt (VRV (NextRound s')) h (u32 (r + 1)) vals
       ∧ (Committing s', CommittingBlock s', NilVotedRound s', InFlightFetchPBs s',
          StateMachineView s')
         = (Committing s, CommittingBlock s, NilVotedRound s, InFlightFetchPBs s,
            StateMachineView s)).
Proof using Type.
  intros h r vals run. unfold run, loadInitialVotingView. fold h. fold r.
  assert ((if atInitialHeight k h then initialVals else Validators (CommittingBlock s)) = vals)
    as ->.
  { unfold vals, atInitialHeight.
    destruct (decide (h = initialHeight k)) as [Hh|Hh];
      destruct (decide (h = u64 (initialHeight k + 1))) as [Hh'|Hh'];
      rewrite ?(bool_decide_eq_true_2 _ Hh), ?(bool_decide_eq_false_2 _ Hh),
        ?(bool_decide_eq_true_2 _ Hh'), ?(bool_decide_eq_false_2 _ Hh'); cbn [orb];
      [rewrite bool_decide_eq_true_2 by (by left)
      |rewrite bool_decide_eq_true_2 by (by left)
      |rewrite bool_decide_eq_true_2 by (by right)
      |rewrite bool_decide_eq_false_2 by (by intros [?|?])]; done. }
  clearbody vals.
  destruct (decide (vals = [])) as [->|Hvals].
  { rewrite bool_decide_eq_true_2 by done. by split_and!. }
  rewrite bool_decide_eq_false_2 by (by intros ?%length_zero_iff_nil).
  split; [done|]. split.
  { intros _. destruct (loadInitialView k stores st h r vals) as [[rv|e] st1];
      [|by eexists _, _, _].
    destruct (loadInitialView k stores st1 h (u32 (r + 1)) vals) as [[nrrv|e] st2];
      by eexists _, _, _. }
  destruct (loadInitialView k stores st h r vals) as [[rv|e] st1] eqn:Hrv; [|done].
  destruct (loadInitialView k stores st1 h (u32 (r + 1)) vals) as [[nrrv|e] st2] eqn:Hnr;
    [|done].
  intros s' st' [= <- <-]. cbn [Voting NextRound setVoting setNextRound].
  split_and!; [by eapply loadInitialView_loadedAt|by eapply loadInitialView_loadedAt|done].
Qed.

(** X27. loadInitialVotingView panics without validators and returns
    otherwise.  On success the voting view and the next-round view are
    loaded for the voting height, rounds r and r+1 (in 32 bits), with
    the same validators, vote versions 1 and nil proofs; the committing
    view and committing block are untouched. *)
Theorem loadInitialVotingView_views (st : S) (s : @kState Proof) :
  let h := Height (RV (VRV (Voting s))) in
  let r := Round (RV (VRV (Voting s))) in
  let vals :=
    if bool_decide (h = initialHeight k ∨ h = u64 (initialHeight k + 1))
    then initialVals else Validators (CommittingBlock s) in
  let run := loadInitialVotingView k initialVals stores st s in
  (vals = [] → run = Panic noValidatorsPanic)
  ∧ (vals ≠ [] → ∃ err s' st', run = Ok (err, s', st'))
  ∧ (∀ s' st', run = Ok (None, s', st') →
       loadedAt (VRV (Voting s')) h r vals
       ∧ loadedAt (VRV (NextRound s')) h (u32 (r + 1)) vals
       ∧ (Committing s', CommittingBlock s', NilVotedRound s', InFlightFetchPBs s',
          StateMachineView s')
         = (Committing s, CommittingBlock s, NilVotedRound s, InFlightFetchPBs s,
            StateMachineView s)).
Proof using Type. apply loadInitialVotingView_views_run. Qed.

(** X28. On an uninitialized store and a positive initial height, NewKernel
    seeds the store with the initial height and zero rounds and fails if
    that fails; it panics without initial validators; on success it
    votes on round 0 of the initial height, with round 1 as next round,
    no committing view, no committing block and no fetch in flight. *)
Theorem NewKernel_fresh_store (st st1 : S) (nhr : NetworkHeightRound) :
  let seed := {| VotingHeight := initialHeight k; VotingRound := 0;
                 CommittingHeight := 0; CommittingRound := 0 |} in
  let run := NewKernel newVoteDistribution k initialVals stores newStateMachineView st in
  NetworkHeightRoundOf stores st = (nhr, Some ErrStoreUninitialized, st1) →
  0 < initialHeight k →
  (∀ e st2, SetNetworkHeightRound stores st1 seed = (Some e, st2) →
            ∃ msg, run = Ok (inr (OtherError msg), st2))
  ∧ (∀ st2, SetNetworkHeightRound stores st1 seed = (None, st2) →
            initialVals = [] → run = Panic noValidatorsPanic)
  ∧ (∀ s st', run = Ok (inl s, st') →
       (SetNetworkHeightRound stores st1 seed).1 = None
       ∧ loadedAt (VRV (Voting s)) (initialHeight k) 0 initialVals
       ∧ loadedAt (VRV (NextRound s)) (initialHeight k) 1 initialVals
       ∧ Committing s = zeroView
       ∧ Hash (CommittingBlock s) = ""
       ∧ NilVotedRound s = None
       ∧ InFlightFetchPBs s = ∅
       ∧ StateMachineView s = newStateMachineView).
Proof using Type.
  intros seed run Hnhr Hpos. unfold run, NewKernel. rewrite Hnhr. cbn [failsOtherThan].
  rewrite bool_decide_eq_true_2 by done. cbn [negb].
  rewrite bool_decide_eq_true_2 by done. fold seed.
  destruct (SetNetworkHeightRound stores st1 seed) as [[e|] st2] eqn:Hset.
  { split_and!; [|done|done]. intros e' st2' [= <- <-]. by eexists. }
  cbn [CommittingHeight seed]. destruct (Z.leb_spec (initialHeight k) 0) as [Hle|_]; [lia|].
  destruct (loadInitialVotingView_views_run st2 (initState newStateMachineView seed))
    as (Hnone & _ & Hok).
  cbn [initState Voting seedView VRV withRV RV setRound setHeight Height Round VotingHeight
       VotingRound seed] in Hnone, Hok.
  rewrite bool_decide_eq_true_2 in Hnone, Hok by (by left).
  split_and!; [done| |].
  - intros st2' [= <-] Hvals. by rewrite Hnone.
  - intros s st'.
    destruct (loadInitialVotingView k initialVals stores st2
                (initState newStateMachineView seed)) as [[[[e|] s1] st3]|msg]; try done.
    intros [= <- <-]. destruct (Hok s1 st3 eq_refl) as (Hv & Hn & Hrest).
    injection Hrest as -> -> -> -> ->. by split_and!.
Qed.

(** X29. A kernel started on an initialized store votes on the stored voting
    height and round, with a non-empty validator set.  Below the
    initial height the committing view is not loaded; otherwise the
    committing height is the initial one or the one after, and the
    committing block is a proposed block of the committing view whose
    hash has the highest precommit power, above zero. *)
Theorem NewKernel_committing_block (st st1 st' : S) (nhr : NetworkHeightRound)
    (s : @kState Proof) :
  NetworkHeightRoundOf stores st = (nhr, None, st1) →
  NewKernel newVoteDistribution k initialVals stores newStateMachineView st
  = Ok (inl s, st') →
  let vals := RVValidators (RV (VRV (Voting s))) in
  let powers :=
    BlockVotePower
      (newVoteDistribution (PrecommitProofs (RV (VRV (Committing s)))) initialVals) in
  loadedAt (VRV (Voting s)) (VotingHeight nhr) (VotingRound nhr) vals
  ∧ loadedAt (VRV (NextRound s)) (VotingHeight nhr) (u32 (VotingRound nhr + 1)) vals
  ∧ vals ≠ []
  ∧ (CommittingHeight nhr < initialHeight k →
     Committing s = seedView (CommittingHeight nhr) (CommittingRound nhr)
     ∧ Hash (CommittingBlock s) = "")
  ∧ (initialHeight k ≤ CommittingHeight nhr →
     (CommittingHeight nhr = initialHeight k
      ∨ CommittingHeight nhr = u64 (initialHeight k + 1))
     ∧ loadedAt (VRV (Committing s)) (CommittingHeight nhr) (CommittingRound nhr) initialVals
     ∧ ∃ pb pow,
         pb ∈ ProposedBlocks (RV (VRV (Committing s)))
         ∧ CommittingBlock s = PBBlock pb
         ∧ Hash (PBBlock pb) ≠ ""
         ∧ gomap.get powers (Hash (PBBlock pb)) = Some pow
         ∧ 0 < pow
         ∧ ∀ h' pow', gomap.get powers h' = Some pow' → pow' ≤ pow).
Proof using Type.
  intros Hnhr. unfold NewKernel. rewrite Hnhr. cbn [failsOtherThan].
  rewrite bool_decide_eq_false_2 by done.
  set (s0 := initState newStateMachineView nhr).
  assert (∀ s1 st2,
            (Voting s1, NilVotedRound s1, InFlightFetchPBs s1, StateMachineView s1)
            = (Voting s0, NilVotedRound s0, InFlightFetchPBs s0, StateMachineView s0) →
            match loadInitialVotingView k initialVals stores st2 s1 with
            | Panic msg => Panic msg
            | Ok (Some e, _, st) => Ok (inr e, st)
            | Ok (None, s, st) => Ok (inl s, st)
            end = Ok (inl s, st') →
            let vals := RVValidators (RV (VRV (Voting s))) in
            loadedAt (VRV (Voting s)) (VotingHeight nhr) (VotingRound nhr) vals
            ∧ loadedAt (VRV (NextRound s)) (VotingHeight nhr) (u32 (VotingRound nhr + 1)) vals
            ∧ vals ≠ []
            ∧ (Committing s, CommittingBlock s) = (Committing s1, CommittingBlock s1)) as Hvoting.
  { intros s1 st2 [= Hv _ _ _] Hrun.
    destruct (loadInitialVotingView_views_run st2 s1) as (Hnone & _ & Hok).
    rewrite Hv in Hnone, Hok.
    cbn [s0 initState Voting seedView VRV withRV RV setRound setHeight Height Round]
      in Hnone, Hok.
    destruct (loadInitialVotingView k initialVals stores st2 s1)
      as [[[[e|] s2] st3]|msg] eqn:Hload; try done.
    injection Hrun as -> ->.
    destruct (Hok s st' eq_refl) as (Hlv & Hln & Hrest).
    injection Hrest as Hc Hb _ _ _.
    assert (RVValidators (RV (VRV (Voting s)))
            = if bool_decide (VotingHeight nhr = initialHeight k
                              ∨ VotingHeight nhr = u64 (initialHeight k + 1))
              then initialVals else Validators (CommittingBlock s1)) as Hvals.
    { by destruct Hlv as ([= _ _ ->] & _). }
    cbn zeta. rewrite Hvals. split_and!; [done|done| |by rewrite Hc, Hb].
    intros Hnil. by apply Hnone in Hnil. }
  destruct (Z.leb_spec (initialHeight k) (CommittingHeight nhr)) as [Hle|Hlt].
  - destruct (loadInitialCommittingView_block_run st1 s0) as (Hbeyond & _ & _ & Hok).
    cbn [s0 initState Committing seedView VRV withRV RV setRound setHeight Height Round]
      in Hbeyond, Hok.
    destruct (loadInitialCommittingView newVoteDistribution k initialVals stores st1 s0)
      as [[[[e|] s1] st2]|msg] eqn:Hload; try done.
    destruct (Hok s1 st2 eq_refl) as (Hrv & Hver & Hrest & Hhash & Hblock).
    injection Hrest as Hv0 _ Hnv0 Hif0 Hsm0.
    intros Hrun. apply Hvoting in Hrun as (Hv & Hn & Hvals & [= Hc Hb]);
      [|by rewrite Hv0, Hnv0, Hif0, Hsm0].
    rewrite Hc, Hb. split_and!; [done|done|done|lia|]. intros _.
    pose proof Hrv as Hloaded. apply (loadInitialView_loadedAt _ _ _ _ _ _ (Committing s0))
      in Hloaded.
    assert (loadedAt (VRV (Committing s1)) (CommittingHeight nhr) (CommittingRound nhr)
              initialVals) as Hl.
    { destruct Hloaded as (? & _ & ? & ? & ?). injection Hver as _ Hpv Hpc.
      by split_and!; [|rewrite Hpv, Hpc| | |]. }
    split_and!; [|done|].
    + destruct (decide (CommittingHeight nhr = initialHeight k)) as [|Hne]; [by left|].
      destruct (decide (CommittingHeight nhr = u64 (initialHeight k + 1))) as [|Hne'];
        [by right|].
      by specialize (Hbeyond Hne Hne').
    + destruct Hblock as [Hsame|(pb & pow & Hin & Hpb & Hget & Hpos & Hmax)].
      { rewrite Hsame in Hhash. done. }
      assert (RVValidators (RV (VRV (Committing s1))) = initialVals) as Hvs.
      { by destruct Hl as ([= _ _ ->] & _). }
      rewrite Hvs in Hget, Hmax.
      exists pb, pow. split_and!; try done. by rewrite <- Hpb.
  - intros Hrun. apply Hvoting in Hrun as (Hv & Hn & Hvals & [= Hc Hb]); [|done].
    rewrite Hc, Hb. split_and!; [done|done|done| |lia]. done.
Qed.

End StartupProps.

(** * The properties on the concrete network *)

Import scenario.



(** A first prevote for "d" on the voting view is installed at version 1,
    persisted and accepted. *)
Lemma vote_updates_installed_witness :
  ∃ proofs' versions' w',
    addPrevote lookup distribution kernel
      (prevotes 2 0 "d" (update [0%nat] 0) (Some 7%nat)) (mkWorld idle 4)
    = afterPrevotes distribution kernel (Some (AtVoting, ViewIDVoting, AddVoteAccepted)) w'
    ∧ trace w' = [OverwritePrevoteProofs 2 0 proofs'; Respond 7%nat AddVoteAccepted]
    ∧ gomap.get proofs' "d" = Some [0%nat]
    ∧ gomap.get versions' "d" = Some 1.
Proof.
  destruct (proj1 (vote_updates_installed lookup distribution kernel
                     (prevotes 2 0 "d" (update [0%nat] 0) (Some 7%nat))
                     (precommits 2 0 "d" (update [0%nat] 0) None)
                     AtVoting {[ "" := [] ]} (mkWorld idle 4))
              eq_refl eq_refl eq_refl eq_refl)
    as (proofs' & versions' & res & view' & persisted & Hrun & Hinst & Hacc & _ & Hcase).
  assert (@current (list nat) None "d" (update [0%nat] 0)) as Hcur by reflexivity.
  assert (res = AddVoteAccepted) as ->.
  { apply Hacc. intros h u Hu. cbn in Hu. apply lookup_singleton_Some in Hu as [<- <-]. exact Hcur. }
  destruct Hcase as [(_ & _ & ->)|[Hnone _]].
  - specialize (Hinst "d"). cbn in Hinst. rewrite lookup_singleton_eq in Hinst.
    rewrite decide_True in Hinst by exact Hcur. destruct Hinst as [Hp Hv].
    eexists proofs', versions', _. split; [exact Hrun|]. split; [reflexivity|].
    split; [exact Hp|exact Hv].
  - exfalso. apply Hnone. exists "d", (update [0%nat] 0). split; [|exact Hcur].
    cbn. apply lookup_singleton_eq.
Defined.

(** Three validators precommit for "b" while the fetch-requests channel
    is full and no proposed block is at hand: the kernel is stuck in
    (2, 0) with a majority for "b", and no fetch of "b" is in flight. *)
Lemma stuck_without_fetch :
  ∃ w',
    addPrecommit lookup distribution kernel
      (precommits 2 0 "b" (update [0; 1; 2]%nat 0) (Some 7%nat)) (mkWorld idle 0)
    = Ok (tt, w')
    ∧ MostVotedPrecommitHash (VoteSummaryOf (RV (VRV (Voting (state w'))))) = "b"
    ∧ ByzantineMajority 40
      ≤ default 0 (gomap.get (PrecommitBlockPower (VoteSummaryOf (RV (VRV (Voting (state w'))))))
                     "b")
    ∧ ProposedBlocks (RV (VRV (Voting (state w')))) = []
    ∧ Height (RV (VRV (Voting (state w')))) = 2
    ∧ Round (RV (VRV (Voting (state w')))) = 0
    ∧ InFlightFetchPBs (state w') !! "b" = None
    ∧ InFlightFetchPBs (state w') = ∅
    ∧ trace w'
      = [OverwritePrecommitProofs 2 0 (Some {[ "" := []; "b" := [0; 1; 2]%nat ]});
         Respond 7%nat AddVoteAccepted;
         blockedEvent "b";
         Log Warn stuckMsg [("block_hash", "b"); ("fetch_in_progress", "false")]].
Proof.
  eexists. split; [vm_compute; reflexivity|].
  repeat split; vm_compute; congruence.
Qed.

Lemma stuck_without_proposed_block_witness :
  checkVotingPrecommitViewShift kernel (mkWorld stuck 4)
  = Ok (None,
        {| state := stuck;
           trace := [Log Warn stuckMsg [("block_hash", "b"); ("fetch_in_progress", "false")]];
           fetchRoom := 4 |}).
Proof.
  assert (ByzantineMajority 40 ≤ 30) as Hmaj by (vm_compute; discriminate).
  assert ("b" ≠ "") as Hne by discriminate.
  apply (stuck_without_proposed_block kernel (mkWorld stuck 4) Hmaj Hne).
  intros pb Hpb. by apply elem_of_nil in Hpb.
Defined.

(** A prevote for "d" that claims version 5 while "d" has none. *)
Lemma stale_votes_conflict_witness :
  ∃ w' t,
    addPrevote lookup distribution kernel
      (prevotes 2 0 "d" (update [0%nat] 5) (Some 7%nat)) (mkWorld idle 4) = Ok (tt, w')
    ∧ sameViews idle (state w')
    ∧ trace w' = [Respond 7%nat AddVoteConflict] ++ t
    ∧ Forall isFetchEvent t.
Proof.
  assert (gomap.entries (PrevoteUpdates (prevotes 2 0 "d" (update [0%nat] 5) (Some 7%nat))) ≠ ∅)
    as Hne.
  { cbn. apply insert_non_empty. }
  assert (∀ h u,
            gomap.get (PrevoteUpdates (prevotes 2 0 "d" (update [0%nat] 5) (Some 7%nat))) h = Some u
            → PrevVersion u
              ≠ default 0 (gomap.get (PrevoteBlockVersions (VRV (viewAt idle AtVoting))) h))
    as Hstale.
  { intros h u Hu. cbn in Hu. apply lookup_singleton_Some in Hu as [<- <-]. cbn. discriminate. }
  assert (gomap.len (PrevoteProofs (RV (VRV (viewAt idle AtVoting)))) ≠ 0%nat) as Hlen.
  { vm_compute. discriminate. }
  exact (proj1 (stale_votes_conflict lookup distribution kernel
                  (prevotes 2 0 "d" (update [0%nat] 5) (Some 7%nat))
                  (precommits 2 0 "d" (update [0%nat] 5) None)
                  AtVoting (mkWorld idle 4))
           eq_refl eq_refl eq_refl Hne Hstale Hlen).
Defined.

(** A prevote for height 0, below the committing height 1; and a
    precommit for round 7 of the voting height, while voting is at
    round 8. *)
Lemma out_of_date_votes_witness :
  addPrevote lookup distribution kernel
    (prevotes 0 0 "a" (update [0%nat] 0) (Some 7%nat)) (mkWorld idle 4)
  = Ok (tt, {| state := idle; trace := [Respond 7%nat AddVoteOutOfDate]; fetchRoom := 4 |})
  ∧ addPrecommit lookup distribution kernel
      (precommits 2 7 "a" (update [0%nat] 0) (Some 8%nat))
      (mkWorld (mkState (freshView 2 8 []) 2 8) 4)
    = Ok (tt, {| state := mkState (freshView 2 8 []) 2 8;
                 trace := [Respond 8%nat AddVoteOutOfDate]; fetchRoom := 4 |}).
Proof.
  split.
  - assert (0 < 1) as Hlt by lia.
    exact (proj1 (proj2 (proj2 (out_of_date_votes distribution kernel lookup
             (prevotes 0 0 "a" (update [0%nat] 0) (Some 7%nat))
             (precommits 0 0 "a" (update [0%nat] 0) None) (mkWorld idle 4)))) Hlt).
  - exact (proj1 (proj2 (out_of_date_votes distribution kernel lookup
             (prevotes 0 0 "a" (update [0%nat] 0) None)
             (precommits 2 7 "a" (update [0%nat] 0) (Some 8%nat))
             (mkWorld (mkState (freshView 2 8 []) 2 8) 4))) (or_intror eq_refl)).
Defined.

(** The proposed block B arrives a second time. *)
Lemma addPB_duplicate_witness :
  addPB lookup kernel pbB (mkWorld withB 4)
  = Ok (tt, {| state := withB; trace := []; fetchRoom := 4 |}).
Proof.
  assert (∃ have, have ∈ ProposedBlocks (RV (VRV (viewAt withB AtVoting)))
                  ∧ Signature have = Signature pbB) as Hdup.
  { exists pbB. split; [left|reflexivity]. }
  exact (proj1 (addPB_duplicate lookup kernel pbB AtVoting (mkWorld withB 4) eq_refl Hdup)).
Defined.

(** Of "c" (power 20) and "e" (power 10), only "c" reaches the minority
    of 14: it is the one hash a fetch is attempted for. *)
Lemma checkMissingPBs_fetches_witness :
  ∃ attempts,
    (∀ h, h ∈ attempts ↔ h = "c")
    ∧ checkMissingPBs distribution kernel votesForC (mkWorld idle 4)
      = Ok (tt,
            {| state := setInFlightFetchPBs idle (recordFetches 2 ∅ (take 4 attempts));
               trace := (sendEvent 2 <$> take 4 attempts) ++ (blockedEvent <$> drop 4 attempts);
               fetchRoom := 4 - length (take 4 attempts) |}).
Proof.
  assert (gomap.len votesForC ≠ 0%nat) as Hlen by (vm_compute; discriminate).
  destruct (checkMissingPBs_fetches distribution kernel votesForC (mkWorld idle 4) Hlen eq_refl)
    as (attempts & Hnd & Hwanted & Hrun & _).
  exists attempts. split; [|exact Hrun].
  intros h. rewrite Hwanted. cbn. split.
  - intros (Hne & [p Hp] & _ & _ & Hpow).
    destruct (decide (h = "c")) as [->|Hc]; [done|]. exfalso.
    rewrite lookup_insert_ne in Hp by done.
    rewrite lookup_insert_ne in Hp by done.
    apply lookup_singleton_Some in Hp as [<- <-].
    vm_compute in Hpow. by apply Hpow.
  - intros ->. split_and!; [done|by eexists|..].
    + intros pb Hpb. by apply elem_of_nil in Hpb.
    + done.
    + vm_compute. discriminate.
Defined.

(** A round action with a prevote and a precommit, handed over while the
    state machine is on a round the kernel does not track: it is dropped
    with a log entry, and the kernel does not panic. *)
Lemma both_votes_dropped :
  hasPB bothVotes = false ∧ hasPrevote bothVotes = true ∧ hasPrecommit bothVotes = true
  ∧ handleStateMachineAction lookup distribution kernel bothVotes (mkWorld elsewhere 4)
    = Ok (tt, {| state := elsewhere; trace := [LogInfo droppedVoteMsg]; fetchRoom := 4 |})
  ∧ ∀ msg,
      handleStateMachineAction lookup distribution kernel bothVotes (mkWorld elsewhere 4)
      ≠ Panic msg.
Proof. repeat split. intros msg. discriminate. Qed.

Lemma action_check_witness :
  handleStateMachineAction lookup distribution kernel bothVotes (mkWorld idle 4)
  = Panic multipleVotesMsg
  ∧ handleStateMachineAction lookup distribution kernel bothVotes (mkWorld elsewhere 4)
    = Ok (tt, {| state := elsewhere; trace := [LogInfo droppedVoteMsg]; fetchRoom := 4 |})
  ∧ ∀ msg,
      handleStateMachineAction lookup distribution kernel onePrevote (mkWorld idle 4)
      = Panic msg →
      msg ∉ checkPanics.
Proof.
  split_and!.
  - exact (proj1 (proj2 (proj2 (action_check lookup distribution kernel bothVotes
                                  (mkWorld idle 4))))
             eq_refl eq_refl eq_refl).
  - exact (proj1 (proj2 (proj2 (action_check lookup distribution kernel bothVotes
                                  (mkWorld elsewhere 4))))
             eq_refl eq_refl eq_refl).
  - apply (proj2 (proj2 (proj2 (action_check lookup distribution kernel onePrevote
                                  (mkWorld idle 4))))).
    right. left.
Defined.


(** The proposed block B arrives while its fetch is outstanding: the
    fetch is cancelled and forgotten. *)
Lemma addPB_fetch_lifecycle_witness :
  ∃ w',
    addPB lookup kernel pbB (mkWorld fetchingB 4) = Ok (tt, w')
    ∧ InFlightFetchPBs (state w') = delete "b" (InFlightFetchPBs fetchingB)
    ∧ fetchRoom w' = 4%nat
    ∧ ∃ t, trace w' = [CallCancel {| cfHeight := 2; cfHash := "b" |}] ++ t
           ∧ Forall quietEvent t.
Proof.
  assert (∃ w', addPB lookup kernel pbB (mkWorld fetchingB 4) = Ok (tt, w')) as [w' Hrun].
  { eexists. vm_compute. reflexivity. }
  exists w'. split; [exact Hrun|].
  exact (addPB_fetch_lifecycle lookup kernel pbB (mkWorld fetchingB 4) w' Hrun).
Defined.

(** A proposed block for height 7 arrives: it is dropped. *)
Lemma addPB_untracked_witness :
  addPB lookup kernel pbFar (mkWorld fetchingB 4)
  = Ok (tt, {| state := fetchingB; trace := [LogInfo dropMsg]; fetchRoom := 4 |}).
Proof.
  exact (proj1 (addPB_untracked lookup kernel pbFar (mkWorld fetchingB 4) eq_refl)).
Defined.
(** A second proposed block for the committing round is appended to
    the committing view and saved; handing it over again changes
    nothing. *)
Lemma addPB_appends_witness :
  ∃ w1,
    addPB lookup kernel pbA2 (mkWorld idle 4) = Ok (tt, w1)
    ∧ ProposedBlocks (RV (VRV (Committing (state w1)))) = [pbA; pbA2]
    ∧ trace w1 = [SaveProposedBlock pbA2]
    ∧ addPB lookup kernel pbA2 w1 = Ok (tt, w1).
Proof.
  assert (∀ have, have ∈ ProposedBlocks (RV (VRV (viewAt idle AtCommitting))) →
                  Signature have ≠ Signature pbA2) as Hnew.
  { intros have [->|Hin%elem_of_nil]%elem_of_cons; [discriminate|done]. }
  assert (ViewIDCommitting ≠ ViewIDVoting) as Hv by discriminate.
  assert (ViewIDCommitting ≠ ViewIDNextRound) as Hn by discriminate.
  destruct (addPB_appends lookup kernel pbA2 AtCommitting (mkWorld idle 4) eq_refl Hv Hn Hnew)
    as [Hrun Hagain].
  eexists. split; [exact Hrun|]. split; [reflexivity|]. split; [reflexivity|].
  exact (Hagain eq_refl).
Defined.

(** The proposed block B arrives with precommits of height 1 for a
    block the committing view has no precommit for. *)
Lemma addPB_backfill_unknown_witness :
  addPB lookup kernel pbWithCommit (mkWorld idle 4) = Panic backfillPanic.
Proof.
  assert (∀ have, have ∈ ProposedBlocks (RV (VRV (viewAt idle AtVoting))) →
                  Signature have ≠ Signature pbWithCommit) as Hnew.
  { intros have Hin. by apply elem_of_nil in Hin. }
  assert (is_Some (gomap.get (Proofs (PrevCommitProof (PBBlock pbWithCommit))) "x")) as Hx.
  { by eexists. }
  exact (addPB_backfill_unknown lookup kernel pbWithCommit AtVoting (mkWorld idle 4) "x"
           eq_refl (or_introl eq_refl) Hnew Hx eq_refl).
Defined.

(** The prevote of the state machine (validator 0) for "b" in round
    (2, 0): its signature is added to a new proof for "b", at
    version 1. *)
Lemma own_votes_accepted_witness :
  ∃ proofs' versions' w1,
    handleStateMachineAction lookup distribution kernel onePrevote (mkWorld idle 4)
    = afterPrevotes distribution kernel (Some (AtVoting, ViewIDVoting, AddVoteAccepted)) w1
    ∧ trace w1 = [OverwritePrevoteProofs 2 0 proofs']
    ∧ gomap.get proofs' "b" = Some [0%nat]
    ∧ gomap.get versions' "b" = Some 1
    ∧ gomap.get proofs' "" = Some [].
Proof.
  assert (AddSignature [] (SSig (ActPrevote onePrevote)) "v0" = Some [0%nat]) as Hadd.
  { vm_compute. reflexivity. }
  destruct (proj1 (own_votes_accepted lookup distribution kernel onePrevote AtVoting
                     {[ "" := [] ]} [] [0%nat] (mkWorld idle 4)
                     eq_refl eq_refl (or_introl eq_refl))
              eq_refl eq_refl eq_refl eq_refl eq_refl eq_refl eq_refl Hadd)
    as (proofs' & versions' & w1 & Hrun & _ & Htrace & _ & Hp & Hv & Hother).
  exists proofs', versions', w1. split; [exact Hrun|]. split; [exact Htrace|].
  split; [exact Hp|]. split; [exact Hv|].
  assert ("" ≠ "b") as Hne by discriminate.
  exact (proj1 (Hother "" Hne)).
Defined.
(** The proposed block B is for the voting round: the reply is the
    verdict against the voting view, and carries no round view. *)
Lemma sendPBCheckResponse_status_witness :
  ∃ resp,
    sendPBCheckResponse pubKeyEqual idle pbB = Ok resp
    ∧ resp = setPBCheckStatus pubKeyEqual pbB zeroPBCheckResponse (VRV (Voting idle))
    ∧ ¬ Status resp = PBCheckRoundTooOld.
Proof.
  assert (∃ resp, sendPBCheckResponse pubKeyEqual idle pbB = Ok resp) as [resp Hrun].
  { eexists. vm_compute. reflexivity. }
  exists resp. split; [exact Hrun|].
  destruct (sendPBCheckResponse_status pubKeyEqual idle pbB resp Hrun)
    as (Hold & _ & _ & _ & _ & Hvoting & _).
  split; [apply Hvoting; reflexivity|].
  intros [Hlt|[[Hh _]|(_ & _ & Hr)]]%Hold; discriminate.
Defined.

(** Only the voting view was changed since it was sent: it is the one
    offered to the gossip strategy, without an empty nil precommit
    proof. *)
Lemma gossipStrategyOutput_offers_witness :
  ∃ o,
    gossipStrategyOutput channels noSigners unsent = Ok o
    ∧ GsCh o = Some 4%nat
    ∧ is_Some (NVUVoting (GsVal o))
    ∧ ¬ is_Some (NVUCommitting (GsVal o))
    ∧ ∀ v p, NVUVoting (GsVal o) = Some v →
             gomap.get (PrecommitProofs (RV v)) "" = Some p → noSigners p = false.
Proof.
  assert (∃ o, gossipStrategyOutput channels noSigners unsent = Ok o) as [o Hrun].
  { eexists. vm_compute. reflexivity. }
  exists o. split; [exact Hrun|].
  destruct (gossipStrategyOutput_offers channels noSigners unsent o Hrun)
    as (Hch & _ & Hviews).
  destruct (Hviews _ _ _ (list_elem_of_here _ _)) as (Hvoting & _ & Hval).
  destruct (Hviews _ _ _ (list_elem_of_further _ _ _ (list_elem_of_here _ _)))
    as (Hcommitting & _).
  split; [exact Hch|]. split; [by apply Hvoting|]. split.
  - intros Hsome%Hcommitting. discriminate.
  - intros v p Hv. destruct (Hval v Hv) as (_ & _ & Hpc & _). apply Hpc.
Defined.

(** Once that output was sent and marked, nothing is left to offer. *)
Lemma gossip_sent_once_witness :
  ∃ o,
    gossipStrategyOutput channels noSigners unsent = Ok o
    ∧ gossipStrategyOutput channels noSigners (gossipStrategyOut_MarkSent o unsent)
      = Ok {| GsCh := None;
              GsVal := {| NVUVoting := None; NVUCommitting := None; NVUNextRound := None;
                          NVUNilVotedRound := None |} |}.
Proof.
  assert (∃ o, gossipStrategyOutput channels noSigners unsent = Ok o) as [o Hrun].
  { eexists. vm_compute. reflexivity. }
  exists o. split; [exact Hrun|].
  exact (proj1 (gossip_sent_once channels noSigners unsent o Hrun)).
Defined.
(** The committing round (1, 0) is loaded from the round store: the
    stored precommits for "a" are kept and the nil proofs the store
    does not hold are made. *)
Lemma loadInitialView_nil_proofs_witness :
  ∃ rv,
    loadInitialView kernel diskStores (Some stoppedAt) 1 0 vals = (inl rv, Some stoppedAt)
    ∧ ProposedBlocks rv = [pbA]
    ∧ gomap.get (PrecommitProofs rv) "a" = Some [0; 1; 2]%nat
    ∧ is_Some (gomap.get (PrevoteProofs rv) "")
    ∧ is_Some (gomap.get (PrecommitProofs rv) "").
Proof.
  assert (∃ rv, loadInitialView kernel diskStores (Some stoppedAt) 1 0 vals
                = (inl rv, Some stoppedAt)) as [rv Hrun].
  { eexists. vm_compute. reflexivity. }
  exists rv. split; [exact Hrun|].
  destruct (loadInitialView_nil_proofs kernel diskStores (Some stoppedAt) (Some stoppedAt)
              1 0 vals rv Hrun)
    as (Hfields & _ & Hpv & Hpc & _ & Hkept & _).
  injection Hfields as _ _ _ Hpbs.
  split; [exact Hpbs|]. split; [exact (Hkept "a" _ eq_refl)|]. split; [exact Hpv|exact Hpc].
Defined.

(** Round (2, 0) is unknown to the round store and the public keys
    are saved already: the view is loaded all the same. *)
Lemma loadInitialView_tolerates_witness :
  ∃ rv, loadInitialView kernel diskStores (Some stoppedAt) 2 0 vals
        = (inl rv, Some stoppedAt).
Proof.
  apply (proj1 (loadInitialView_tolerates kernel diskStores
                  (Some stoppedAt) (Some stoppedAt) (Some stoppedAt) (Some stoppedAt)
                  2 0 vals
                  {| RSProposedBlocks := []; RSPrevotes := None; RSPrecommits := None |}
                  "pkh" "pwh" (Some (RoundUnknownError 2 0)) (Some PubKeysAlreadyExistError)
                  None eq_refl eq_refl eq_refl)).
  split; [by right|]. split; [by right|]. split; [by left|].
  split; right; exists []; (split; [reflexivity|by eexists]).
Defined.

(** On uninitialized stores the kernel starts voting on (1, 0), with
    no committing view. *)
Lemma NewKernel_fresh_store_witness :
  ∃ s st',
    NewKernel distribution kernel vals diskStores machineView None = Ok (inl s, st')
    ∧ loadedAt (VRV (Voting s)) 1 0 vals
    ∧ loadedAt (VRV (NextRound s)) 1 1 vals
    ∧ Committing s = zeroView.
Proof.
  assert (∃ s st', NewKernel distribution kernel vals diskStores machineView None
                   = Ok (inl s, st')) as (s & st' & Hrun).
  { eexists _, _. vm_compute. reflexivity. }
  exists s, st'. split; [exact Hrun|].
  assert (0 < initialHeight kernel) as Hpos by reflexivity.
  destruct (NewKernel_fresh_store distribution kernel vals diskStores machineView None None _
              eq_refl Hpos) as (_ & _ & Hok).
  destruct (Hok s st' Hrun) as (_ & Hv & Hn & Hc & _).
  split; [exact Hv|]. split; [exact Hn|exact Hc].
Defined.

(** A kernel restarted while committing height 1 and voting on (2, 0):
    the three views are loaded, and the committing block is a proposed
    block of round (1, 0). *)
Lemma NewKernel_committing_block_witness :
  ∃ s,
    NewKernel distribution kernel vals diskStores machineView (Some stoppedAt)
    = Ok (inl s, Some stoppedAt)
    ∧ loadedAt (VRV (Voting s)) 2 0 (RVValidators (RV (VRV (Voting s))))
    ∧ loadedAt (VRV (Committing s)) 1 0 vals
    ∧ ∃ pb, pb ∈ ProposedBlocks (RV (VRV (Committing s))) ∧ CommittingBlock s = PBBlock pb.
Proof.
  assert (∃ s, NewKernel distribution kernel vals diskStores machineView (Some stoppedAt)
               = Ok (inl s, Some stoppedAt)) as [s Hrun].
  { eexists. vm_compute. reflexivity. }
  exists s. split; [exact Hrun|].
  destruct (NewKernel_committing_block distribution kernel vals diskStores machineView
              (Some stoppedAt) (Some stoppedAt) (Some stoppedAt) stoppedAt s eq_refl Hrun)
    as (Hv & _ & _ & _ & Hc).
  assert (initialHeight kernel ≤ CommittingHeight stoppedAt) as Hle by reflexivity.
  destruct (Hc Hle) as (_ & Hloaded & pb & pow & Hin & Hpb & _).
  split; [exact Hv|]. split; [exact Hloaded|]. exists pb. split; [exact Hin|exact Hpb].
Defined.
(** A nil proof map makes checkMissingPBs panic. *)
Lemma checkMissingPBs_empty_witness :
  checkMissingPBs distribution kernel None (mkWorld idle 4) = Panic makesliceCap.
Proof.
  exact (proj1 (checkMissingPBs_empty distribution kernel None (mkWorld idle 4)) eq_refl).
Defined.

(** The precommit of validator 3 for nil is merged into the nil proof
    of the committing view, and the proofs are persisted. *)
Lemma backfill_merges_witness :
  ∃ s' proofs' persisted,
    backfill kernel pbWithNilCommit (mkWorld idle 4)
    = Ok (tt, {| state := s'; trace := persisted; fetchRoom := 4 |})
    ∧ gomap.get proofs' "" = Some [3%nat]
    ∧ PrecommitProofs (RV (VRV (Committing s'))) = proofs'.
Proof.
  assert (∀ h, is_Some (gomap.get (Proofs (PrevCommitProof (PBBlock pbWithNilCommit))) h) →
               is_Some (gomap.get (PrecommitProofs (RV (VRV (Committing idle)))) h)) as Hknown.
  { intros h [sigs Hh]. cbn in Hh. apply lookup_singleton_Some in Hh as [<- _]. by eexists. }
  destruct (proj2 (backfill_merges kernel pbWithNilCommit (mkWorld idle 4)) Hknown)
    as (s' & proofs' & persisted & Hrun & Hmerged & Hvrv & _).
  exists s', proofs', persisted. split; [exact Hrun|]. split; [exact (Hmerged "")|].
  by rewrite Hvrv.
Defined.

(** A prevote for round (1, 5), while round (1, 0) is committing, is
    answered as out of date; a precommit for height 9 makes the kernel
    panic. *)
Lemma votes_for_untracked_rounds_witness :
  addPrevote lookup distribution kernel
    (prevotes 1 5 "d" (update [0%nat] 0) (Some 7%nat)) (mkWorld idle 4)
  = Ok (tt, {| state := idle;
               trace := [LogWarn wrongCommitMsg; Respond 7%nat AddVoteOutOfDate];
               fetchRoom := 4 |})
  ∧ addPrecommit lookup distribution kernel
      (precommits 9 0 "d" (update [0%nat] 0) (Some 7%nat)) (mkWorld idle 4)
    = Panic untrackedPrecommitPanic.
Proof.
  destruct (votes_for_untracked_rounds lookup distribution kernel
              (prevotes 1 5 "d" (update [0%nat] 0) (Some 7%nat))
              (precommits 9 0 "d" (update [0%nat] 0) (Some 7%nat)) (mkWorld idle 4))
    as (Hwrong & _ & _ & Hfuture).
  split; [exact (Hwrong eq_refl)|exact (Hfuture eq_refl)].
Defined.

(** A lookup of the voting round copies the voting view into the
    request and replies that it was found. *)
Lemma sendViewLookupResponse_replies_witness :
  ∃ dst',
    copySnapshotView kernel (VRV (Voting idle)) zeroVersionedRoundView allFields = Ok dst'
    ∧ sendViewLookupResponse lookup kernel idle lookupVoting
      = Ok (Some dst', {| RespID := ViewIDVoting; RespStatus := ViewFound |}).
Proof.
  destruct (sendViewLookupResponse_replies lookup kernel idle lookupVoting)
    as (_ & _ & Hfound & _).
  assert (VLReason lookupVoting ≠ "") as Hne by discriminate.
  exact (Hfound Hne AtVoting zeroVersionedRoundView eq_refl eq_refl).
Defined.

(** The proposer of B is validator 1, the first validator with its
    key. *)
Lemma setPBCheckStatus_verdict_witness :
  ∃ i val,
    vals !! i = Some val
    ∧ pubKeyEqual "v1" (ValPubKey val) = true
    ∧ RespProposerPubKey
        (setPBCheckStatus pubKeyEqual pbB zeroPBCheckResponse (VRV (Voting idle)))
      = Some (ValPubKey val).
Proof.
  destruct (setPBCheckStatus_verdict pubKeyEqual pbB zeroPBCheckResponse (VRV (Voting idle)))
    as (_ & _ & _ & Hacc & _).
  destruct (Hacc eq_refl) as (i & val & Hi & Hval & _ & Hkey).
  exists i, val. split; [exact Hi|]. split; [exact Hval|exact Hkey].
Defined.

(** The state machine enters the voting round: it is sent the voting
    view, with the hash of the committing block as previous block
    hash. *)
Lemma handleStateMachineRoundUpdate_replies_witness :
  ∃ su s',
    handleStateMachineRoundUpdate rebind (λ v _, v) noBlocks lookup elsewhere enterVoting
    = Ok (su, s')
    ∧ SUVRV su = VRV (Voting elsewhere)
    ∧ SUPrevBlockHash su = "a".
Proof.
  assert (∃ su s', handleStateMachineRoundUpdate rebind (λ v _, v) noBlocks lookup
                     elsewhere enterVoting = Ok (su, s')) as (su & s' & Hrun).
  { eexists _, _. vm_compute. reflexivity. }
  exists su, s'. split; [exact Hrun|].
  destruct (proj2 (handleStateMachineRoundUpdate_replies rebind (λ v _, v) noBlocks lookup
                     elsewhere enterVoting) su s' Hrun)
    as (_ & _ & Hvrv & _ & Hprev & _).
  split; [exact Hvrv|exact Hprev].
Defined.

(** The committing view of a restarted kernel is loaded with its
    committing block. *)
Lemma loadInitialCommittingView_block_witness :
  ∃ s',
    loadInitialCommittingView distribution kernel vals diskStores (Some stoppedAt)
      (initState machineView stoppedAt)
    = Ok (None, s', Some stoppedAt)
    ∧ Hash (CommittingBlock s') ≠ ""
    ∧ PrecommitVersion (VRV (Committing s')) = 1.
Proof.
  assert (∃ s', loadInitialCommittingView distribution kernel vals diskStores
                  (Some stoppedAt) (initState machineView stoppedAt)
                = Ok (None, s', Some stoppedAt)) as [s' Hrun].
  { eexists. vm_compute. reflexivity. }
  exists s'. split; [exact Hrun|].
  destruct (loadInitialCommittingView_block distribution kernel vals diskStores
              (Some stoppedAt) (initState machineView stoppedAt))
    as (_ & _ & _ & Hok).
  destruct (Hok s' _ Hrun) as (_ & Hver & _ & Hhash & _).
  injection Hver as _ _ Hpc. split; [exact Hhash|exact Hpc].
Defined.

(** The voting view and the next-round view of a restarted kernel. *)
Lemma loadInitialVotingView_views_witness :
  ∃ s',
    loadInitialVotingView kernel vals diskStores (Some stoppedAt)
      (initState machineView stoppedAt)
    = Ok (None, s', Some stoppedAt)
    ∧ loadedAt (VRV (Voting s')) 2 0 vals
    ∧ loadedAt (VRV (NextRound s')) 2 1 vals.
Proof.
  assert (∃ s', loadInitialVotingView kernel vals diskStores (Some stoppedAt)
                  (initState machineView stoppedAt)
                = Ok (None, s', Some stoppedAt)) as [s' Hrun].
  { eexists. vm_compute. reflexivity. }
  exists s'. split; [exact Hrun|].
  destruct (loadInitialVotingView_views kernel vals diskStores
              (Some stoppedAt) (initState machineView stoppedAt))
    as (_ & _ & Hok).
  destruct (Hok s' _ Hrun) as (Hv & Hn & _).
  split; [exact Hv|exact Hn].
Defined.

(** A kernel started on uninitialized stores offers its voting view and
    its next-round view to the gossip strategy, and not its committing
    view, which is the zero value. *)
Lemma fresh_kernel_gossip :
  ∃ s st' o,
    NewKernel distribution kernel vals diskStores machineView None = Ok (inl s, st')
    ∧ gossipStrategyOutput channels noSigners s = Ok o
    ∧ is_Some (NVUVoting (GsVal o))
    ∧ is_Some (NVUNextRound (GsVal o))
    ∧ NVUCommitting (GsVal o) = None.
Proof.
  eexists _, _, _. split; [vm_compute; reflexivity|].
  split; [vm_compute; reflexivity|].
  split; [by eexists|]. split; [by eexists|reflexivity].
Qed.
